(** * WexDownloader: the report relay server, embedded and verified

    A shallow embedding of the Express/Playwright server that resolves a
    Missive message to a download link, fetches the file through a browser
    context, and relays it to a webhook chosen by the file's name.

    Layout:
    - [JS]: JSON values with the JavaScript notions the handlers rely on
      (truthiness, property access, optional chaining);
    - [Str]: code-unit strings, lower-casing, substring search;
    - [Regex]: a backtracking matcher for the fragment of regular
      expressions that the source uses, with [String.prototype.match]
      for plain and global patterns;
    - the functions of the server, under the names they have in the source;
    - the theorems. *)

From Stdlib Require Import String Ascii List ZArith Lia Bool Arith.
From Stdlib Require Import DecimalString.
From stdpp Require Import base option gmap strings.
From Equations Require Import Equations.
Import ListNotations.

Set Warnings "-register-all".

Local Open Scope string_scope.
Local Open Scope list_scope.

(** ** Thrown values and results *)

(** What a [throw] carries: an [Error] built by the server itself, a
    [TypeError] raised by the language, or the error of an outside call
    (axios, Playwright, the file system), each with its message. *)
Inductive exn : Type :=
| Error (message : string)
| TypeError (message : string)
| External (message : string).

Definition exn_message (e : exn) : string :=
  match e with Error m | TypeError m | External m => m end.

Inductive result (A : Type) : Type :=
| Ok (a : A)
| Throw (e : exn).
Arguments Ok {A} a.
Arguments Throw {A} e.

Definition rbind {A B} (r : result A) (k : A -> result B) : result B :=
  match r with Ok a => k a | Throw e => Throw e end.

(** ** Strings as sequences of code units *)

Module Str.

(** Strings hold code units below 256 (the Latin-1 part of UTF-16). *)
Definition dquote : ascii := Eval cbv in ascii_of_nat 34.
Definition chars (s : string) : list ascii := list_ascii_of_string s.
Definition of_chars (l : list ascii) : string := string_of_list_ascii l.

Definition code (c : ascii) : nat := nat_of_ascii c.

Definition is_upper (c : ascii) : bool :=
  let n := code c in
  (((65 <=? n) && (n <=? 90)) || ((192 <=? n) && (n <=? 222) && negb (n =? 215)))%nat.

(** [String.prototype.toLowerCase] on one code unit: A-Z and the
    upper-case Latin-1 letters move up by 32, the rest stays. *)
Definition lower_char (c : ascii) : ascii :=
  if is_upper c then ascii_of_nat (code c + 32) else c.

Definition toLowerCase (s : list ascii) : list ascii := map lower_char s.

Fixpoint starts_with (p s : list ascii) : bool :=
  match p, s with
  | [], _ => true
  | _ :: _, [] => false
  | a :: p', b :: s' => Ascii.eqb a b && starts_with p' s'
  end.

(** [String.prototype.includes]. *)
Fixpoint includes (s needle : list ascii) : bool :=
  starts_with needle s ||
  match s with
  | [] => false
  | _ :: s' => includes s' needle
  end.

End Str.

(** ** JSON values as JavaScript sees them *)

Module JS.

Inductive value : Type :=
| Undefined
| Null
| Bool (b : bool)
| Num (n : Z)
| String (s : string)
| Arr (items : list value)
| Obj (fields : list (string * value)).

(** ToBoolean. Only the truthiness of a number is ever observed here, so
    a number is kept as an integer: zero is falsy, the rest truthy. *)
Definition truthy (v : value) : bool :=
  match v with
  | Undefined | Null => false
  | Bool b => b
  | Num n => negb (n =? 0)%Z
  | String s => negb (String.eqb s EmptyString)
  | Arr _ | Obj _ => true
  end.

Definition isArray (v : value) : bool :=
  match v with Arr _ => true | _ => false end.

(** [typeof v === 'object'] *)
Definition typeof_object (v : value) : bool :=
  match v with Null | Arr _ | Obj _ => true | _ => false end.

Fixpoint assoc (k : string) (fields : list (string * value)) : value :=
  match fields with
  | [] => Undefined
  | (k', v) :: rest => if String.eqb k k' then v else assoc k rest
  end.

(** [v.k] for the property names the server reads ([messages],
    [message], [body], [conversation], [latest_message], [id],
    [webhookUrl]): absent on primitives and arrays, a [TypeError] on
    [undefined] and [null]. *)
Definition get (v : value) (k : string) : result value :=
  match v with
  | Undefined =>
      Throw (TypeError ("Cannot read properties of undefined (reading '" ++ k ++ "')"))
  | Null =>
      Throw (TypeError ("Cannot read properties of null (reading '" ++ k ++ "')"))
  | Obj fields => Ok (assoc k fields)
  | _ => Ok Undefined
  end.

(** [v?.k] *)
Definition get_opt (v : value) (k : string) : value :=
  match v with
  | Obj fields => assoc k fields
  | _ => Undefined
  end.

(** [v[0]] and [v.length] on an array *)
Definition first (items : list value) : value :=
  match items with [] => Undefined | x :: _ => x end.

(** [a || b] *)
Definition or (a b : value) : value := if truthy a then a else b.

End JS.

(** ** Regular expressions *)

Module Regex.

(** The constructs that occur in the server's patterns: a literal
    character, an optional literal ([s?]), a greedy repetition of a
    character class with a least count ([c*] and [c+]), and the two ends
    of capture group 1. *)
Inductive atom : Type :=
| Lit (c : ascii)
| Opt (c : ascii)
| Many (cls : ascii -> bool) (least : nat)
| GroupOpen
| GroupClose.

Definition regex := list atom.

Definition lits (s : string) : regex := map Lit (Str.chars s).

(** Where group 1 opened (the input left at that point) and what it
    captured. *)
Record groups : Type := { g_open : option (list ascii); g_cap : option (list ascii) }.

Definition no_groups : groups := {| g_open := None; g_cap := None |}.

Definition taken (from rest : list ascii) : list ascii :=
  firstn (length from - length rest) from.

(** With the [i] flag two characters match when they canonicalize to the
    same one; the literals of the patterns are ASCII. *)
Definition same (ci : bool) (c x : ascii) : bool :=
  if ci then Ascii.eqb (Str.lower_char c) (Str.lower_char x) else Ascii.eqb c x.

(** Greedy repetition with backtracking: take one more character when
    the class allows it and the rest of the pattern then matches,
    otherwise stop here if enough have been taken. *)
Fixpoint many {R} (cls : ascii -> bool) (k : list ascii -> option R)
         (least : nat) (s : list ascii) : option R :=
  let stop := if Nat.eqb least 0 then k s else None in
  match s with
  | c :: s' =>
      if cls c then
        match many cls k (Nat.pred least) s' with
        | Some r => Some r
        | None => stop
        end
      else stop
  | [] => stop
  end.

Definition lit_step {R} (ci : bool) (c : ascii) (k : list ascii -> option R)
           (s : list ascii) : option R :=
  match s with
  | x :: s' => if same ci c x then k s' else None
  | [] => None
  end.

(** Match the pattern at the head of the input; the result is the input
    left after the match, with the groups. *)
Fixpoint match_here (ci : bool) (r : regex) (g : groups) (s : list ascii)
  : option (list ascii * groups) :=
  match r with
  | [] => Some (s, g)
  | Lit c :: r' => lit_step ci c (match_here ci r' g) s
  | Opt c :: r' =>
      match lit_step ci c (match_here ci r' g) s with
      | Some res => Some res
      | None => match_here ci r' g s
      end
  | Many cls least :: r' => many cls (match_here ci r' g) least s
  | GroupOpen :: r' =>
      match_here ci r' {| g_open := Some s; g_cap := g_cap g |} s
  | GroupClose :: r' =>
      match_here ci r'
        {| g_open := g_open g;
           g_cap := match g_open g with
                    | Some from => Some (taken from s)
                    | None => None
                    end |} s
  end.

(** One match: the matched text and group 1. *)
Record found : Type := { whole : list ascii; group1 : option (list ascii) }.

(** [RegExp.prototype.exec] from the start of the input: the leftmost
    position at which the pattern matches. *)
Fixpoint exec (ci : bool) (r : regex) (s : list ascii) : option found :=
  match match_here ci r no_groups s with
  | Some (rest, g) => Some {| whole := taken s rest; group1 := g_cap g |}
  | None =>
      match s with
      | [] => None
      | _ :: s' => exec ci r s'
      end
  end.

(** All matches, left to right, each starting where the one before
    ended ([skip] characters of the current match are still to be
    passed); an empty match moves on by one character. *)
Fixpoint exec_all (ci : bool) (r : regex) (skip : nat) (s : list ascii)
  : list (list ascii) :=
  match skip with
  | S n =>
      match s with
      | [] => []
      | _ :: s' => exec_all ci r n s'
      end
  | O =>
      match match_here ci r no_groups s with
      | Some (rest, _) =>
          taken s rest ::
          match s with
          | [] => []
          | _ :: s' => exec_all ci r (Nat.pred (length s - length rest)) s'
          end
      | None =>
          match s with
          | [] => []
          | _ :: s' => exec_all ci r 0 s'
          end
      end
  end.

(** A pattern with its flags. *)
Record pattern : Type := { re : regex; flag_i : bool; flag_g : bool }.

(** [String.prototype.match]: [null] (here [None]) without a match,
    else the array: the match followed by group 1 for a plain pattern
    (an unset group is [undefined]), every match for a global one. *)
Definition str_match (p : pattern) (s : list ascii) : option (list (option (list ascii))) :=
  if flag_g p then
    match exec_all (flag_i p) (re p) 0 s with
    | [] => None
    | ms => Some (map Some ms)
    end
  else
    match exec (flag_i p) (re p) s with
    | Some f => Some [Some (whole f); group1 f]
    | None => None
    end.

(** [String.prototype.replace] with a global pattern and a fixed
    replacement. *)
Fixpoint replace_all (ci : bool) (r : regex) (by_ : list ascii) (skip : nat)
         (s : list ascii) : list ascii :=
  match skip with
  | S n =>
      match s with
      | [] => []
      | _ :: s' => replace_all ci r by_ n s'
      end
  | O =>
      match s with
      | [] => []
      | c :: s' =>
          match match_here ci r no_groups s with
          | Some (rest, _) =>
              match length s - length rest with
              | O => c :: replace_all ci r by_ 0 s'
              | S n => by_ ++ replace_all ci r by_ n s'
              end
          | None => c :: replace_all ci r by_ 0 s'
          end
      end
  end.

(** Character classes of the patterns. *)
Definition is_space (c : ascii) : bool :=
  let n := Str.code c in
  (((9 <=? n) && (n <=? 13)) || (n =? 32) || (n =? 160))%nat.

Definition not_char (x : ascii) (c : ascii) : bool := negb (Ascii.eqb c x).

(** The class of the URL patterns: anything but white space, the two
    quotes and the angle brackets. *)
Definition url_char (c : ascii) : bool :=
  negb (is_space c) && not_char Str.dquote c && not_char "'"%char c
  && not_char "<"%char c && not_char ">"%char c.

End Regex.

(** ** Configuration *)

(** What [parseInt] returns: an integer or [NaN]. *)
Inductive number : Type :=
| Fin (z : Z)
| NaN.

(** [a < b] and [a <= b] on numbers: false as soon as one side is [NaN]. *)
Definition num_lt (a b : number) : bool :=
  match a, b with
  | Fin x, Fin y => (x <? y)%Z
  | _, _ => false
  end.

Definition num_le (a b : number) : bool :=
  match a, b with
  | Fin x, Fin y => (x <=? y)%Z
  | _, _ => false
  end.

(** Number to string, as a template literal prints it. *)
Definition num_to_string (a : number) : string :=
  match a with
  | Fin z => NilZero.string_of_int (Z.to_int z)
  | NaN => "NaN"
  end.

(** The constants the server reads from its environment at start-up; a
    variable that is not set is [None]. *)
Record config : Type := {
  MAX_RETRIES : number;
  MISSIVE_API_KEY : option string;
  FUELREPORTWEBHOOK : option string;
  EFSREPORTWEBHOOK : option string;
  PERSISTENT_DIR : string
}.

(** [RETRY_DELAY], in milliseconds. *)
Definition RETRY_DELAY : Z := 2000.

(** [!v] for a variable of the environment: unset, or set to the empty
    string. *)
Definition env_falsy (v : option string) : bool :=
  match v with
  | None => true
  | Some s => String.eqb s EmptyString
  end.

(** ** Extracting the download link *)

Import Regex.

Definition quoted_value : regex :=
  [Lit Str.dquote; GroupOpen; Many (not_char Str.dquote) 1; GroupClose; Lit Str.dquote].

(** The patterns are quoted with [\x22] standing for the double quote.

    [/href=\x22([^\x22]+)\x22/] *)
Definition href_pattern : pattern :=
  {| re := lits "href=" ++ quoted_value; flag_i := false; flag_g := false |}.

(** [/Download at:\s*<a[^>]*href=\x22([^\x22]+)\x22/i] *)
Definition download_at_pattern : pattern :=
  {| re := lits "Download at:" ++ [Many is_space 0] ++ lits "<a"
           ++ [Many (not_char ">"%char) 0] ++ lits "href=" ++ quoted_value;
     flag_i := true; flag_g := false |}.

(** [/https:\/\/manage\.fleetone\.com\/[^\s\x22'<>]+getJobFile[^\s\x22'<>]+/gi] *)
Definition getJobFile_pattern : pattern :=
  {| re := lits "https://manage.fleetone.com/" ++ [Many url_char 1]
           ++ lits "getJobFile" ++ [Many url_char 1];
     flag_i := true; flag_g := true |}.

(** [/(https?:\/\/[^\s\x22'<>]+\.pdf[^\s\x22'<>]{0,})/gi], the last
    repetition being a star in the source. *)
Definition pdf_pattern : pattern :=
  {| re := [GroupOpen] ++ lits "http" ++ [Opt "s"%char] ++ lits "://"
           ++ [Many url_char 1] ++ lits ".pdf" ++ [Many url_char 0] ++ [GroupClose];
     flag_i := true; flag_g := true |}.

(** The fallback [patterns] array. *)
Definition patterns : list pattern :=
  [download_at_pattern; getJobFile_pattern; pdf_pattern].

(** [url.replace(/&amp;/g, '&')] *)
Definition decode_amp (url : list ascii) : list ascii :=
  replace_all false (lits "&amp;") ["&"%char] 0 url.

(** [matches[i]], [undefined] when out of range or unset. *)
Definition at_index (matches : list (option (list ascii))) (i : nat) : option (list ascii) :=
  match nth_error matches i with
  | Some (Some x) => Some x
  | _ => None
  end.

Definition str_truthy (o : option (list ascii)) : bool :=
  match o with
  | Some (_ :: _) => true
  | _ => false
  end.

(** [matches[1] || matches[0]] *)
Definition first_or_whole (matches : list (option (list ascii))) : option (list ascii) :=
  if str_truthy (at_index matches 1) then at_index matches 1 else at_index matches 0.

Definition NO_BODY : exn := Error "No message body found in Missive response".
Definition NO_URL : exn := Error "No download URL found in message body".
Definition NOT_A_STRING : exn := TypeError "body.match is not a function".
Definition NO_REPLACE : exn :=
  TypeError "Cannot read properties of undefined (reading 'replace')".

(** The [for (const pattern of patterns)] loop: [None] when it runs to
    its end without returning. *)
Fixpoint try_patterns (ps : list pattern) (body : list ascii) : option (result string) :=
  match ps with
  | [] => None
  | p :: ps' =>
      match str_match p body with
      | Some matches =>
          Some match first_or_whole matches with
               | Some url => Ok (Str.of_chars (decode_amp url))
               | None => Throw NO_REPLACE
               end
      | None => try_patterns ps' body
      end
  end.

(** The part of [extractDownloadUrl] after the body is found.  *)
Definition extract_from_body (body : list ascii) : result string :=
  let hrefMatch := str_match href_pattern body in
  match hrefMatch with
  | Some m =>
      if str_truthy (at_index m 1) then
        match at_index m 1 with
        | Some url => Ok (Str.of_chars (decode_amp url))
        | None => Throw NO_REPLACE
        end
      else
        match try_patterns patterns body with
        | Some r => r
        | None => Throw NO_URL
        end
  | None =>
      match try_patterns patterns body with
      | Some r => r
      | None => Throw NO_URL
      end
  end.

(** The first part of [extractDownloadUrl]: the [if]/[else if] chain that
    assigns [body]. *)
Definition locate_body (messageData : JS.value) : result JS.value :=
  rbind (JS.get messageData "messages") (fun messages =>
  if JS.truthy messages && JS.typeof_object messages && negb (JS.isArray messages) then
    rbind (JS.get messages "body") (fun b => Ok (JS.or b (JS.String EmptyString)))
  else
    match messages with
    | JS.Arr (m0 :: _) =>
        rbind (JS.get m0 "body") (fun b => Ok (JS.or b (JS.String EmptyString)))
    | _ =>
        rbind (JS.get messageData "message") (fun message =>
        if JS.truthy (JS.get_opt message "body") then
          JS.get message "body"
        else
          rbind (JS.get messageData "body") (fun b =>
          if JS.truthy b then Ok b else Ok (JS.String EmptyString)))
    end).

Definition extractDownloadUrl (messageData : JS.value) : result string :=
  rbind (locate_body messageData) (fun body =>
  if negb (JS.truthy body) then Throw NO_BODY
  else
    match body with
    | JS.String s => extract_from_body (Str.chars s)
    | _ => Throw NOT_A_STRING
    end).

(** ** Routing by file name *)

Record webhookConfig : Type := { webhookUrl : string; reportType : string }.

Definition marker : string := "grandtotalreport".

Definition not_configured (envVar : string) : exn :=
  Error (envVar ++ " environment variable is not configured").

Definition determineWebhookConfig (cfg : config) (fileName : string) : result webhookConfig :=
  let '(url, type) :=
    if Str.includes (Str.toLowerCase (Str.chars fileName)) (Str.chars marker)
    then (FUELREPORTWEBHOOK cfg, "FuelReport")
    else (EFSREPORTWEBHOOK cfg, "EFSReport") in
  match url with
  | Some u =>
      if env_falsy url then
        Throw (not_configured (if String.eqb type "FuelReport"
                               then "FUELREPORTWEBHOOK" else "EFSREPORTWEBHOOK"))
      else Ok {| webhookUrl := u; reportType := type |}
  | None =>
      Throw (not_configured (if String.eqb type "FuelReport"
                             then "FUELREPORTWEBHOOK" else "EFSREPORTWEBHOOK"))
  end.

(** ** The world outside the server *)

(** A file is named by its directory and its entry there:
    [path.join(dir, name)]. *)
Definition path : Type := (string * string)%type.

(** What Playwright hands over when a download completes: the name under
    which it is stored in the downloads directory, the file name the site
    suggests, and the bytes. *)
Record download : Type := {
  stored_as : string;
  suggestedFilename : string;
  content : string
}.

(** The multipart body of the relay request. *)
Record form : Type := {
  form_file : string;
  form_filename : string;
  form_contentType : string;
  form_type : string;
  form_conversationId : JS.value;
  form_messageId : JS.value
}.

(** Every call that leaves the process, in the order it is made.
    [HttpGet id] is the request for
    [https://public.missiveapp.com/v1/messages/${id}?includeBody=true&includeConversation=true]. *)
Inductive event : Type :=
| Respond (status : Z) (body : JS.value)
| HttpGet (messageId : JS.value)
| Launch
| Mkdir (dir : string)
| NewContext (downloadsPath : string)
| NewPage (context : nat)
| Goto (page : nat) (url : string) (attempt : nat)
| Sleep (ms : Z)
| Reload (page : nat)
| ReadFile (p : path)
| HttpPost (url : JS.value) (body : form)
| Unlink (p : path)
| Readdir (dir : string)
| Rmdir (dir : string)
| ClosePage (page : nat)
| CloseContext (context : nat).

(** How the outside answers during one run: each field is the outcome
    of one kind of call, [None] for an error meaning that the call
    succeeds. Attempts are numbered from 0. *)
Record outside : Type := {
  now : string;
  dir_name : string;
  missive_reply : JS.value -> result JS.value;
  launch_error : option exn;
  mkdir_error : option exn;
  newContext_error : option exn;
  newPage_error : option exn;
  download_result : nat -> result download;
  partial_files : nat -> list (string * string);
  reload_error : nat -> option exn;
  readFile_error : option exn;
  post_result : nat -> JS.value -> form -> result Z;
  unlink_error : path -> option exn;
  closePage_error : option exn;
  closeContext_error : option exn
}.

(** The state shared by all runs: the file system under the persistent
    directory (each directory with its entries and their bytes), the
    [globalBrowser] variable, the engines launched so far, the contexts
    and pages that are open, and the calls made. *)
Record world : Type := {
  fs : gmap string (list (string * string));
  globalBrowser : option nat;
  engines : nat;
  contexts : list nat;
  pages : list nat;
  fresh : nat;
  trace : list event
}.

Definition set_fs (f : gmap string (list (string * string))) (w : world) : world :=
  {| fs := f; globalBrowser := globalBrowser w; engines := engines w;
     contexts := contexts w; pages := pages w; fresh := fresh w; trace := trace w |}.

Definition set_browser (b : option nat) (n : nat) (w : world) : world :=
  {| fs := fs w; globalBrowser := b; engines := n;
     contexts := contexts w; pages := pages w; fresh := fresh w; trace := trace w |}.

Definition set_handles (cs ps : list nat) (next : nat) (w : world) : world :=
  {| fs := fs w; globalBrowser := globalBrowser w; engines := engines w;
     contexts := cs; pages := ps; fresh := next; trace := trace w |}.

Definition log_event (e : event) (w : world) : world :=
  {| fs := fs w; globalBrowser := globalBrowser w; engines := engines w;
     contexts := contexts w; pages := pages w; fresh := fresh w;
     trace := trace w ++ [e] |}.

(** The [let] variables of [processDownloadAsync] that its [finally]
    block reads, and [webhookUrl]. *)
Record locals : Type := {
  context : option nat;
  page : option nat;
  tempDir : option string;
  downloadPath : option path;
  webhookUrl_var : JS.value
}.

Definition no_locals : locals :=
  {| context := None; page := None; tempDir := None; downloadPath := None;
     webhookUrl_var := JS.Undefined |}.

(** ** Computations: state and exceptions *)

Definition M (S A : Type) : Type := S -> result A * S.

Definition ret {S A} (a : A) : M S A := fun s => (Ok a, s).
Definition throw {S A} (e : exn) : M S A := fun s => (Throw e, s).

Definition bind {S A B} (m : M S A) (k : A -> M S B) : M S B :=
  fun s => match m s with
           | (Ok a, s') => k a s'
           | (Throw e, s') => (Throw e, s')
           end.

(** [try { m } catch (e) { h e }] *)
Definition try_catch {S A} (m : M S A) (h : exn -> M S A) : M S A :=
  fun s => match m s with
           | (Ok a, s') => (Ok a, s')
           | (Throw e, s') => h e s'
           end.

(** [try { m } finally { f }]: [f] always runs; when it throws, its error
    replaces the outcome of [m]. *)
Definition try_finally {S A} (m : M S A) (f : M S unit) : M S A :=
  fun s => match m s with
           | (r, s') =>
               match f s' with
               | (Ok _, s'') => (r, s'')
               | (Throw e, s'') => (Throw e, s'')
               end
           end.

Definition lift {S A} (r : result A) : M S A := fun s => (r, s).

Declare Scope comp_scope.
Delimit Scope comp_scope with comp.
Notation "'do' x <- m ; k" := (bind m (fun x => k))
  (at level 10, x name, m at level 100, k at level 200) : comp_scope.
Notation "'run' m ; k" := (bind m (fun _ => k))
  (at level 10, m at level 100, k at level 200) : comp_scope.

(** [when c m]: [if (c) { m }] *)
Definition when {S} (c : bool) (m : M S unit) : M S unit :=
  if c then m else ret tt.

(** [for (const x of xs) { f x }] *)
Fixpoint for_each {S A} (xs : list A) (f : A -> M S unit) : M S unit :=
  match xs with
  | [] => ret tt
  | x :: xs' => bind (f x) (fun _ => for_each xs' f)
  end.

(** ** The calls the server makes *)

(** Calls to the outside act on the world alone; a run of
    [processDownloadAsync] works on its own variables as well. *)
Definition IO (A : Type) : Type := M world A.
Definition Comp (A : Type) : Type := M (locals * world) A.

Local Open Scope comp_scope.

Definition on_world {A} (m : IO A) : Comp A :=
  fun s => match m (snd s) with
           | (r, w') => (r, (fst s, w'))
           end.

Definition get_world : IO world := fun w => (Ok w, w).
Definition modify_world (f : world -> world) : IO unit := fun w => (Ok tt, f w).
Definition emit (e : event) : IO unit := modify_world (log_event e).

Definition get_locals : Comp locals := fun s => (Ok (fst s), s).
Definition modify_locals (f : locals -> locals) : Comp unit :=
  fun s => (Ok tt, (f (fst s), snd s)).

Definition fail_if {S} (o : option exn) : M S unit :=
  match o with
  | Some e => throw e
  | None => ret tt
  end.

Definition ignore_errors {S} (m : M S unit) : M S unit :=
  try_catch m (fun _ => ret tt).

Definition ENOENT : exn := External "ENOENT: no such file or directory".
Definition ENOTEMPTY : exn := External "ENOTEMPTY: directory not empty".

Definition has_entry (name : string) (entries : list (string * string)) : bool :=
  existsb (fun e => String.eqb (fst e) name) entries.

Definition remove_entry (name : string) (entries : list (string * string))
  : list (string * string) :=
  List.filter (fun e => negb (String.eqb (fst e) name)) entries.

Definition add_entry (name bytes : string) (entries : list (string * string))
  : list (string * string) :=
  (name, bytes) :: remove_entry name entries.

Definition add_entries (new : list (string * string)) (entries : list (string * string))
  : list (string * string) :=
  fold_right (fun e acc => add_entry (fst e) (snd e) acc) entries new.

Definition remove_id (id : nat) (l : list nat) : list nat :=
  List.filter (fun x => negb (Nat.eqb x id)) l.

Definition has_id (id : nat) (l : list nat) : bool := existsb (Nat.eqb id) l.

(** [path.join(dir, name)] *)
Definition path_join (dir name : string) : string := dir ++ "/" ++ name.

Definition set_context (c : nat) (l : locals) : locals :=
  {| context := Some c; page := page l; tempDir := tempDir l;
     downloadPath := downloadPath l; webhookUrl_var := webhookUrl_var l |}.

Definition set_page (p : nat) (l : locals) : locals :=
  {| context := context l; page := Some p; tempDir := tempDir l;
     downloadPath := downloadPath l; webhookUrl_var := webhookUrl_var l |}.

Definition set_tempDir (d : string) (l : locals) : locals :=
  {| context := context l; page := page l; tempDir := Some d;
     downloadPath := downloadPath l; webhookUrl_var := webhookUrl_var l |}.

Definition set_downloadPath (p : path) (l : locals) : locals :=
  {| context := context l; page := page l; tempDir := tempDir l;
     downloadPath := Some p; webhookUrl_var := webhookUrl_var l |}.

Definition set_webhookUrl (u : JS.value) (l : locals) : locals :=
  {| context := context l; page := page l; tempDir := tempDir l;
     downloadPath := downloadPath l; webhookUrl_var := u |}.

(** What is left of a retry budget. *)
Definition budget (limit : number) (retries : nat) : nat :=
  match limit with
  | Fin m => Z.to_nat (m - Z.of_nat retries)
  | NaN => 0
  end.

Definition num_succ (a : number) : number :=
  match a with
  | Fin z => Fin (z + 1)
  | NaN => NaN
  end.

Definition inspect {A} (a : A) : {b : A | a = b} := exist _ a eq_refl.

Record downloaded : Type := { result_downloadPath : path; result_fileName : string }.

(** What one pass of the relay loop reads: the buffer, the file name, the
    report type and the two identifiers. *)
Record relay_input : Type := {
  fileBuffer : string;
  fileName : string;
  reportType_var : string;
  conversationId_var : JS.value;
  messageId_var : JS.value
}.

Definition formData (r : relay_input) : form :=
  {| form_file := fileBuffer r;
     form_filename := fileName r;
     form_contentType := "application/pdf";
     form_type := reportType_var r;
     form_conversationId := JS.or (conversationId_var r) (JS.String EmptyString);
     form_messageId := messageId_var r |}.

Definition NO_KEYS : exn := TypeError "Cannot convert undefined or null to object".
Definition NO_BROWSER : exn :=
  TypeError "Cannot read properties of null (reading 'newContext')".
Definition NO_STATUS : exn :=
  TypeError "Cannot read properties of undefined (reading 'status')".

Section Server.

Context (cfg : config) (out : outside).

(** [fs.mkdir(dir, { recursive: true })] *)
Definition fs_mkdir (dir : string) : IO unit :=
  run emit (Mkdir dir);
  run fail_if (mkdir_error out);
  modify_world (fun w =>
    match fs w !! dir with
    | Some _ => w
    | None => set_fs (<[dir := []]> (fs w)) w
    end).

(** [fs.unlink(path)] *)
Definition fs_unlink (p : path) : IO unit :=
  run emit (Unlink p);
  do w <- get_world;
  match fs w !! fst p with
  | Some entries =>
      if has_entry (snd p) entries then
        run fail_if (unlink_error out p);
        modify_world (set_fs (<[fst p := remove_entry (snd p) entries]> (fs w)))
      else throw ENOENT
  | None => throw ENOENT
  end.

(** [fs.readdir(dir)] *)
Definition fs_readdir (dir : string) : IO (list string) :=
  run emit (Readdir dir);
  do w <- get_world;
  match fs w !! dir with
  | Some entries => ret (map fst entries)
  | None => throw ENOENT
  end.

(** [fs.rmdir(dir)] *)
Definition fs_rmdir (dir : string) : IO unit :=
  run emit (Rmdir dir);
  do w <- get_world;
  match fs w !! dir with
  | Some [] => modify_world (set_fs (delete dir (fs w)))
  | Some (_ :: _) => throw ENOTEMPTY
  | None => throw ENOENT
  end.

(** [fs.readFile(path)] *)
Definition fs_readFile (p : path) : IO string :=
  run emit (ReadFile p);
  run fail_if (readFile_error out);
  do w <- get_world;
  match fs w !! fst p with
  | Some entries =>
      match List.find (fun e => String.eqb (fst e) (snd p)) entries with
      | Some e => ret (snd e)
      | None => throw ENOENT
      end
  | None => throw ENOENT
  end.

(** [chromium.launch(...)]: a new engine, numbered by its rank. *)
Definition chromium_launch : IO nat :=
  run emit Launch;
  run fail_if (launch_error out);
  do w <- get_world;
  run modify_world (set_browser (globalBrowser w) (S (engines w)));
  ret (engines w).

(** [browser.newContext({ acceptDownloads: true, downloadsPath })] *)
Definition browser_newContext (downloadsPath : string) : IO nat :=
  run emit (NewContext downloadsPath);
  run fail_if (newContext_error out);
  do w <- get_world;
  run modify_world (set_handles (contexts w ++ [fresh w]) (pages w) (S (fresh w)));
  ret (fresh w).

(** [context.newPage()] *)
Definition context_newPage (ctx : nat) : IO nat :=
  run emit (NewPage ctx);
  run fail_if (newPage_error out);
  do w <- get_world;
  run modify_world (set_handles (contexts w) (pages w ++ [fresh w]) (S (fresh w)));
  ret (fresh w).

(** [page.close()]: nothing to do on a page that is closed already. *)
Definition page_close (id : nat) : IO unit :=
  run emit (ClosePage id);
  do w <- get_world;
  if has_id id (pages w) then
    run fail_if (closePage_error out);
    modify_world (set_handles (contexts w) (remove_id id (pages w)) (fresh w))
  else ret tt.

(** [context.close()]: nothing to do on a context that is closed already. *)
Definition context_close (id : nat) : IO unit :=
  run emit (CloseContext id);
  do w <- get_world;
  if has_id id (contexts w) then
    run fail_if (closeContext_error out);
    modify_world (set_handles (remove_id id (contexts w)) (pages w) (fresh w))
  else ret tt.

(** [await new Promise(resolve => setTimeout(resolve, ms))] *)
Definition sleep (ms : Z) : IO unit := emit (Sleep ms).

(** [page.reload({ timeout: 5000 })] *)
Definition page_reload (pg attempt : nat) : IO unit :=
  run emit (Reload pg);
  fail_if (reload_error out attempt).

(** *** [initBrowser] *)

(** The two halves of [initBrowser], before and after its [await]: the
    test of [globalBrowser] with the start of the launch, and the
    assignment with the [return]. *)
Definition initBrowser_enter : IO (option nat) :=
  do w <- get_world;
  match globalBrowser w with
  | None => do b <- chromium_launch; ret (Some b)
  | Some _ => ret None
  end.

Definition initBrowser_leave (launched : option nat) : IO (option nat) :=
  run match launched with
      | Some b => modify_world (fun w => set_browser (Some b) (engines w) w)
      | None => ret tt
      end;
  do w <- get_world;
  ret (globalBrowser w).

(** A call that nothing interleaves with. *)
Definition initBrowser : IO (option nat) :=
  do launched <- initBrowser_enter;
  initBrowser_leave launched.

(** *** [fetchMissiveMessage] *)

(** The logging of the reply's shape inside the [try] block, for what it
    can throw. *)
Definition log_reply_shape (data : JS.value) : result unit :=
  let messages := JS.get_opt data "messages" in
  if JS.truthy messages then
    if JS.typeof_object messages && negb (JS.isArray messages) then
      let body := JS.get_opt messages "body" in
      if JS.truthy body then
        match body with
        | JS.String _ => Ok tt
        | _ => Throw (TypeError "response.data.messages.body.substring is not a function")
        end
      else Ok tt
    else Ok tt
  else
    match data with
    | JS.Undefined | JS.Null => Throw NO_KEYS
    | _ => Ok tt
    end.

Definition fetch_failed (e : exn) : exn :=
  Error ("Failed to fetch message from Missive: " ++ exn_message e).

Definition fetchMissiveMessage (messageId : JS.value) : IO JS.value :=
  if env_falsy (MISSIVE_API_KEY cfg) then
    throw (Error "MISSIVE_API_KEY is not configured")
  else
    run emit (HttpGet messageId);
    match missive_reply out messageId with
    | Ok data =>
        match log_reply_shape data with
        | Ok _ => ret data
        | Throw e => throw (fetch_failed e)
        end
    | Throw e => throw (fetch_failed e)
    end.

(** *** [downloadWithRetry] *)

Definition store (dir : string) (files : list (string * string)) (w : world) : world :=
  match fs w !! dir with
  | Some entries => set_fs (<[dir := add_entries files entries]> (fs w)) w
  | None => w
  end.

(** The [try] block: arm the download listener, start the navigation
    (its failure is ignored), wait for the download, which lands in the
    downloads directory; a failed attempt may leave files there. *)
Definition download_attempt (pg : nat) (url dir : string) (retries : nat) : IO downloaded :=
  run emit (Goto pg url retries);
  match download_result out retries with
  | Ok d =>
      run modify_world (store dir [(stored_as d, content d)]);
      ret {| result_downloadPath := (dir, stored_as d);
             result_fileName := suggestedFilename d |}
  | Throw e =>
      run modify_world (store dir (partial_files out retries));
      throw e
  end.

(** Between two attempts: the delay, then the reload whose failure is
    caught and ignored. *)
Definition before_retry (pg retries : nat) : IO unit :=
  run sleep RETRY_DELAY;
  ignore_errors (page_reload pg retries).

Equations? downloadWithRetry (pg : nat) (url dir : string) (retries : nat)
  (w : world) : result downloaded * world
  by wf (budget (MAX_RETRIES cfg) retries) lt :=
  downloadWithRetry pg url dir retries w
    with download_attempt pg url dir retries w => {
    | (Ok d, w') := (Ok d, w');
    | (Throw error, w')
        with inspect (num_lt (Fin (Z.of_nat retries)) (MAX_RETRIES cfg)) => {
        | exist _ true _ with before_retry pg retries w' => {
            | (Ok _, w'') := downloadWithRetry pg url dir (S retries) w'';
            | (Throw e, w'') := (Throw e, w'') };
        | exist _ false _ := (Throw error, w') } }.
Proof.
  unfold budget.
  match goal with H : _ = true |- _ => revert H end.
  destruct (MAX_RETRIES cfg) as [m|]; simpl; [|discriminate].
  intros Hlt%Z.ltb_lt. lia.
Qed.

(** *** The relay loop of [processDownloadAsync] *)

(** The [try] block of the loop: build the form, post it to the current
    value of [webhookUrl]. *)
Definition axios_post (r : relay_input) (attempt : nat) : Comp Z :=
  do l <- get_locals;
  run on_world (emit (HttpPost (webhookUrl_var l) (formData r)));
  lift (post_result out attempt (webhookUrl_var l) (formData r)).

Definition relay_failed (e : exn) : exn :=
  Error ("Failed to send to webhook after " ++ num_to_string (MAX_RETRIES cfg)
         ++ " attempts: " ++ exn_message e).

(** [while (webhookRetries <= MAX_RETRIES) { ... }], returning
    [webhookResponse] as the loop leaves it: the status when a post went
    through, [None] ([undefined]) when the body never ran. *)
Equations? webhook_loop (r : relay_input) (webhookRetries : nat)
  (st : locals * world) : result (option Z) * (locals * world)
  by wf (budget (num_succ (MAX_RETRIES cfg)) webhookRetries) lt :=
  webhook_loop r webhookRetries st
    with inspect (num_le (Fin (Z.of_nat webhookRetries)) (MAX_RETRIES cfg)) => {
    | exist _ false _ := (Ok None, st);
    | exist _ true _ with axios_post r webhookRetries st => {
        | (Ok status, st') := (Ok (Some status), st');
        | (Throw webhookError, st')
            with inspect (num_lt (MAX_RETRIES cfg) (Fin (Z.of_nat (S webhookRetries)))) => {
            | exist _ true _ := (Throw (relay_failed webhookError), st');
            | exist _ false _ with on_world (sleep RETRY_DELAY) st' => {
                | (Ok _, st'') := webhook_loop r (S webhookRetries) st'';
                | (Throw e, st'') := (Throw e, st'') } } } }.
Proof.
  unfold budget.
  match goal with H : _ = true |- _ => revert H end.
  destruct (MAX_RETRIES cfg) as [m|]; simpl; [|discriminate].
  intros Hle%Z.leb_le. lia.
Qed.

(** *** The [finally] block of [processDownloadAsync] *)

(** The block, for given values of the variables it reads. *)
Definition release_with (l : locals) : IO unit :=
  run match downloadPath l with
      | Some p => ignore_errors (fs_unlink p)
      | None => ret tt
      end;
  run match tempDir l with
      | Some dir =>
          ignore_errors
            (do files <- fs_readdir dir;
             run when (0 <? length files)%nat
                   (for_each files (fun file => ignore_errors (fs_unlink (dir, file))));
             fs_rmdir dir)
      | None => ret tt
      end;
  run match page l with
      | Some pg => page_close pg
      | None => ret tt
      end;
  match context l with
  | Some c => context_close c
  | None => ret tt
  end.

Definition release : Comp unit :=
  do l <- get_locals;
  on_world (release_with l).

(** *** [processDownloadAsync] *)

(** The [try] block, from the start to the downloaded file. *)
Definition resolve_and_download (requestData messageId conversationId : JS.value)
  : Comp (downloaded * JS.value) :=
  run lift match requestData with
           | JS.Undefined | JS.Null => Throw NO_KEYS
           | _ => Ok tt
           end;
  run when (JS.truthy (JS.get_opt requestData "webhookUrl"))
        (modify_locals (set_webhookUrl (JS.get_opt requestData "webhookUrl")));
  do messageData <- on_world (fetchMissiveMessage messageId);
  let fromApi :=
    JS.get_opt (JS.get_opt (JS.get_opt messageData "messages") "conversation") "id" in
  let conversationId := if JS.truthy fromApi then fromApi else conversationId in
  do downloadUrl <- lift (extractDownloadUrl messageData);
  do browser <- on_world initBrowser;
  let dir := path_join (PERSISTENT_DIR cfg) (dir_name out) in
  run modify_locals (set_tempDir dir);
  run on_world (fs_mkdir dir);
  do ctx <- match browser with
            | Some _ => on_world (browser_newContext dir)
            | None => throw NO_BROWSER
            end;
  run modify_locals (set_context ctx);
  do pg <- on_world (context_newPage ctx);
  run modify_locals (set_page pg);
  do result <- on_world (downloadWithRetry pg downloadUrl dir 0);
  run modify_locals (set_downloadPath (result_downloadPath result));
  ret (result, conversationId).

(** The [try] block, from the routing of the file to the end. *)
Definition route_and_relay (result : downloaded) (messageId conversationId : JS.value)
  : Comp unit :=
  do webhookConfig <- lift (determineWebhookConfig cfg (result_fileName result));
  run modify_locals (set_webhookUrl (JS.String (webhookUrl webhookConfig)));
  do buffer <- on_world (fs_readFile (result_downloadPath result));
  do webhookResponse <-
    webhook_loop {| fileBuffer := buffer;
                    fileName := result_fileName result;
                    reportType_var := reportType webhookConfig;
                    conversationId_var := conversationId;
                    messageId_var := messageId |} 0;
  match webhookResponse with
  | Some _ => ret tt
  | None => throw NO_STATUS
  end.

Definition pipeline (requestData messageId conversationId : JS.value) : Comp unit :=
  do got <- resolve_and_download requestData messageId conversationId;
  route_and_relay (fst got) messageId (snd got).

(** The whole function, on variables of its own: the error of the [try]
    block is caught and logged, then the [finally] block runs. *)
Definition processDownloadAsync (requestData messageId conversationId : JS.value)
  : IO unit :=
  fun w =>
    match try_finally (ignore_errors (pipeline requestData messageId conversationId))
                      release (no_locals, w) with
    | (r, s) => (r, snd s)
    end.

(** *** [app.post('/processreport')] *)

Definition json_error (error details : string) : JS.value :=
  JS.Obj [("error", JS.String error); ("details", JS.String details)].

Definition acknowledgement (messageId conversationId : JS.value) : JS.value :=
  JS.Obj [("success", JS.Bool true);
          ("message", JS.String "Webhook received, processing download");
          ("messageId", messageId);
          ("conversationId", JS.or conversationId JS.Null);
          ("timestamp", JS.String (now out))].

(** [req.body] as the handler takes it. *)
Definition requestData_of (body : JS.value) : JS.value :=
  match body with
  | JS.Arr items => JS.first items
  | _ => body
  end.

Definition messageId_of (requestData : JS.value) : JS.value :=
  let direct := JS.get_opt (JS.get_opt requestData "latest_message") "id" in
  let nested :=
    JS.get_opt (JS.get_opt (JS.get_opt requestData "body") "latest_message") "id" in
  if JS.truthy direct then direct
  else if JS.truthy nested then nested
  else JS.Undefined.

Definition conversationId_of (requestData : JS.value) : JS.value :=
  let direct := JS.get_opt (JS.get_opt requestData "conversation") "id" in
  let nested :=
    JS.get_opt (JS.get_opt (JS.get_opt requestData "body") "conversation") "id" in
  if JS.truthy direct then direct
  else if JS.truthy nested then nested
  else JS.Undefined.

(** The handler: the world after the request is handled, the rejected
    promise of [processDownloadAsync] being caught and logged. *)
Definition processreport (body : JS.value) (w : world) : world :=
  let requestData := requestData_of body in
  if negb (JS.truthy requestData) then
    log_event (Respond 400 (json_error "Invalid request format"
                                       "Request body is empty or invalid")) w
  else
    let messageId := messageId_of requestData in
    let conversationId := conversationId_of requestData in
    if negb (JS.truthy messageId) then
      log_event (Respond 400 (json_error "Missing message ID"
                                         "Could not find message ID in request")) w
    else
      let w1 := log_event (Respond 200 (acknowledgement messageId conversationId)) w in
      snd (processDownloadAsync requestData messageId conversationId w1).

End Server.

(** ** Concurrent callers of [initBrowser] *)

Module Interleaving.

(** A caller of [initBrowser]: about to call, suspended at the [await] of
    the launch it started, or done. *)
Inductive caller : Type :=
| Calling
| Awaiting (launched : nat)
| Returned (browser : option nat)
| Rejected (e : exn).

(** One turn of the event loop for a caller: the code up to its next
    [await], or to its end. *)
Definition step (out : outside) (c : caller) (w : world) : caller * world :=
  match c with
  | Calling =>
      match initBrowser_enter out w with
      | (Ok (Some b), w') => (Awaiting b, w')
      | (Ok None, w') =>
          match initBrowser_leave None w' with
          | (Ok r, w'') => (Returned r, w'')
          | (Throw e, w'') => (Rejected e, w'')
          end
      | (Throw e, w') => (Rejected e, w')
      end
  | Awaiting b =>
      match initBrowser_leave (Some b) w with
      | (Ok r, w') => (Returned r, w')
      | (Throw e, w') => (Rejected e, w')
      end
  | Returned _ | Rejected _ => (c, w)
  end.

(** A schedule names, turn after turn, the caller that runs. *)
Fixpoint run_schedule (out : outside) (schedule : list nat) (callers : list caller)
         (w : world) : list caller * world :=
  match schedule with
  | [] => (callers, w)
  | i :: rest =>
      match callers !! i with
      | Some c =>
          match step out c w with
          | (c', w') => run_schedule out rest (<[i := c']> callers) w'
          end
      | None => run_schedule out rest callers w
      end
  end.

End Interleaving.

(** ** Notions of the specification *)

(** *** Link extraction *)

(** What a pattern yields on a body: nothing without a match, else the
    text the function takes from the match. *)
Definition found_by (p : pattern) (body : list ascii) : option (list ascii) :=
  match str_match p body with
  | Some m => first_or_whole m
  | None => None
  end.

(** The patterns in their order of priority. *)
Definition priority : list pattern :=
  [href_pattern; download_at_pattern; getJobFile_pattern; pdf_pattern].

(** The first pattern yielding any match wins. *)
Fixpoint first_match (ps : list pattern) (body : list ascii) : option (list ascii) :=
  match ps with
  | [] => None
  | p :: ps' =>
      match found_by p body with
      | Some u => Some u
      | None => first_match ps' body
      end
  end.

Definition extract_spec (body : list ascii) : result string :=
  match first_match priority body with
  | Some u => Ok (Str.of_chars (decode_amp u))
  | None => Throw NO_URL
  end.

Definition href_open : list ascii := Str.chars "href=" ++ [Str.dquote].


(** *** Routing *)

(** Two characters that differ at most by the case of an ASCII or Latin-1
    letter. *)
Definition same_letter (c d : ascii) : Prop :=
  c = d \/ (Str.is_upper c = true /\ Str.code d = Str.code c + 32)
  \/ (Str.is_upper d = true /\ Str.code c = Str.code d + 32).

(** The name holds the word somewhere, whatever the case of its
    letters. *)
Definition contains_ci (name word : list ascii) : Prop :=
  exists pre mid post,
    name = pre ++ mid ++ post /\ Forall2 same_letter mid word.

(** *** The message body *)




(** *** Traces *)

Definition is_goto (e : event) : bool :=
  match e with Goto _ _ _ => true | _ => false end.

Definition is_post (e : event) : bool :=
  match e with HttpPost _ _ => true | _ => false end.

Definition is_respond (e : event) : bool :=
  match e with Respond _ _ => true | _ => false end.

Definition is_sleep (e : event) : bool :=
  match e with Sleep _ => true | _ => false end.

(** The download attempts and the relay posts of a trace. *)
Definition download_attempts (t : list event) : nat := length (List.filter is_goto t).
Definition relay_attempts (t : list event) : nat := length (List.filter is_post t).

(** The events a computation added to the trace. *)
Definition added (before after : world) : list event :=
  skipn (length (trace before)) (trace after).

(** *** Release *)


(** Handles are numbered below [fresh]. *)
Definition handles_ok (w : world) : Prop :=
  Forall (fun id => id < fresh w) (contexts w)
  /\ Forall (fun id => id < fresh w) (pages w).

(** ** Examples *)

Definition quote : string := String Str.dquote EmptyString.

Definition example_body : string :=
  "<a href=" ++ quote ++ "https://x/y?a=1&amp;b=2" ++ quote
  ++ ">Download</a> see also https://x/report.pdf".

Definition example_reply : JS.value :=
  JS.Obj [("messages", JS.Obj [("body", JS.String example_body)])].

Definition reply_without_body : JS.value :=
  JS.Obj [("messages", JS.Obj [("id", JS.String "m1")])].

Definition example_config : config :=
  {| MAX_RETRIES := Fin 3;
     MISSIVE_API_KEY := Some "key";
     FUELREPORTWEBHOOK := Some "https://hooks.example/fuel";
     EFSREPORTWEBHOOK := Some "https://hooks.example/efs";
     PERSISTENT_DIR := "/data" |}.

(** The fuel endpoint is set, to the empty string. *)
Definition empty_endpoint_config : config :=
  {| MAX_RETRIES := Fin 3;
     MISSIVE_API_KEY := Some "key";
     FUELREPORTWEBHOOK := Some EmptyString;
     EFSREPORTWEBHOOK := Some "https://hooks.example/efs";
     PERSISTENT_DIR := "/data" |}.

(** The part of the [href] pattern after the attribute name and its
    opening quote. *)
Definition after_href : regex :=
  [GroupOpen; Many (not_char Str.dquote) 1; GroupClose; Lit Str.dquote].

Definition retries_allowed (limit : number) : nat :=
  match limit with
  | Fin m => Z.to_nat m
  | NaN => 0
  end.

Definition always_failing_site : outside :=
  {| now := "2024-01-01T00:00:00.000Z";
     dir_name := "download-1-abc";
     missive_reply := fun _ => Ok example_reply;
     launch_error := None;
     mkdir_error := None;
     newContext_error := None;
     newPage_error := None;
     download_result := fun n =>
       Throw (External ("Timeout 30000ms exceeded on attempt "
                        ++ NilZero.string_of_uint (Nat.to_uint n)));
     partial_files := fun _ => [];
     reload_error := fun _ => None;
     readFile_error := None;
     post_result := fun _ _ _ => Ok 200%Z;
     unlink_error := fun _ => None;
     closePage_error := None;
     closeContext_error := None |}.

Definition negative_retries_config : config :=
  {| MAX_RETRIES := Fin (-1);
     MISSIVE_API_KEY := Some "key";
     FUELREPORTWEBHOOK := Some "https://hooks.example/fuel";
     EFSREPORTWEBHOOK := Some "https://hooks.example/efs";
     PERSISTENT_DIR := "/data" |}.

Definition empty_world : world :=
  {| fs := ∅; globalBrowser := None; engines := 0; contexts := []; pages := [];
     fresh := 0; trace := [] |}.

(** An event of the pipeline other than a response or a relay post. *)
Definition quiet (e : event) : Prop := is_respond e = false /\ is_post e = false.

(** The trace of [w'] is that of [w] followed by events that satisfy
    [P]. *)
Definition grows (P : event -> Prop) (w w' : world) : Prop :=
  exists evs, trace w' = trace w ++ evs /\ Forall P evs.

(** The files, the open handles and the next handle are the same. *)
Definition keeps (w w' : world) : Prop :=
  fs w' = fs w /\ contexts w' = contexts w /\ pages w' = pages w /\ fresh w' = fresh w.

(** The open handles and the next handle are the same. *)
Definition keeps_handles (w w' : world) : Prop :=
  contexts w' = contexts w /\ pages w' = pages w /\ fresh w' = fresh w.

(** The files are the same. *)
Definition keeps_files (w w' : world) : Prop := fs w' = fs w.

(** The ways in which a computation leaves the world as it is: it only
    adds events that satisfy [P], it keeps files and handles, it keeps
    the handles, it keeps the files. *)
Inductive frame : Type :=
| Adding (P : event -> Prop)
| Keeping
| KeepingHandles
| KeepingFiles.

Definition related (F : frame) : world -> world -> Prop :=
  match F with
  | Adding P => grows P
  | Keeping => keeps
  | KeepingHandles => keeps_handles
  | KeepingFiles => keeps_files
  end.

Definition steady {S A} (at_world : S -> world) (F : frame) (m : M S A) : Prop :=
  forall s, related F (at_world s) (at_world (snd (m s))).

(** A computation only adds events that satisfy [P]. *)
Abbreviation adds at_world P := (steady at_world (Adding P)).

Definition io_world (w : world) : world := w.
Definition run_world (s : locals * world) : world := snd s.

(** The events of a run: no response, and each relay post carries the
    file name of a download that completed and goes to the endpoint that
    the routing gives for that name, with the label of that route. *)
Definition routed (cfg : config) (out : outside) (e : event) : Prop :=
  match e with
  | Respond _ _ => False
  | HttpPost url f =>
      (exists c, determineWebhookConfig cfg (form_filename f) = Ok c
                 /\ url = JS.String (webhookUrl c)
                 /\ form_type f = reportType c)
      /\ (exists n d, download_result out n = Ok d
                      /\ form_filename f = suggestedFilename d)
  | _ => True
  end.

(** The events of the relay loop for a given destination. *)
Definition relay_event (url : JS.value) (r : relay_input) (e : event) : Prop :=
  e = Sleep RETRY_DELAY \/ e = HttpPost url (formData r).

(** The webhook answers every post with an error. *)
Definition refusing_webhook : outside :=
  {| now := "2024-01-01T00:00:00.000Z";
     dir_name := "download-1-abc";
     missive_reply := fun _ => Ok example_reply;
     launch_error := None;
     mkdir_error := None;
     newContext_error := None;
     newPage_error := None;
     download_result := fun _ =>
       Ok {| stored_as := "3f2a"; suggestedFilename := "GrandTotalReport_2024.pdf";
             content := "%PDF-1.7" |};
     partial_files := fun _ => [];
     reload_error := fun _ => None;
     readFile_error := None;
     post_result := fun _ _ _ => Throw (External "Request failed with status code 503");
     unlink_error := fun _ => None;
     closePage_error := None;
     closeContext_error := None |}.

Definition example_request : JS.value :=
  JS.Obj [("latest_message", JS.Obj [("id", JS.String "m1")]);
          ("webhookUrl", JS.String "https://caller.example/hook")].

(** The acknowledgement, as a function of what it is built from. *)
Definition acknowledgement_json (messageId conversationId : JS.value) (timestamp : string)
  : JS.value :=
  JS.Obj [("success", JS.Bool true);
          ("message", JS.String "Webhook received, processing download");
          ("messageId", messageId);
          ("conversationId", JS.or conversationId JS.Null);
          ("timestamp", JS.String timestamp)].

(** What a computation returns, when it returns, satisfies [Q]. *)
Definition returns {S A} (Q : A -> Prop) (m : M S A) : Prop :=
  forall s a, fst (m s) = Ok a -> Q a.




(** The site hands the report over at once and the webhook accepts it. *)
Definition friendly_outside : outside :=
  {| now := "2024-01-01T00:00:00.000Z";
     dir_name := "download-1-abc";
     missive_reply := fun _ => Ok example_reply;
     launch_error := None;
     mkdir_error := None;
     newContext_error := None;
     newPage_error := None;
     download_result := fun _ =>
       Ok {| stored_as := "3f2a"; suggestedFilename := "GrandTotalReport_2024.pdf";
             content := "%PDF-1.7" |};
     partial_files := fun _ => [];
     reload_error := fun _ => None;
     readFile_error := None;
     post_result := fun _ _ _ => Ok 200%Z;
     unlink_error := fun _ => None;
     closePage_error := None;
     closeContext_error := None |}.

Definition example_request_plain : JS.value :=
  JS.Obj [("latest_message", JS.Obj [("id", JS.String "m1")])].


(** How far the working area of a run has come: not named, named in
    [tempDir] but not made, or made with some entries. *)
Inductive area : Type :=
| NoArea
| Named
| Made (entries : list (string * string)).

Definition area_fs (dir : string) (m : gmap string (list (string * string))) (a : area)
  : gmap string (list (string * string)) :=
  match a with
  | Made entries => <[dir := entries]> m
  | _ => m
  end.

Definition area_var (dir : string) (a : area) : option string :=
  match a with
  | NoArea => None
  | _ => Some dir
  end.

(** The first half of the [finally] block: the files. *)
Definition release_files (out : outside) (l : locals) : IO unit :=
  bind match downloadPath l with
       | Some p => ignore_errors (fs_unlink out p)
       | None => ret tt
       end
       (fun _ =>
          match tempDir l with
          | Some d =>
              ignore_errors
                (bind (fs_readdir d) (fun files =>
                 bind (when (0 <? length files)%nat
                         (for_each files (fun file => ignore_errors (fs_unlink out (d, file)))))
                      (fun _ => fs_rmdir d)))
          | None => ret tt
          end).

(** The second half: the handles. *)
Definition release_handles (out : outside) (l : locals) : IO unit :=
  bind match page l with
       | Some pg => page_close out pg
       | None => ret tt
       end
       (fun _ =>
          match context l with
          | Some c => context_close out c
          | None => ret tt
          end).

(** [hoare P m Q E]: from a state that satisfies [P], [m] returns a value
    and a state that satisfy [Q], or throws in a state that satisfies
    [E]. *)
Definition hoare {S A} (P : S -> Prop) (m : M S A) (Q : A -> S -> Prop) (E : S -> Prop)
  : Prop :=
  forall s, P s ->
            match m s with
            | (Ok a, s') => Q a s'
            | (Throw _, s') => E s'
            end.

(** What a run holds at some point, with respect to the world [w0] it
    started from: how far its working area [dir] has come, the context
    and the page it has opened, what its variables [context] and [page]
    hold, and the entry that [downloadPath] names. *)
Definition stage (w0 : world) (dir : string) (a : area) (cw pw cl pl : option nat)
           (file : option string) (s : locals * world) : Prop :=
  tempDir (fst s) = area_var dir a
  /\ fs (snd s) = area_fs dir (fs w0) a
  /\ contexts (snd s) = contexts w0 ++ option_list cw
  /\ pages (snd s) = pages w0 ++ option_list pw
  /\ fresh w0 <= fresh (snd s)
  /\ (forall c, cw = Some c -> fresh w0 <= c)
  /\ (forall p, pw = Some p -> fresh w0 <= p)
  /\ context (fst s) = cl
  /\ page (fst s) = pl
  /\ downloadPath (fst s) = option_map (fun name => (dir, name)) file.



(** *** Relations between the world before and after *)

Definition preorder (R : world -> world -> Prop) : Prop :=
  (forall w, R w w) /\ (forall w1 w2 w3, R w1 w2 -> R w2 w3 -> R w1 w3).

(** [m] takes a world [w] to a world [w'] with [R w w'], whether it
    returns or throws. *)
Definition stays {S A} (at_world : S -> world) (R : world -> world -> Prop) (m : M S A)
  : Prop :=
  forall s, R (at_world s) (at_world (snd (m s))).

Definition is_launch (e : event) : bool :=
  match e with Launch => true | _ => false end.

(** [w'] lives on the browser of [w]: an engine that [globalBrowser] holds
    is still held and none was launched; without one, either nothing
    changed or one engine was launched and [globalBrowser] holds it. *)
Definition shares_browser (w w' : world) : Prop :=
  match globalBrowser w with
  | Some b =>
      globalBrowser w' = Some b /\ engines w' = engines w
      /\ grows (fun e => is_launch e = false) w w'
  | None =>
      (globalBrowser w' = None /\ engines w' = engines w)
      \/ (globalBrowser w' = Some (engines w) /\ engines w' = S (engines w))
  end.


(** Requests handled one after the other, the run of each ending before
    the next request arrives; each comes with the outside of its run. *)
Fixpoint serve (cfg : config) (requests : list (outside * JS.value)) (w : world) : world :=
  match requests with
  | [] => w
  | (out, body) :: rest => serve cfg rest (processreport cfg out body w)
  end.



(** No key for the Missive API. *)
Definition keyless_config : config :=
  {| MAX_RETRIES := Fin 3;
     MISSIVE_API_KEY := None;
     FUELREPORTWEBHOOK := Some "https://hooks.example/fuel";
     EFSREPORTWEBHOOK := Some "https://hooks.example/efs";
     PERSISTENT_DIR := "/data" |}.

(** The message has no body. *)
Definition bodiless_message : outside :=
  {| now := "2024-01-01T00:00:00.000Z";
     dir_name := "download-1-abc";
     missive_reply := fun _ => Ok reply_without_body;
     launch_error := None;
     mkdir_error := None;
     newContext_error := None;
     newPage_error := None;
     download_result := fun _ =>
       Ok {| stored_as := "3f2a"; suggestedFilename := "GrandTotalReport_2024.pdf";
             content := "%PDF-1.7" |};
     partial_files := fun _ => [];
     reload_error := fun _ => None;
     readFile_error := None;
     post_result := fun _ _ _ => Ok 200%Z;
     unlink_error := fun _ => None;
     closePage_error := None;
     closeContext_error := None |}.

(** The responses of a trace. *)
Definition responses (t : list event) : list event := List.filter is_respond t.

(** What [downloadWithRetry] logs when the first [k] attempts fail and
    the next one goes through: after each failure the pause and the
    reload. *)
Definition attempts_until (pg : nat) (url : string) (from k : nat) : list event :=
  flat_map (fun j => [Goto pg url j; Sleep RETRY_DELAY; Reload pg]) (seq from k)
  ++ [Goto pg url (from + k)].


(** The site fails twice, then hands the report over. *)
Definition slow_site : outside :=
  {| now := "2024-01-01T00:00:00.000Z";
     dir_name := "download-1-abc";
     missive_reply := fun _ => Ok example_reply;
     launch_error := None;
     mkdir_error := None;
     newContext_error := None;
     newPage_error := None;
     download_result := fun n =>
       if (n <? 2)%nat then Throw (External "Timeout 30000ms exceeded")
       else Ok {| stored_as := "3f2a"; suggestedFilename := "GrandTotalReport_2024.pdf";
                  content := "%PDF-1.7" |};
     partial_files := fun _ => [];
     reload_error := fun _ => Some (External "Timeout 5000ms exceeded");
     readFile_error := None;
     post_result := fun n _ _ =>
       if (n <? 1)%nat then Throw (External "Request failed with status code 503")
       else Ok 200%Z;
     unlink_error := fun _ => None;
     closePage_error := None;
     closeContext_error := None |}.

(** The conversation that a run names to the webhook: the one of the
    message as the Missive API gives it, when it gives one, else the one
    of the request. *)
Definition conversation_of (out : outside) (messageId conversationId : JS.value)
  : JS.value :=
  match missive_reply out messageId with
  | Ok data =>
      let fromApi :=
        JS.get_opt (JS.get_opt (JS.get_opt data "messages") "conversation") "id" in
      if JS.truthy fromApi then fromApi else conversationId
  | Throw _ => conversationId
  end.

(** A relay post carries a download of the run: its bytes under its
    suggested name, as a PDF, with the message of the run and the
    conversation. *)
Definition carried (out : outside) (messageId conversationId : JS.value) (e : event)
  : Prop :=
  match e with
  | HttpPost _ f =>
      (exists n d, download_result out n = Ok d
                   /\ form_file f = content d
                   /\ form_filename f = suggestedFilename d)
      /\ form_contentType f = "application/pdf"
      /\ form_messageId f = messageId
      /\ form_conversationId f
         = JS.or (conversation_of out messageId conversationId) (JS.String EmptyString)
  | _ => True
  end.

(** The entry [name] of the directory [dir], when the directory exists,
    holds [bytes]. *)
Definition holds_file (dir name bytes : string) (w : world) : Prop :=
  forall entries,
    fs w !! dir = Some entries ->
    List.find (fun e => String.eqb (fst e) name) entries = Some (name, bytes).

(** The Missive API knows the conversation of the message. *)
Definition known_conversation : outside :=
  {| now := "2024-01-01T00:00:00.000Z";
     dir_name := "download-1-abc";
     missive_reply := fun _ =>
       Ok (JS.Obj [("messages",
                    JS.Obj [("body", JS.String example_body);
                            ("conversation", JS.Obj [("id", JS.String "c-api")])])]);
     launch_error := None;
     mkdir_error := None;
     newContext_error := None;
     newPage_error := None;
     download_result := fun _ =>
       Ok {| stored_as := "3f2a"; suggestedFilename := "Invoice_2024.pdf";
             content := "%PDF-1.7" |};
     partial_files := fun _ => [];
     reload_error := fun _ => None;
     readFile_error := None;
     post_result := fun _ _ _ => Ok 200%Z;
     unlink_error := fun _ => None;
     closePage_error := None;
     closeContext_error := None |}.

(** [MAX_RETRIES] is not a number. *)
Definition unparsed_retries_config : config :=
  {| MAX_RETRIES := NaN;
     MISSIVE_API_KEY := Some "key";
     FUELREPORTWEBHOOK := Some "https://hooks.example/fuel";
     EFSREPORTWEBHOOK := Some "https://hooks.example/efs";
     PERSISTENT_DIR := "/data" |}.

(** The pattern can only take characters other than [bad]. *)
Definition avoids (ci : bool) (bad : ascii) (r : regex) : bool :=
  forallb (fun a => match a with
                    | Lit c | Opt c => negb (same ci c bad)
                    | Many cls _ => negb (cls bad)
                    | GroupOpen | GroupClose => true
                    end) r.

(** The least number of characters a match of the pattern takes. *)
Definition least_length (r : regex) : nat :=
  list_sum (map (fun a => match a with
                          | Lit _ => 1
                          | Many _ least => least
                          | _ => 0
                          end) r).

Definition group_free (r : regex) : bool :=
  forallb (fun a => match a with GroupOpen | GroupClose => false | _ => true end) r.

(** Two links in plain text, no anchor. *)
Definition two_links_body : string :=
  "Reports: https://x/first.pdf and https://x/second.pdf".

(** ** The other routes and the start of the server *)

(** The constants that only the other routes read: [PORT], which is the
    string of the environment or the number 3053, and [HEADLESS]. *)
Record deployment : Type := {
  settings : config;
  PORT : JS.value;
  HEADLESS : bool
}.

(** How the outside answers a call that is not a run: as for a run, and
    whether [fs.access] fails on a directory that exists, whether
    [browser.close()] fails, and [process.uptime()], a number of seconds
    given as a fraction. *)
Record host : Type := {
  run_outside : outside;
  access_error : option exn;
  closeBrowser_error : option exn;
  process_uptime : Z * positive
}.

Module Health.

(** The [config] object of the report. *)
Record flags : Type := {
  headless : bool;
  maxRetries : number;
  persistentDir : string;
  missiveApiConfigured : bool;
  fuelReportWebhookConfigured : bool;
  efsReportWebhookConfigured : bool
}.

(** The body of the response of [GET /health]. *)
Record report : Type := {
  status : string;
  port : JS.value;
  browser : string;
  config : flags;
  uptime : Z * positive;
  timestamp : string
}.

End Health.

(** [app.get('/health')]: what [res.json] is given. *)
Definition health (d : deployment) (h : host) (w : world) : Health.report :=
  let browserStatus :=
    match globalBrowser w with Some _ => "running" | None => "not initialized" end in
  {| Health.status := "healthy";
     Health.port := PORT d;
     Health.browser := browserStatus;
     Health.config :=
       {| Health.headless := HEADLESS d;
          Health.maxRetries := MAX_RETRIES (settings d);
          Health.persistentDir := PERSISTENT_DIR (settings d);
          Health.missiveApiConfigured := negb (env_falsy (MISSIVE_API_KEY (settings d)));
          Health.fuelReportWebhookConfigured :=
            negb (env_falsy (FUELREPORTWEBHOOK (settings d)));
          Health.efsReportWebhookConfigured :=
            negb (env_falsy (EFSREPORTWEBHOOK (settings d))) |};
     Health.uptime := process_uptime h;
     Health.timestamp := now (run_outside h) |}.

(** [fs.access(dir)] *)
Definition fs_access (h : host) (dir : string) : IO unit :=
  do w <- get_world;
  match fs w !! dir with
  | Some _ => fail_if (access_error h)
  | None => throw ENOENT
  end.

Definition ensurePersistentDir (cfg : config) (h : host) : IO unit :=
  try_catch (fs_access h (PERSISTENT_DIR cfg))
            (fun _ => fs_mkdir (run_outside h) (PERSISTENT_DIR cfg)).

(** The callback of [app.listen], after its lines of log. *)
Definition startup (cfg : config) (h : host) : IO unit :=
  run ensurePersistentDir cfg h;
  run initBrowser (run_outside h);
  ret tt.

(** The server between two calls: the world, and the engines that were
    closed. *)
Record server : Type := {
  world_now : world;
  closed : list nat
}.

Definition Srv (A : Type) : Type := M server A.

Definition in_world {A} (m : IO A) : Srv A :=
  fun s => match m (world_now s) with
           | (r, w') => (r, {| world_now := w'; closed := closed s |})
           end.

(** [browser.close()] *)
Definition browser_close (h : host) (b : nat) : Srv unit :=
  run fail_if (closeBrowser_error h);
  fun s => (Ok tt, {| world_now := world_now s; closed := b :: closed s |}).

Definition restarted (timestamp : string) : JS.value :=
  JS.Obj [("success", JS.Bool true);
          ("message", JS.String "Browser restarted successfully");
          ("timestamp", JS.String timestamp)].

Definition restart_failed (error : exn) (timestamp : string) : JS.value :=
  JS.Obj [("error", JS.String "Failed to restart browser");
          ("details", JS.String (exn_message error));
          ("timestamp", JS.String timestamp)].

(** [app.post('/restart-browser')] *)
Definition restart_browser (h : host) : Srv unit :=
  try_catch
    (do w <- in_world get_world;
     run match globalBrowser w with
         | Some b =>
             run browser_close h b;
             in_world (modify_world (fun w => set_browser None (engines w) w))
         | None => ret tt
         end;
     run in_world (initBrowser (run_outside h));
     in_world (emit (Respond 200 (restarted (now (run_outside h))))))
    (fun error =>
       in_world (emit (Respond 500 (restart_failed error (now (run_outside h)))))).

(** A call to the server. *)
Inductive call : Type :=
| Report (out : outside) (body : JS.value)
| Restart (h : host).

(** Calls handled one after the other. *)
Definition handle (cfg : config) (c : call) (s : server) : server :=
  match c with
  | Report out body =>
      {| world_now := processreport cfg out body (world_now s); closed := closed s |}
  | Restart h => snd (restart_browser h s)
  end.

Definition handle_all (cfg : config) (calls : list call) (s : server) : server :=
  fold_left (fun s c => handle cfg c s) calls s.

(** [globalBrowser] holds no engine that was closed, and the engines are
    numbered below the count of those launched. *)
Definition browser_alive (s : server) : Prop :=
  (forall b, globalBrowser (world_now s) = Some b ->
             ~ In b (closed s) /\ b < engines (world_now s))
  /\ Forall (fun c => c < engines (world_now s)) (closed s).

Definition example_host : host :=
  {| run_outside := friendly_outside;
     access_error := None;
     closeBrowser_error := None;
     process_uptime := (12345%Z, 1000%positive) |}.

(** [browser.close()] fails. *)
Definition stuck_browser_host : host :=
  {| run_outside := friendly_outside;
     access_error := None;
     closeBrowser_error := Some (External "Target closed");
     process_uptime := (12345%Z, 1000%positive) |}.

Definition example_deployment : deployment :=
  {| settings := empty_endpoint_config; PORT := JS.Num 3053; HEADLESS := true |}.

Definition new_server : server := {| world_now := empty_world; closed := [] |}.

Definition is_close_context (e : event) : bool :=
  match e with CloseContext _ => true | _ => false end.

(** [page.close()] fails. *)
Definition stuck_page : outside :=
  {| now := "2024-01-01T00:00:00.000Z";
     dir_name := "download-1-abc";
     missive_reply := fun _ => Ok example_reply;
     launch_error := None;
     mkdir_error := None;
     newContext_error := None;
     newPage_error := None;
     download_result := fun _ =>
       Ok {| stored_as := "3f2a"; suggestedFilename := "GrandTotalReport_2024.pdf";
             content := "%PDF-1.7" |};
     partial_files := fun _ => [];
     reload_error := fun _ => None;
     readFile_error := None;
     post_result := fun _ _ _ => Ok 200%Z;
     unlink_error := fun _ => None;
     closePage_error := Some (External "Target page, context or browser has been closed");
     closeContext_error := None |}.



(** The contexts and the pages that are open stay open, and the next
    handle does not go back. *)
Definition keeps_open (w w' : world) : Prop :=
  incl (contexts w) (contexts w') /\ incl (pages w) (pages w')
  /\ fresh w <= fresh w'.

(** The handles that the variables of a run hold were made by the run,
    which started from [w0]. *)
Definition own_handles (w0 : world) (l : locals) : Prop :=
  (forall c, context l = Some c -> fresh w0 <= c)
  /\ (forall p, page l = Some p -> fresh w0 <= p).

(** Another run has a context and a page open. *)
Definition shared_world : world :=
  {| fs := ∅; globalBrowser := Some 0; engines := 1; contexts := [4]; pages := [5];
     fresh := 6; trace := [] |}.

(** ** The first version of the server *)

(** The first version takes the link and the destination from the headers
    of the request, answers when the file is delivered, and keeps its
    working area under the temporary directory of the system. *)
Module V2.

(** [const MAX_RETRIES = 3]: what [downloadWithRetry], the same function
    but for its log, reads of the configuration. *)
Definition constants : config :=
  {| MAX_RETRIES := Fin 3;
     MISSIVE_API_KEY := None;
     FUELREPORTWEBHOOK := None;
     EFSREPORTWEBHOOK := None;
     PERSISTENT_DIR := EmptyString |}.

(** The multipart body of the relay request: the file alone. *)
Record upload : Type := {
  to : string;
  file : string;
  filename : string;
  contentType : string
}.

(** How the outside answers during one request: as for a run of the later
    version, with [os.tmpdir()], the characters that [fs.mkdtemp] adds to
    its prefix, and the outcome of each post. *)
Record conditions : Type := {
  outside_of : outside;
  tmpdir : string;
  suffix : string;
  upload_result : nat -> upload -> result Z
}.

(** A request works on its variables, on the world, and on the posts it
    has made. *)
Definition Req (A : Type) : Type := M ((locals * world) * list upload) A.

Definition on_run {A} (m : Comp A) : Req A :=
  fun s => match m (fst s) with
           | (r, s') => (r, (s', snd s))
           end.

Definition request_world (s : (locals * world) * list upload) : world := snd (fst s).

Definition respond (status : Z) (body : JS.value) : Req unit :=
  on_run (on_world (emit (Respond status body))).

(** [fs.mkdtemp(prefix)]: a directory that did not exist, named by the
    prefix and the characters added to it. *)
Definition fs_mkdtemp (out : conditions) (prefix : string) : IO string :=
  let dir := (prefix ++ suffix out)%string in
  run emit (Mkdir dir);
  run fail_if (mkdir_error (outside_of out));
  do w <- get_world;
  match fs w !! dir with
  | Some _ => throw (External "EEXIST: file already exists")
  | None =>
      run modify_world (set_fs (<[dir := []]> (fs w)));
      ret dir
  end.

(** [(n / 1024).toFixed(2)] for a length [n]: the hundredths of the
    quotient, rounded to the nearest with the half going up, written with
    two decimals. *)
Definition hundredths (n : nat) : nat := (50 * n + 256) / 512.

Definition two_digits (n : nat) : string :=
  (if (n <? 10)%nat then "0" else "") ++ NilZero.string_of_uint (Nat.to_uint n).

Definition toFixed2 (n : nat) : string :=
  NilZero.string_of_uint (Nat.to_uint (hundredths n / 100)) ++ "."
  ++ two_digits (hundredths n mod 100).

Definition fileSize (fileBuffer : string) : string :=
  toFixed2 (String.length fileBuffer) ++ " KB".

Definition formData (outputWebhook fileBuffer fileName : string) : upload :=
  {| to := outputWebhook; file := fileBuffer; filename := fileName;
     contentType := "application/pdf" |}.

(** The [try] block of the relay loop. *)
Definition axios_post (out : conditions) (u : upload) (attempt : nat) : Req Z :=
  fun s => (upload_result out attempt u, (fst s, snd s ++ [u])).

Definition relay_failed (e : exn) : exn :=
  Error ("Failed to send to webhook after " ++ num_to_string (MAX_RETRIES constants)
         ++ " attempts: " ++ exn_message e).

(** [while (webhookRetries <= MAX_RETRIES) { ... }], returning
    [webhookResponse.status] and [webhookRetries] as the loop leaves
    them. *)
Equations? webhook_loop (out : conditions) (u : upload) (webhookRetries : nat)
  (st : (locals * world) * list upload) : result (Z * nat) * ((locals * world) * list upload)
  by wf (4 - webhookRetries) lt :=
  webhook_loop out u webhookRetries st
    with inspect (webhookRetries <=? 3)%nat => {
    | exist _ false _ := (Throw NO_STATUS, st);
    | exist _ true _ with axios_post out u webhookRetries st => {
        | (Ok status, st') := (Ok (status, webhookRetries), st');
        | (Throw webhookError, st')
            with inspect (3 <? S webhookRetries)%nat => {
            | exist _ true _ := (Throw (relay_failed webhookError), st');
            | exist _ false _ with on_run (on_world (sleep RETRY_DELAY)) st' => {
                | (Ok _, st'') := webhook_loop out u (S webhookRetries) st'';
                | (Throw e, st'') := (Throw e, st'') } } } }.
Proof.
  match goal with H : (_ <=? _)%nat = true |- _ => apply Nat.leb_le in H end. lia.
Qed.

Definition missing_headers : JS.value :=
  JS.Obj [("error", JS.String "Missing required headers: INPUTURL and OUTPUT")].

Definition delivered (fileName fileBuffer : string) (status : Z) (webhookRetries : nat)
  : JS.value :=
  JS.Obj [("success", JS.Bool true);
          ("message", JS.String "File downloaded and sent successfully");
          ("fileName", JS.String fileName);
          ("fileSize", JS.String (fileSize fileBuffer));
          ("webhookResponse", JS.Num status);
          ("downloadRetries", JS.Num 0);
          ("webhookRetries",
           JS.Num (Z.of_nat (if (0 <? webhookRetries)%nat
                             then webhookRetries - 1 else 0)))].

Definition failed (error : exn) : JS.value :=
  JS.Obj [("error", JS.String "Failed to process download");
          ("details", JS.String (exn_message error))].

(** The [try] block of the handler, up to its response. *)
Definition deliver (out : conditions) (inputUrl outputWebhook : string)
  : Req (string * string * Z * nat) :=
  do browser <- on_run (on_world (initBrowser (outside_of out)));
  do dir <- on_run (on_world (fs_mkdtemp out (path_join (tmpdir out) "pdf-download-")));
  run on_run (modify_locals (set_tempDir dir));
  do ctx <- match browser with
            | Some _ => on_run (on_world (browser_newContext (outside_of out) dir))
            | None => throw NO_BROWSER
            end;
  run on_run (modify_locals (set_context ctx));
  do pg <- on_run (on_world (context_newPage (outside_of out) ctx));
  run on_run (modify_locals (set_page pg));
  do result <- on_run (on_world (downloadWithRetry constants (outside_of out)
                                                    pg inputUrl dir 0));
  run on_run (modify_locals (set_downloadPath (result_downloadPath result)));
  do fileBuffer <- on_run (on_world (fs_readFile (outside_of out)
                                                 (result_downloadPath result)));
  do sent <- webhook_loop out (formData outputWebhook fileBuffer (result_fileName result))
                          0;
  ret (result_fileName result, fileBuffer, fst sent, snd sent).

(** [app.post('/processreport')], for the values of the headers
    [inputurl] and [output]. *)
Definition processreport (out : conditions) (inputUrl outputWebhook : option string)
  : Req unit :=
  match inputUrl, outputWebhook with
  | Some url, Some hook =>
      if env_falsy inputUrl || env_falsy outputWebhook then respond 400 missing_headers
      else
        try_finally
          (try_catch
             (do got <- deliver out url hook;
              let '(fileName, fileBuffer, status, webhookRetries) := got in
              respond 200 (delivered fileName fileBuffer status webhookRetries))
             (fun error => respond 500 (failed error)))
          (on_run (release (outside_of out)))
  | _, _ => respond 400 missing_headers
  end.

End V2.

(** [outcome P m Q E]: from a state that satisfies [P], [m] returns a
    value and a state that satisfy [Q], or throws a value in a state that
    satisfy [E]. *)
Definition outcome {S A} (P : S -> Prop) (m : M S A) (Q : A -> S -> Prop)
  (E : exn -> S -> Prop) : Prop :=
  forall s, P s ->
            match m s with
            | (Ok a, s') => Q a s'
            | (Throw e, s') => E e s'
            end.

(** What the first version delivers of a download [d] to [hook]. *)
Definition delivery (hook : string) (d : download) : V2.upload :=
  V2.formData hook (content d) (suggestedFilename d).

(** Every post up to the first [k] fails. *)
Definition refused (out : V2.conditions) (u : V2.upload) (from k : nat) : Prop :=
  forall j, from <= j < k -> exists e, V2.upload_result out j u = Throw e.

(** The site fails twice, and the destination refuses two posts before it
    takes the file. *)
Definition busy_destination : V2.conditions :=
  {| V2.outside_of := slow_site;
     V2.tmpdir := "/tmp";
     V2.suffix := "Ab3xYz";
     V2.upload_result := fun n _ =>
       if (n <? 2)%nat then Throw (External "Request failed with status code 503")
       else Ok 200%Z |}.

(** The destination refuses every post. *)
Definition deaf_destination : V2.conditions :=
  {| V2.outside_of := friendly_outside;
     V2.tmpdir := "/tmp";
     V2.suffix := "Ab3xYz";
     V2.upload_result := fun _ _ => Throw (External "connect ECONNREFUSED") |}.

(** * Theorems *)

#[local] Arguments Ascii.eqb : simpl never.
#[local] Arguments same : simpl never.
#[local] Arguments taken : simpl never.
#[local] Arguments not_char : simpl never.

Lemma taken_app (pre rest : list ascii) : taken (pre ++ rest) rest = pre.
Proof.
  unfold taken. rewrite length_app, Nat.add_sub. apply take_app_length.
Qed.

Lemma many_inv {R} cls (k : list ascii -> option R) least s r :
  many cls k least s = Some r ->
  exists pre rest,
    s = pre ++ rest /\ forallb cls pre = true /\ least <= length pre /\ k rest = Some r.
Proof.
  revert least. induction s as [|c s IH]; intros least; simpl.
  - destruct (Nat.eqb_spec least 0) as [->|]; [|discriminate].
    intros Hk. exists [], []. auto.
  - destruct (cls c) eqn:Hc.
    + destruct (many cls k (Nat.pred least) s) eqn:Hm.
      * intros [= ->]. destruct (IH _ Hm) as (pre & rest & -> & Hall & Hle & Hk).
        exists (c :: pre), rest. simpl. rewrite Hc, Hall. repeat split; auto. lia.
      * destruct (Nat.eqb_spec least 0) as [->|]; [|discriminate].
        intros Hk. exists [], (c :: s). auto.
    + destruct (Nat.eqb_spec least 0) as [->|]; [|discriminate].
      intros Hk. exists [], (c :: s). auto.
Qed.


Lemma match_lits_app r g w s :
  match_here false (map Lit w ++ r) g (w ++ s) = match_here false r g s.
Proof.
  induction w as [|c w IH]; simpl; [reflexivity|].
  unfold same. rewrite Ascii.eqb_refl. apply IH.
Qed.

Lemma match_lits_inv r g w s x :
  match_here false (map Lit w ++ r) g s = Some x -> exists s', s = w ++ s'.
Proof.
  revert s. induction w as [|c w IH]; intros s; simpl.
  - intros _. exists s. reflexivity.
  - destruct s as [|d s]; simpl; [discriminate|].
    unfold same. destruct (Ascii.eqb_spec c d) as [->|]; [|discriminate].
    intros H. destruct (IH _ H) as [s' ->]. exists s'. reflexivity.
Qed.

Lemma exec_inv ci r s f :
  exec ci r s = Some f ->
  exists pre s' rest g,
    s = pre ++ s' /\ match_here ci r no_groups s' = Some (rest, g)
    /\ f = {| whole := taken s' rest; group1 := g_cap g |}.
Proof.
  induction s as [|c s IH]; simpl.
  - destruct (match_here ci r no_groups []) as [[rest g]|] eqn:Hm; [|discriminate].
    intros [= <-]. exists [], [], rest, g. auto.
  - destruct (match_here ci r no_groups (c :: s)) as [[rest g]|] eqn:Hm.
    + intros [= <-]. exists [], (c :: s), rest, g. auto.
    + intros H. destruct (IH H) as (pre & s' & rest & g & -> & Hm' & ->).
      exists (c :: pre), s', rest, g. auto.
Qed.



Lemma str_match_whole p body m :
  str_match p body = Some m -> exists x, at_index m 0 = Some x.
Proof.
  unfold str_match. destruct (flag_g p).
  - destruct (exec_all _ _ _ _) as [|x ms]; [discriminate|].
    intros [= <-]. exists x. reflexivity.
  - destruct (exec _ _ _) as [f|]; [|discriminate].
    intros [= <-]. exists (whole f). reflexivity.
Qed.

Lemma found_by_some p body m :
  str_match p body = Some m -> exists u, first_or_whole m = Some u.
Proof.
  intros H. destruct (str_match_whole _ _ _ H) as [x Hx].
  unfold first_or_whole. destruct (str_truthy (at_index m 1)) eqn:Ht.
  - destruct (at_index m 1) as [u|]; [eauto|discriminate].
  - eauto.
Qed.

(** ** The [href] pattern *)

Lemma href_re_split : re href_pattern = map Lit href_open ++ after_href.
Proof. reflexivity. Qed.

Lemma after_href_inv s rest g :
  match_here false after_href no_groups s = Some (rest, g) ->
  exists u, s = u ++ Str.dquote :: rest /\ u <> [] /\ g_cap g = Some u.
Proof.
  unfold after_href. simpl. intros H.
  apply many_inv in H as (u & tl & -> & Hall & Hlen & Hk).
  destruct tl as [|c tl]; simpl in Hk; [discriminate|].
  unfold same in Hk. destruct (Ascii.eqb_spec Str.dquote c) as [<-|]; [|discriminate].
  injection Hk as <- <-. simpl.
  exists u. rewrite taken_app. repeat split; auto.
  destruct u; simpl in Hlen; [lia|discriminate].
Qed.


Lemma href_match_groups body m :
  str_match href_pattern body = Some m ->
  exists w u, m = [Some w; Some u] /\ u <> [].
Proof.
  unfold str_match. simpl flag_g. cbv iota.
  destruct (exec _ _ _) as [f|] eqn:He; [|discriminate].
  intros [= <-].
  apply exec_inv in He as (pre & s' & rest & g & -> & Hm & ->).
  rewrite href_re_split in Hm.
  destruct (match_lits_inv _ _ _ _ _ Hm) as [s'' ->].
  rewrite match_lits_app in Hm.
  apply after_href_inv in Hm as (u & -> & Hne & Hcap).
  simpl. rewrite Hcap. eauto.
Qed.



Lemma try_patterns_first_match ps body :
  try_patterns ps body
  = match first_match ps body with
    | Some u => Some (Ok (Str.of_chars (decode_amp u)))
    | None => None
    end.
Proof.
  induction ps as [|p ps IH]; simpl; [reflexivity|].
  unfold found_by. destruct (str_match p body) as [m|] eqn:Hm; [|exact IH].
  destruct (found_by_some _ _ _ Hm) as [u ->]. reflexivity.
Qed.

Lemma extract_from_body_spec body : extract_from_body body = extract_spec body.
Proof.
  unfold extract_from_body, extract_spec, priority.
  change (first_match (href_pattern :: ?ps) body)
    with (match found_by href_pattern body with
          | Some u => Some u
          | None => first_match ps body
          end).
  change [download_at_pattern; getJobFile_pattern; pdf_pattern] with patterns.
  rewrite try_patterns_first_match. unfold found_by.
  destruct (str_match href_pattern body) as [m|] eqn:Hm.
  - destruct (href_match_groups _ _ Hm) as (w & u & -> & Hne).
    unfold first_or_whole. simpl. destruct u; [congruence|reflexivity].
  - destruct (first_match patterns body); reflexivity.
Qed.


(** ** Substrings *)

Lemma starts_with_spec p s :
  Str.starts_with p s = true <-> exists rest, s = p ++ rest.
Proof.
  revert s. induction p as [|a p IH]; intros s; simpl.
  - split; [intros _; exists s; reflexivity|reflexivity].
  - destruct s as [|b s].
    + split; [discriminate|intros [rest Hrest]; discriminate].
    + rewrite andb_true_iff, IH. split.
      * intros [Hab [rest ->]]. apply Ascii.eqb_eq in Hab as ->. eauto.
      * intros [rest [= -> ->]]. split; [apply Ascii.eqb_refl|eauto].
Qed.

Lemma includes_spec s needle :
  Str.includes s needle = true <-> exists a b, s = a ++ needle ++ b.
Proof.
  induction s as [|c s IH]; simpl.
  - rewrite orb_false_r, starts_with_spec. split.
    + intros [rest ->]. exists [], rest. reflexivity.
    + intros (a & b & H). destruct a; [eauto|discriminate].
  - rewrite orb_true_iff, starts_with_spec, IH. split.
    + intros [[rest ->]|(a & b & ->)].
      * exists [], rest. reflexivity.
      * exists (c :: a), b. reflexivity.
    + intros (a & b & H). destruct a as [|c' a]; simpl in H.
      * left. eauto.
      * injection H as -> ->. right. eauto.
Qed.

(** ** Lower case *)

Lemma code_lower_upper c :
  Str.is_upper c = true -> Str.code (Str.lower_char c) = Str.code c + 32.
Proof.
  intros Hu. unfold Str.lower_char. rewrite Hu. unfold Str.code in *.
  apply nat_ascii_embedding.
  unfold Str.is_upper, Str.code in Hu.
  pose proof (nat_ascii_bounded c).
  apply orb_prop in Hu as [H1|H1];
    repeat (apply andb_prop in H1 as [H1 ?]);
    repeat match goal with
           | H : (_ <=? _)%nat = true |- _ => apply Nat.leb_le in H
           end; lia.
Qed.

Lemma code_inj c d : Str.code c = Str.code d -> c = d.
Proof.
  unfold Str.code. intros H.
  rewrite <- (ascii_nat_embedding c), <- (ascii_nat_embedding d), H. reflexivity.
Qed.

Lemma lower_same_letter c : same_letter c (Str.lower_char c).
Proof.
  destruct (Str.is_upper c) eqn:Hu.
  - right. left. split; [assumption|]. apply code_lower_upper. assumption.
  - left. unfold Str.lower_char. rewrite Hu. reflexivity.
Qed.

Lemma same_letter_lower c k :
  Str.is_upper k = false -> same_letter c k -> Str.lower_char c = k.
Proof.
  intros Hk [->|[[Hu Hcode]|[Hu _]]].
  - unfold Str.lower_char. rewrite Hk. reflexivity.
  - apply code_inj. rewrite code_lower_upper by assumption. symmetry. assumption.
  - congruence.
Qed.

Lemma toLowerCase_same_letter mid word :
  Str.toLowerCase mid = word -> Forall2 same_letter mid word.
Proof.
  intros <-. unfold Str.toLowerCase.
  induction mid; simpl; constructor; auto using lower_same_letter.
Qed.

Lemma same_letter_toLowerCase mid word :
  forallb (fun k => negb (Str.is_upper k)) word = true ->
  Forall2 same_letter mid word -> Str.toLowerCase mid = word.
Proof.
  intros Hlow H. induction H as [|c k mid word Hck _ IH]; [reflexivity|].
  simpl in Hlow. apply andb_prop in Hlow as [Hk Hlow].
  apply negb_true_iff in Hk. unfold Str.toLowerCase in *. simpl.
  rewrite (same_letter_lower c k), IH; auto.
Qed.

(** The test of [determineWebhookConfig] is the containment of the
    specification. *)
Lemma includes_lower_contains_ci name word :
  forallb (fun k => negb (Str.is_upper k)) word = true ->
  Str.includes (Str.toLowerCase name) word = true <-> contains_ci name word.
Proof.
  intros Hlow. rewrite includes_spec. unfold contains_ci. split.
  - intros (a & b & H). unfold Str.toLowerCase in H.
    apply fmap_app_inv in H as (pre & rest & Ha & H & ->).
    symmetry in H. apply fmap_app_inv in H as (mid & post & Hmid & Hb & ->).
    exists pre, mid, post. split; [reflexivity|].
    apply toLowerCase_same_letter. symmetry. exact Hmid.
  - intros (pre & mid & post & -> & H).
    exists (Str.toLowerCase pre), (Str.toLowerCase post).
    unfold Str.toLowerCase. rewrite !map_app.
    rewrite <- (same_letter_toLowerCase mid word); auto.
Qed.

(** ** Where the body is read *)











Lemma marker_lower :
  forallb (fun k => negb (Str.is_upper k)) (Str.chars marker) = true.
Proof. reflexivity. Qed.

Lemma determineWebhookConfig_fuel cfg fileName :
  Str.includes (Str.toLowerCase (Str.chars fileName)) (Str.chars marker) = true ->
  determineWebhookConfig cfg fileName
  = if env_falsy (FUELREPORTWEBHOOK cfg)
    then Throw (not_configured "FUELREPORTWEBHOOK")
    else Ok {| webhookUrl := default EmptyString (FUELREPORTWEBHOOK cfg);
               reportType := "FuelReport" |}.
Proof.
  intros H. unfold determineWebhookConfig. rewrite H.
  destruct (FUELREPORTWEBHOOK cfg) as [u|]; [|reflexivity].
  destruct (env_falsy (Some u)); reflexivity.
Qed.

Lemma determineWebhookConfig_efs cfg fileName :
  Str.includes (Str.toLowerCase (Str.chars fileName)) (Str.chars marker) = false ->
  determineWebhookConfig cfg fileName
  = if env_falsy (EFSREPORTWEBHOOK cfg)
    then Throw (not_configured "EFSREPORTWEBHOOK")
    else Ok {| webhookUrl := default EmptyString (EFSREPORTWEBHOOK cfg);
               reportType := "EFSReport" |}.
Proof.
  intros H. unfold determineWebhookConfig. rewrite H.
  destruct (EFSREPORTWEBHOOK cfg) as [u|]; [|reflexivity].
  destruct (env_falsy (Some u)); reflexivity.
Qed.

(** C4, as the code has it. The result depends on the file name and the
    two endpoint variables only. A name that holds [grandtotalreport],
    whatever the case of its letters, goes to the fuel endpoint with the
    label [FuelReport], any other name to the EFS endpoint with the label
    [EFSReport]; the call throws the not-configured error of the selected
    variable exactly when that variable is unset or set to the empty
    string. The three names of the specification are routed as it says. *)
Theorem determineWebhookConfig_routing (cfg : config) (name : string) :
  (contains_ci (Str.chars name) (Str.chars marker) ->
   determineWebhookConfig cfg name
   = if env_falsy (FUELREPORTWEBHOOK cfg)
     then Throw (not_configured "FUELREPORTWEBHOOK")
     else Ok {| webhookUrl := default EmptyString (FUELREPORTWEBHOOK cfg);
                reportType := "FuelReport" |})
  /\ (~ contains_ci (Str.chars name) (Str.chars marker) ->
      determineWebhookConfig cfg name
      = if env_falsy (EFSREPORTWEBHOOK cfg)
        then Throw (not_configured "EFSREPORTWEBHOOK")
        else Ok {| webhookUrl := default EmptyString (EFSREPORTWEBHOOK cfg);
                   reportType := "EFSReport" |})
  /\ contains_ci (Str.chars "GrandTotalReport_2024.pdf") (Str.chars marker)
  /\ contains_ci (Str.chars "grandtotalreport.PDF") (Str.chars marker)
  /\ ~ contains_ci (Str.chars "Invoice_2024.pdf") (Str.chars marker).
Proof.
  split; [|split; [|split; [|split]]].
  - intros H. apply determineWebhookConfig_fuel.
    apply includes_lower_contains_ci; [exact marker_lower|exact H].
  - intros H. apply determineWebhookConfig_efs.
    apply not_true_is_false. intros Hin. apply H.
    apply includes_lower_contains_ci in Hin; [exact Hin|exact marker_lower].
  - apply includes_lower_contains_ci; [exact marker_lower|reflexivity].
  - apply includes_lower_contains_ci; [exact marker_lower|reflexivity].
  - intros H. apply includes_lower_contains_ci in H; [|exact marker_lower]. discriminate.
Qed.

Lemma determineWebhookConfig_routing_witness :
  contains_ci (Str.chars "GrandTotalReport_2024.pdf") (Str.chars marker)
  /\ determineWebhookConfig example_config "GrandTotalReport_2024.pdf"
     = Ok {| webhookUrl := "https://hooks.example/fuel"; reportType := "FuelReport" |}.
Proof.
  pose proof (determineWebhookConfig_routing example_config "GrandTotalReport_2024.pdf")
    as (Hfuel & _ & Hname & _).
  split; [exact Hname|]. rewrite (Hfuel Hname). reflexivity.
Defined.

(** C4, as the claim has it, fails: with the fuel endpoint set to the
    empty string the call throws although the variable is set. *)
Lemma determineWebhookConfig_empty_endpoint :
  ~ ((exists e, determineWebhookConfig empty_endpoint_config "GrandTotalReport_2024.pdf"
                = Throw e)
     <-> FUELREPORTWEBHOOK empty_endpoint_config = None).
Proof.
  intros [Hfails _].
  assert (FUELREPORTWEBHOOK empty_endpoint_config = None) as H; [|discriminate H].
  apply Hfails. eexists. reflexivity.
Qed.

Lemma downloadWithRetry_step cfg out pg url dir retries w :
  downloadWithRetry cfg out pg url dir retries w
  = match download_attempt out pg url dir retries w with
    | (Ok d, w') => (Ok d, w')
    | (Throw error, w') =>
        if num_lt (Fin (Z.of_nat retries)) (MAX_RETRIES cfg) then
          match before_retry out pg retries w' with
          | (Ok _, w'') => downloadWithRetry cfg out pg url dir (S retries) w''
          | (Throw e, w'') => (Throw e, w'')
          end
        else (Throw error, w')
    end.
Proof.
  rewrite downloadWithRetry_equation_1.
  destruct (download_attempt out pg url dir retries w) as [[d|error] w'];
    simp downloadWithRetry; [reflexivity|].
  generalize (inspect (num_lt (Fin (Z.of_nat retries)) (MAX_RETRIES cfg))).
  intros [[] e]; simp downloadWithRetry; [|rewrite e; reflexivity].
  destruct (before_retry out pg retries w') as [[u|e'] w''] eqn:Hb;
    simp downloadWithRetry; rewrite e; reflexivity.
Qed.

Lemma webhook_loop_step cfg out r n st :
  webhook_loop cfg out r n st
  = if num_le (Fin (Z.of_nat n)) (MAX_RETRIES cfg) then
      match axios_post out r n st with
      | (Ok status, st') => (Ok (Some status), st')
      | (Throw webhookError, st') =>
          if num_lt (MAX_RETRIES cfg) (Fin (Z.of_nat (S n))) then
            (Throw (relay_failed cfg webhookError), st')
          else
            match on_world (sleep RETRY_DELAY) st' with
            | (Ok _, st'') => webhook_loop cfg out r (S n) st''
            | (Throw e, st'') => (Throw e, st'')
            end
      end
    else (Ok None, st).
Proof.
  rewrite webhook_loop_equation_1.
  generalize (inspect (num_le (Fin (Z.of_nat n)) (MAX_RETRIES cfg))).
  intros [[] e]; simp webhook_loop; [|rewrite e; reflexivity].
  destruct (axios_post out r n st) as [[status|err] st']; simp webhook_loop;
    [rewrite e; reflexivity|].
  generalize (inspect (num_lt (MAX_RETRIES cfg) (Fin (Z.of_nat (S n))))).
  intros [[] e']; simp webhook_loop; [rewrite e, e'; reflexivity|].
  destruct (on_world (sleep RETRY_DELAY) st') as [[u|e''] st''] eqn:Hs;
    simp webhook_loop; rewrite e, e'; reflexivity.
Qed.

(** ** Traces of the calls *)

Lemma trace_store dir files w : trace (store dir files w) = trace w.
Proof. unfold store. destruct (fs w !! dir); reflexivity. Qed.

Lemma added_app w w' evs : trace w' = trace w ++ evs -> added w w' = evs.
Proof. intros H. unfold added. rewrite H. apply drop_app_length. Qed.

Lemma download_attempts_app a b :
  download_attempts (a ++ b) = download_attempts a + download_attempts b.
Proof. unfold download_attempts. rewrite List.filter_app, length_app. reflexivity. Qed.

Lemma download_attempt_run out pg url dir n w :
  trace (snd (download_attempt out pg url dir n w)) = trace w ++ [Goto pg url n]
  /\ match download_result out n with
     | Ok d => exists r, fst (download_attempt out pg url dir n w) = Ok r
     | Throw e => fst (download_attempt out pg url dir n w) = Throw e
     end.
Proof.
  unfold download_attempt, bind, emit, modify_world, ret, throw.
  destruct (download_result out n) as [d|e]; simpl; rewrite trace_store; eauto.
Qed.

Lemma before_retry_run out pg n w :
  before_retry out pg n w
  = (Ok tt, snd (before_retry out pg n w))
  /\ trace (snd (before_retry out pg n w)) = trace w ++ [Sleep RETRY_DELAY; Reload pg].
Proof.
  unfold before_retry, ignore_errors, try_catch, page_reload, sleep, bind, emit,
    modify_world, fail_if, ret, throw.
  destruct (reload_error out n); simpl; rewrite <- app_assoc; auto.
Qed.

Lemma budget_step limit n :
  num_lt (Fin (Z.of_nat n)) limit = true -> budget limit n = S (budget limit (S n)).
Proof.
  destruct limit as [m|]; simpl; [|discriminate].
  intros H%Z.ltb_lt. lia.
Qed.

Lemma budget_done limit n :
  num_lt (Fin (Z.of_nat n)) limit = false -> budget limit n = 0.
Proof.
  destruct limit as [m|]; simpl; [|reflexivity].
  intros H%Z.ltb_ge. lia.
Qed.

Lemma budget_zero limit : budget limit 0 = retries_allowed limit.
Proof. destruct limit; simpl; [f_equal; lia|reflexivity]. Qed.

(** From attempt [retries] on, the function makes at most one attempt
    more than its budget, and exactly that many when every attempt fails,
    ending with the error of the last one. *)
Lemma downloadWithRetry_from cfg out pg url dir k :
  forall retries w,
    budget (MAX_RETRIES cfg) retries <= k ->
    exists evs,
      trace (snd (downloadWithRetry cfg out pg url dir retries w)) = trace w ++ evs
      /\ download_attempts evs <= 1 + budget (MAX_RETRIES cfg) retries
      /\ ((forall n, exists e, download_result out n = Throw e) ->
          download_attempts evs = 1 + budget (MAX_RETRIES cfg) retries
          /\ exists e,
               download_result out (retries + budget (MAX_RETRIES cfg) retries) = Throw e
               /\ fst (downloadWithRetry cfg out pg url dir retries w) = Throw e).
Proof.
  induction k as [|k IH]; intros retries w Hk; rewrite downloadWithRetry_step;
    destruct (download_attempt_run out pg url dir retries w) as [Htr Hres];
    destruct (download_attempt out pg url dir retries w) as [[d|error] w1] eqn:Hrun;
    simpl in Htr, Hres.
  1, 3: exists [Goto pg url retries]; split; [exact Htr|];
        split; [cbn; lia|];
        intros Hfail; destruct (Hfail retries) as [e He]; rewrite He in Hres; discriminate.
  - destruct (num_lt _ _) eqn:Hlt; [apply budget_step in Hlt; lia|].
    apply budget_done in Hlt. rewrite Hlt.
    exists [Goto pg url retries]. split; [exact Htr|]. split; [cbn; lia|].
    intros Hfail. split; [reflexivity|]. rewrite Nat.add_0_r.
    destruct (download_result out retries) as [d|e]; [destruct Hres; discriminate|].
    exists e. split; [reflexivity|exact Hres].
  - destruct (num_lt _ _) eqn:Hlt.
    + pose proof (budget_step _ _ Hlt) as Hb.
      destruct (before_retry_run out pg retries w1) as [Hok Htr2].
      rewrite Hok.
      destruct (IH (S retries) (snd (before_retry out pg retries w1)) ltac:(lia))
        as (evs & Hevs & Hle & Hall).
      exists (Goto pg url retries :: Sleep RETRY_DELAY :: Reload pg :: evs).
      split; [rewrite Hevs, Htr2, Htr, <- !app_assoc; reflexivity|].
      change (download_attempts (Goto pg url retries :: Sleep RETRY_DELAY :: Reload pg :: evs))
        with (S (download_attempts evs)).
      split; [lia|].
      intros Hfail. destruct (Hall Hfail) as (Hn & e & He & Hr).
      split; [lia|]. exists e. rewrite Hb.
      replace (retries + S (budget (MAX_RETRIES cfg) (S retries)))
        with (S retries + budget (MAX_RETRIES cfg) (S retries)) by lia.
      auto.
    + apply budget_done in Hlt. rewrite Hlt.
      exists [Goto pg url retries]. split; [exact Htr|]. split; [cbn; lia|].
      intros Hfail. split; [reflexivity|]. rewrite Nat.add_0_r.
      destruct (download_result out retries) as [d|e]; [destruct Hres; discriminate|].
      exists e. split; [reflexivity|exact Hres].
Qed.

(** C2, as the code has it. The function never makes more attempts than
    one plus the retries allowed, which are [MAX_RETRIES] when that is a
    number at least 0 and none otherwise; when every attempt fails it
    makes exactly that many and throws the error of the last one; so with
    [MAX_RETRIES = 3] a download that always fails is attempted exactly 4
    times and the error thrown is that of the fourth attempt. *)
Theorem downloadWithRetry_attempts (cfg : config) (out : outside)
        (pg : nat) (url dir : string) (w : world) :
  let r := downloadWithRetry cfg out pg url dir 0 w in
  download_attempts (added w (snd r)) <= 1 + retries_allowed (MAX_RETRIES cfg)
  /\ ((forall n, exists e, download_result out n = Throw e) ->
      download_attempts (added w (snd r)) = 1 + retries_allowed (MAX_RETRIES cfg)
      /\ exists e,
           download_result out (retries_allowed (MAX_RETRIES cfg)) = Throw e
           /\ fst r = Throw e)
  /\ (MAX_RETRIES cfg = Fin 3 ->
      (forall n, exists e, download_result out n = Throw e) ->
      download_attempts (added w (snd r)) = 4
      /\ exists e, download_result out 3 = Throw e /\ fst r = Throw e).
Proof.
  intros r.
  destruct (downloadWithRetry_from cfg out pg url dir
              (budget (MAX_RETRIES cfg) 0) 0 w (Nat.le_refl _))
    as (evs & Htrace & Hle & Hall).
  fold r in Htrace, Hall. rewrite (added_app _ _ _ Htrace).
  rewrite budget_zero in Hle, Hall. simpl in Hall.
  split; [exact Hle|]. split; [exact Hall|].
  intros H3 Hfail. rewrite H3 in Hall. exact (Hall Hfail).
Qed.

Lemma downloadWithRetry_attempts_witness :
  download_attempts
    (added empty_world
       (snd (downloadWithRetry example_config always_failing_site 0 "https://x/y" "/data/d"
                               0 empty_world))) = 4
  /\ fst (downloadWithRetry example_config always_failing_site 0 "https://x/y" "/data/d"
                            0 empty_world)
     = Throw (External "Timeout 30000ms exceeded on attempt 3").
Proof.
  pose proof (downloadWithRetry_attempts example_config always_failing_site 0
                "https://x/y" "/data/d" empty_world) as (_ & _ & H).
  destruct (H eq_refl (fun n => ex_intro _ _ eq_refl)) as (Hn & e & He & Hr).
  split; [exact Hn|]. rewrite Hr. injection He as <-. reflexivity.
Defined.

(** C2, as the claim has it, fails: with [MAX_RETRIES = -1] one attempt is
    made, which is more than [1 + MAX_RETRIES = 0]. *)
Lemma downloadWithRetry_negative_limit :
  ~ (Z.of_nat
       (download_attempts
          (added empty_world
             (snd (downloadWithRetry negative_retries_config always_failing_site 0
                                     "https://x/y" "/data/d" 0 empty_world))))
     <= 1 + (-1))%Z.
Proof. vm_compute. intros H. apply H. reflexivity. Qed.

(** ** Growth of the trace *)

Lemma grows_refl P w : grows P w w.
Proof. exists []. rewrite app_nil_r. auto. Qed.

Lemma grows_trans P w1 w2 w3 : grows P w1 w2 -> grows P w2 w3 -> grows P w1 w3.
Proof.
  intros (e1 & H1 & F1) (e2 & H2 & F2). exists (e1 ++ e2).
  rewrite H2, H1, app_assoc. split; [reflexivity|]. apply Forall_app. auto.
Qed.

Lemma grows_mono (P Q : event -> Prop) w w' :
  (forall e, P e -> Q e) -> grows P w w' -> grows Q w w'.
Proof.
  intros HPQ (evs & H & F). exists evs. split; [exact H|].
  eapply Forall_impl; eauto.
Qed.

Lemma grows_log (P : event -> Prop) e w : P e -> grows P w (log_event e w).
Proof. intros He. exists [e]. split; [reflexivity|]. constructor; auto. Qed.

Lemma grows_same_trace P w w' : trace w' = trace w -> grows P w w'.
Proof. intros H. exists []. rewrite app_nil_r. auto. Qed.

Lemma grows_added P w w' : grows P w w' -> Forall P (added w w').
Proof. intros (evs & H & F). rewrite (added_app _ _ _ H). exact F. Qed.

Lemma keeps_refl w : keeps w w.
Proof. repeat split. Qed.

Lemma keeps_trans w1 w2 w3 : keeps w1 w2 -> keeps w2 w3 -> keeps w1 w3.
Proof.
  intros (H1 & H2 & H3 & H4) (H5 & H6 & H7 & H8). unfold keeps.
  rewrite H5, H6, H7, H8. auto.
Qed.

Lemma related_refl F w : related F w w.
Proof. destruct F; [apply grows_refl|apply keeps_refl|repeat split|reflexivity]. Qed.

Lemma related_trans F w1 w2 w3 : related F w1 w2 -> related F w2 w3 -> related F w1 w3.
Proof.
  destruct F; [apply grows_trans|apply keeps_trans| |]; simpl.
  - intros (H1 & H2 & H3) (H4 & H5 & H6). unfold keeps_handles.
    rewrite H4, H5, H6. auto.
  - unfold keeps_files. congruence.
Qed.

Section Steady.

Context {S : Type} (at_world : S -> world) (F : frame).

Lemma steady_ret {A} (a : A) : steady at_world F (ret a).
Proof. intros s. apply related_refl. Qed.

Lemma steady_throw {A} e : steady at_world F (@throw S A e).
Proof. intros s. apply related_refl. Qed.

Lemma steady_lift {A} (r : result A) : steady at_world F (lift r).
Proof. intros s. apply related_refl. Qed.

Lemma steady_fail_if o : steady at_world F (fail_if o).
Proof. destruct o; [apply steady_throw|apply steady_ret]. Qed.

Lemma steady_bind {A B} (m : M S A) (k : A -> M S B) :
  steady at_world F m -> (forall a, steady at_world F (k a)) ->
  steady at_world F (bind m k).
Proof.
  intros Hm Hk s. unfold bind. specialize (Hm s).
  destruct (m s) as [[a|e] s1]; [|exact Hm].
  eapply related_trans; [exact Hm|apply Hk].
Qed.

Lemma steady_try_catch {A} (m : M S A) (h : exn -> M S A) :
  steady at_world F m -> (forall e, steady at_world F (h e)) ->
  steady at_world F (try_catch m h).
Proof.
  intros Hm Hh s. unfold try_catch. specialize (Hm s).
  destruct (m s) as [[a|e] s1]; [exact Hm|].
  eapply related_trans; [exact Hm|apply Hh].
Qed.

Lemma steady_ignore_errors (m : M S unit) :
  steady at_world F m -> steady at_world F (ignore_errors m).
Proof. intros Hm. apply steady_try_catch; [exact Hm|intros e; apply steady_ret]. Qed.

Lemma steady_try_finally {A} (m : M S A) (f : M S unit) :
  steady at_world F m -> steady at_world F f -> steady at_world F (try_finally m f).
Proof.
  intros Hm Hf s. unfold try_finally. specialize (Hm s).
  destruct (m s) as [r s1]. specialize (Hf s1).
  destruct (f s1) as [[u|e] s2]; eapply related_trans; eauto.
Qed.

Lemma steady_when c (m : M S unit) :
  steady at_world F m -> steady at_world F (when c m).
Proof. intros Hm. destruct c; [exact Hm|apply steady_ret]. Qed.

Lemma steady_for_each {A} (xs : list A) (f : A -> M S unit) :
  (forall x, steady at_world F (f x)) -> steady at_world F (for_each xs f).
Proof.
  intros Hf. induction xs as [|x xs IH]; simpl; [apply steady_ret|].
  apply steady_bind; [apply Hf|intros _; exact IH].
Qed.

End Steady.

Lemma adds_mono {S A} (at_world : S -> world) (P Q : event -> Prop) (m : M S A) :
  (forall e, P e -> Q e) -> adds at_world P m -> adds at_world Q m.
Proof. intros HPQ Hm s. simpl. eapply grows_mono; [exact HPQ|apply Hm]. Qed.

Section SteadyCalls.

Context (F : frame).

Lemma steady_emit e : (forall w, related F w (log_event e w)) -> steady io_world F (emit e).
Proof. intros He w. apply He. Qed.

Lemma steady_get_world : steady io_world F get_world.
Proof. intros w. apply related_refl. Qed.

Lemma steady_modify_world f : (forall w, related F w (f w)) -> steady io_world F (modify_world f).
Proof. intros Hf w. apply Hf. Qed.

Lemma steady_on_world {A} (m : IO A) :
  steady io_world F m -> steady run_world F (on_world m).
Proof.
  intros Hm [l w]. unfold on_world, run_world. simpl. specialize (Hm w).
  destruct (m w) as [r w']. exact Hm.
Qed.

Lemma steady_get_locals : steady run_world F get_locals.
Proof. intros s. apply related_refl. Qed.

Lemma steady_modify_locals f : steady run_world F (modify_locals f).
Proof. intros s. apply related_refl. Qed.

End SteadyCalls.

Lemma keeps_log e w : keeps w (log_event e w).
Proof. repeat split. Qed.

Lemma keeps_set_browser b n w : keeps w (set_browser b n w).
Proof. repeat split. Qed.

Create HintDb steady discriminated.
#[local] Hint Resolve steady_ret steady_throw steady_lift steady_fail_if steady_get_world
  steady_get_locals steady_modify_locals : steady.

(** The side condition of a call that changes the world directly. *)
Ltac steady_side :=
  intros ?; simpl related;
  first
    [ apply grows_log; repeat split; reflexivity
    | apply grows_same_trace; first [reflexivity | apply trace_store]
    | apply keeps_log
    | apply keeps_set_browser
    | solve [repeat split] ].

Ltac steady_step :=
  first
    [ solve [auto with steady]
    | progress cbv zeta
    | apply steady_bind; [|intros ?]
    | apply steady_ignore_errors
    | apply steady_try_catch; [|intros ?]
    | apply steady_when
    | apply steady_for_each; intros ?
    | apply steady_on_world
    | apply steady_emit; steady_side
    | apply steady_modify_world; steady_side
    | match goal with
      | |- steady _ _ (match ?x with _ => _ end) => destruct x
      | |- steady _ _ (if ?x then _ else _) => destruct x
      end ].

Ltac steady_auto := repeat steady_step.

Section Quiet.

Context (cfg : config) (out : outside).

Lemma fs_mkdir_quiet dir : adds io_world quiet (fs_mkdir out dir).
Proof.
  unfold fs_mkdir. steady_auto. apply steady_modify_world. intros w.
  apply grows_same_trace. destruct (fs w !! dir); reflexivity.
Qed.

Lemma fs_unlink_quiet p : adds io_world quiet (fs_unlink out p).
Proof. unfold fs_unlink. steady_auto. Qed.

Lemma fs_readdir_quiet dir : adds io_world quiet (fs_readdir dir).
Proof. unfold fs_readdir. steady_auto. Qed.

Lemma fs_rmdir_quiet dir : adds io_world quiet (fs_rmdir dir).
Proof. unfold fs_rmdir. steady_auto. Qed.

Lemma fs_readFile_quiet p : adds io_world quiet (fs_readFile out p).
Proof. unfold fs_readFile. steady_auto. Qed.

Lemma chromium_launch_quiet : adds io_world quiet (chromium_launch out).
Proof. unfold chromium_launch. steady_auto. Qed.

Lemma browser_newContext_quiet dir : adds io_world quiet (browser_newContext out dir).
Proof. unfold browser_newContext. steady_auto. Qed.

Lemma context_newPage_quiet c : adds io_world quiet (context_newPage out c).
Proof. unfold context_newPage. steady_auto. Qed.

Lemma page_close_quiet id : adds io_world quiet (page_close out id).
Proof. unfold page_close. steady_auto. Qed.

Lemma context_close_quiet id : adds io_world quiet (context_close out id).
Proof. unfold context_close. steady_auto. Qed.

Lemma initBrowser_quiet : adds io_world quiet (initBrowser out).
Proof.
  unfold initBrowser, initBrowser_enter, initBrowser_leave.
  pose proof chromium_launch_quiet. steady_auto.
Qed.

Lemma fetchMissiveMessage_quiet id : adds io_world quiet (fetchMissiveMessage cfg out id).
Proof. unfold fetchMissiveMessage. steady_auto. Qed.

Lemma download_attempt_quiet pg url dir n :
  adds io_world quiet (download_attempt out pg url dir n).
Proof. unfold download_attempt. steady_auto. Qed.

Lemma before_retry_quiet pg n : adds io_world quiet (before_retry out pg n).
Proof. unfold before_retry, sleep, page_reload. steady_auto. Qed.

Lemma downloadWithRetry_quiet pg url dir retries :
  adds io_world quiet (downloadWithRetry cfg out pg url dir retries).
Proof.
  intros w. remember (budget (MAX_RETRIES cfg) retries) as k eqn:Hk.
  revert retries w Hk.
  induction (lt_wf k) as [k _ IH]. intros retries w ->.
  rewrite downloadWithRetry_step.
  pose proof (download_attempt_quiet pg url dir retries w) as H1.
  destruct (download_attempt out pg url dir retries w) as [[d|error] w1]; [exact H1|].
  destruct (num_lt _ _) eqn:Hlt; [|exact H1].
  pose proof (before_retry_quiet pg retries w1) as H2.
  destruct (before_retry out pg retries w1) as [[u|e] w2];
    [|eapply grows_trans; eauto].
  eapply grows_trans; [exact H1|]. eapply grows_trans; [exact H2|].
  eapply IH; [|reflexivity]. rewrite (budget_step _ _ Hlt). lia.
Qed.

Lemma release_with_quiet l : adds io_world quiet (release_with out l).
Proof.
  unfold release_with.
  pose proof fs_unlink_quiet. pose proof fs_readdir_quiet. pose proof fs_rmdir_quiet.
  pose proof page_close_quiet. pose proof context_close_quiet.
  steady_auto.
Qed.

End Quiet.

Lemma relay_attempts_app a b :
  relay_attempts (a ++ b) = relay_attempts a + relay_attempts b.
Proof. unfold relay_attempts. rewrite List.filter_app, length_app. reflexivity. Qed.

Lemma loop_budget_step limit n :
  num_le (Fin (Z.of_nat n)) limit = true ->
  budget (num_succ limit) n = S (budget (num_succ limit) (S n)).
Proof.
  destruct limit as [m|]; simpl; [|discriminate].
  intros H%Z.leb_le. lia.
Qed.

Lemma loop_budget_done limit n :
  num_le (Fin (Z.of_nat n)) limit = false -> budget (num_succ limit) n = 0.
Proof.
  destruct limit as [m|]; simpl; [|reflexivity].
  intros H%Z.leb_gt. lia.
Qed.

Lemma loop_budget_last limit n :
  num_lt limit (Fin (Z.of_nat (S n))) = true -> budget (num_succ limit) (S n) = 0.
Proof.
  destruct limit as [m|]; simpl; [|discriminate].
  intros H%Z.ltb_lt. lia.
Qed.

Lemma loop_budget_more limit n :
  num_le (Fin (Z.of_nat n)) limit = true ->
  num_lt limit (Fin (Z.of_nat (S n))) = false ->
  0 < budget (num_succ limit) (S n).
Proof.
  destruct limit as [m|]; simpl; [|discriminate].
  intros H1%Z.leb_le H2%Z.ltb_ge. lia.
Qed.

Lemma axios_post_run out r n l w :
  axios_post out r n (l, w)
  = (post_result out n (webhookUrl_var l) (formData r),
     (l, log_event (HttpPost (webhookUrl_var l) (formData r)) w)).
Proof. reflexivity. Qed.

Lemma sleep_run d l w :
  on_world (sleep d) (l, w) = (Ok tt, (l, log_event (Sleep d) w)).
Proof. reflexivity. Qed.

(** From pass [n] on, the loop leaves the variables as they are, posts
    to the current [webhookUrl] only, at most as often as its budget
    allows, and exactly that often when every post fails; it ends with
    the status of a post that went through or with the relay error. *)
Lemma webhook_loop_from cfg out r k :
  forall n l w,
    budget (num_succ (MAX_RETRIES cfg)) n <= k ->
    fst (snd (webhook_loop cfg out r n (l, w))) = l
    /\ exists evs,
         trace (snd (snd (webhook_loop cfg out r n (l, w)))) = trace w ++ evs
         /\ Forall (relay_event (webhookUrl_var l) r) evs
         /\ relay_attempts evs <= budget (num_succ (MAX_RETRIES cfg)) n
         /\ (forall status,
               fst (webhook_loop cfg out r n (l, w)) = Ok (Some status) ->
               exists i, post_result out i (webhookUrl_var l) (formData r) = Ok status)
         /\ ((forall i u f, exists e, post_result out i u f = Throw e) ->
             relay_attempts evs = budget (num_succ (MAX_RETRIES cfg)) n
             /\ (0 < budget (num_succ (MAX_RETRIES cfg)) n ->
                 exists e, fst (webhook_loop cfg out r n (l, w))
                           = Throw (relay_failed cfg e))).
Proof.
  induction k as [k IH] using lt_wf_ind. intros n l w Hk.
  rewrite webhook_loop_step.
  destruct (num_le _ _) eqn:Hle.
  2:{ rewrite (loop_budget_done _ _ Hle). simpl. split; [reflexivity|].
      exists []. rewrite app_nil_r. repeat split; auto; try discriminate; lia. }
  pose proof (loop_budget_step _ _ Hle) as Hb. rewrite Hb.
  rewrite axios_post_run.
  set (post := HttpPost (webhookUrl_var l) (formData r)).
  destruct (post_result out n (webhookUrl_var l) (formData r)) as [status|err] eqn:Hpost.
  { simpl. split; [reflexivity|]. exists [post].
    split; [reflexivity|]. split; [repeat constructor; right; reflexivity|].
    split; [cbn; lia|]. split.
    - intros s [= <-]. eauto.
    - intros Hfail. destruct (Hfail n (webhookUrl_var l) (formData r)) as [e He].
      congruence. }
  destruct (num_lt _ _) eqn:Hlast.
  { rewrite (loop_budget_last _ _ Hlast). simpl. split; [reflexivity|].
    exists [post]. split; [reflexivity|]. split; [repeat constructor; right; reflexivity|].
    split; [cbn; lia|]. split; [discriminate|].
    intros _. split; [reflexivity|]. eauto. }
  rewrite sleep_run.
  destruct (IH (budget (num_succ (MAX_RETRIES cfg)) (S n)) ltac:(lia) (S n) l
               (log_event (Sleep RETRY_DELAY) (log_event post w)) (Nat.le_refl _))
    as (Hl & evs & Htr & Hev & Hcount & Hok & Hall).
  split; [exact Hl|].
  exists (post :: Sleep RETRY_DELAY :: evs).
  split; [rewrite Htr; simpl; rewrite <- !app_assoc; reflexivity|].
  split; [constructor; [right; reflexivity|constructor; [left; reflexivity|exact Hev]]|].
  change (relay_attempts (post :: Sleep RETRY_DELAY :: evs)) with (S (relay_attempts evs)).
  split; [lia|]. split; [exact Hok|].
  intros Hfail. destruct (Hall Hfail) as [Hn Hthrow].
  split; [lia|]. intros _. apply Hthrow. eapply loop_budget_more; eauto.
Qed.

(** ** What a computation returns *)

Lemma returns_ret {S A} (Q : A -> Prop) (a : A) : Q a -> returns Q (@ret S A a).
Proof. intros HQ s a' [= <-]. exact HQ. Qed.

Lemma returns_bind {S A B} (Q : B -> Prop) (m : M S A) (k : A -> M S B) :
  (forall a, returns Q (k a)) -> returns Q (bind m k).
Proof.
  intros Hk s b. unfold bind. destruct (m s) as [[a|e] s1]; [apply Hk|discriminate].
Qed.

Lemma returns_bind_from {S A B} (P : A -> Prop) (Q : B -> Prop)
      (m : M S A) (k : A -> M S B) :
  returns P m -> (forall a, P a -> returns Q (k a)) -> returns Q (bind m k).
Proof.
  intros Hm Hk s b. unfold bind. specialize (Hm s).
  destruct (m s) as [[a|e] s1]; [|discriminate].
  apply Hk. apply Hm. reflexivity.
Qed.

Lemma returns_on_world {A} (Q : A -> Prop) (m : IO A) :
  returns Q m -> returns Q (on_world m).
Proof.
  intros Hm [l w] a. unfold on_world. simpl. specialize (Hm w).
  destruct (m w) as [r w1]. exact (Hm a).
Qed.

Section Runs.

Context (cfg : config) (out : outside).

Lemma quiet_routed e : quiet e -> routed cfg out e.
Proof. intros [Hr Hp]. destruct e; simpl in *; try exact I; discriminate. Qed.

Lemma resolve_and_download_quiet rd mid cid :
  adds run_world quiet (resolve_and_download cfg out rd mid cid).
Proof.
  unfold resolve_and_download.
  pose proof (fetchMissiveMessage_quiet cfg out). pose proof (initBrowser_quiet out).
  pose proof (fs_mkdir_quiet out). pose proof (browser_newContext_quiet out).
  pose proof (context_newPage_quiet out). pose proof (downloadWithRetry_quiet cfg out).
  steady_auto.
Qed.

(** What [downloadWithRetry] returns is what one of the attempts
    downloaded. *)
Lemma downloadWithRetry_result pg url dir retries w res :
  fst (downloadWithRetry cfg out pg url dir retries w) = Ok res ->
  exists n d, download_result out n = Ok d
              /\ res = {| result_downloadPath := (dir, stored_as d);
                          result_fileName := suggestedFilename d |}.
Proof.
  remember (budget (MAX_RETRIES cfg) retries) as k eqn:Hk.
  revert retries w Hk. induction (lt_wf k) as [k _ IH]. intros retries w ->.
  rewrite downloadWithRetry_step.
  destruct (download_attempt out pg url dir retries w) as [[d|error] w1] eqn:Hrun.
  - simpl. intros [= <-]. unfold download_attempt, bind, emit, modify_world, ret, throw in Hrun.
    destruct (download_result out retries) as [d'|e] eqn:Hd; simpl in Hrun;
      [|discriminate].
    injection Hrun as <- _. eauto.
  - destruct (num_lt _ _) eqn:Hlt; [|discriminate].
    destruct (before_retry out pg retries w1) as [[u|e] w2]; [|discriminate].
    eapply IH; [|reflexivity]. rewrite (budget_step _ _ Hlt). lia.
Qed.

Lemma resolve_and_download_result rd mid cid :
  returns (fun got => exists n d, download_result out n = Ok d
                                  /\ result_fileName (fst got) = suggestedFilename d)
          (resolve_and_download cfg out rd mid cid).
Proof.
  unfold resolve_and_download.
  repeat first
    [ eapply returns_bind_from;
      [apply returns_on_world; intros w res Hres;
       exact (downloadWithRetry_result _ _ _ _ _ _ Hres)
      |intros res (n & d & Hd & ->)]
    | progress cbv zeta
    | apply returns_bind; intros ? ].
  apply returns_ret. simpl. eauto.
Qed.

Lemma route_and_relay_routed res mid cid :
  (exists n d, download_result out n = Ok d
               /\ result_fileName res = suggestedFilename d) ->
  adds run_world (routed cfg out) (route_and_relay cfg out res mid cid).
Proof.
  intros Hfrom [l w]. unfold route_and_relay, run_world, bind, lift. simpl.
  destruct (determineWebhookConfig cfg (result_fileName res)) as [c|e] eqn:Hc;
    [|apply grows_refl].
  unfold modify_locals. simpl.
  pose proof (fs_readFile_quiet out (result_downloadPath res) w) as Hread.
  unfold on_world at 1. simpl.
  destruct (fs_readFile out (result_downloadPath res) w) as [[buffer|e] w1];
    simpl in *; [|eapply grows_mono; [apply quiet_routed|exact Hread]].
  eapply grows_trans; [eapply grows_mono; [apply quiet_routed|exact Hread]|].
  match goal with
  | |- context [webhook_loop cfg out ?r 0 (?l1, w1)] =>
      destruct (webhook_loop_from cfg out r _ 0 l1 w1 (Nat.le_refl _))
        as (_ & evs & Htr & Hev & _);
      destruct (webhook_loop cfg out r 0 (l1, w1)) as [[[status|]|e] [l2 w2]]
  end; simpl in *;
    (exists evs; split; [exact Htr|];
     eapply Forall_impl; [exact Hev|];
     intros ev [->| ->]; simpl; [exact I|eauto]).
Qed.

Lemma pipeline_routed rd mid cid :
  adds run_world (routed cfg out) (pipeline cfg out rd mid cid).
Proof.
  intros s. unfold pipeline, bind.
  pose proof (resolve_and_download_quiet rd mid cid s) as Hquiet.
  pose proof (resolve_and_download_result rd mid cid s) as Hres.
  destruct (resolve_and_download cfg out rd mid cid s) as [[got|e] s1]; simpl in *.
  - eapply grows_trans; [eapply grows_mono; [apply quiet_routed|exact Hquiet]|].
    apply route_and_relay_routed. apply Hres. reflexivity.
  - eapply grows_mono; [apply quiet_routed|exact Hquiet].
Qed.

Lemma release_quiet : adds run_world quiet (release out).
Proof.
  unfold release. apply steady_bind; [apply steady_get_locals|].
  intros l. apply steady_on_world, release_with_quiet.
Qed.

(** A run adds routed events only. *)
Lemma processDownloadAsync_routed rd mid cid w :
  grows (routed cfg out) w (snd (processDownloadAsync cfg out rd mid cid w)).
Proof.
  unfold processDownloadAsync.
  assert (adds run_world (routed cfg out)
            (try_finally (ignore_errors (pipeline cfg out rd mid cid)) (release out)))
    as H.
  { apply steady_try_finally; [apply steady_ignore_errors, pipeline_routed|].
    eapply adds_mono; [apply quiet_routed|apply release_quiet]. }
  specialize (H (no_locals, w)). unfold run_world in H.
  destruct (try_finally _ _ _) as [r s]. exact H.
Qed.

End Runs.

Lemma messageId_needs_object rd :
  JS.truthy (messageId_of rd) = true -> JS.truthy rd = true.
Proof. destruct rd; simpl; try discriminate; reflexivity. Qed.

Lemma processreport_accepted cfg out body w :
  JS.truthy (messageId_of (requestData_of body)) = true ->
  processreport cfg out body w
  = snd (processDownloadAsync cfg out (requestData_of body)
           (messageId_of (requestData_of body)) (conversationId_of (requestData_of body))
           (log_event (Respond 200 (acknowledgement out (messageId_of (requestData_of body))
                                       (conversationId_of (requestData_of body)))) w)).
Proof.
  intros Hid. unfold processreport.
  rewrite (messageId_needs_object _ Hid), Hid. reflexivity.
Qed.

(** C6. When the payload holds a message identifier, the first thing the
    handler does is to send the response 200, whose content is made of the
    two identifiers of the request and of the time; everything the
    pipeline does, whatever the configuration and the outside make of it,
    comes after, and no other response is ever sent. *)
Theorem processreport_acknowledges_first (cfg : config) (out : outside)
        (body : JS.value) (w : world) :
  JS.truthy (messageId_of (requestData_of body)) = true ->
  let ack :=
    Respond 200 (acknowledgement_json (messageId_of (requestData_of body))
                                      (conversationId_of (requestData_of body))
                                      (now out)) in
  (exists evs,
      trace (processreport cfg out body w) = trace w ++ ack :: evs
      /\ Forall (fun e => is_respond e = false) evs)
  /\ (forall cfg' out',
        now out' = now out ->
        exists evs', trace (processreport cfg' out' body w) = trace w ++ ack :: evs').
Proof.
  intros Hid ack.
  assert (forall cfg0 out0,
             now out0 = now out ->
             exists evs,
               trace (processreport cfg0 out0 body w) = trace w ++ ack :: evs
               /\ Forall (fun e => is_respond e = false) evs) as Hrun.
  { intros cfg0 out0 Hnow. rewrite (processreport_accepted _ _ _ _ Hid).
    destruct (processDownloadAsync_routed cfg0 out0 (requestData_of body)
                (messageId_of (requestData_of body))
                (conversationId_of (requestData_of body))
                (log_event (Respond 200 (acknowledgement out0
                                           (messageId_of (requestData_of body))
                                           (conversationId_of (requestData_of body)))) w))
      as (evs & Htr & Hev).
    exists evs. split.
    - rewrite Htr. simpl. rewrite <- app_assoc. unfold ack, acknowledgement,
        acknowledgement_json. rewrite Hnow. reflexivity.
    - eapply Forall_impl; [exact Hev|]. intros e He. destruct e; simpl in *; tauto. }
  split; [apply Hrun; reflexivity|].
  intros cfg' out' Hnow. destruct (Hrun cfg' out' Hnow) as (evs & H & _). eauto.
Qed.

Lemma processreport_acknowledges_first_witness :
  exists evs,
    trace (processreport example_config refusing_webhook (JS.Arr [example_request])
                         empty_world)
    = Respond 200 (acknowledgement_json (JS.String "m1") JS.Undefined
                                        "2024-01-01T00:00:00.000Z") :: evs.
Proof.
  destruct (processreport_acknowledges_first example_config refusing_webhook
              (JS.Arr [example_request]) empty_world eq_refl) as [(evs & H & _) _].
  exists evs. exact H.
Defined.

(** C10. The handler works on the first element of an array payload and
    ignores the others; it takes the message identifier from
    [latest_message.id] when that is truthy and else from
    [body.latest_message.id], the conversation identifier likewise from
    [conversation.id] or [body.conversation.id]; a payload without a
    truthy message identifier at either place gets the response 400 and
    nothing else happens, as does a payload that is empty. *)
Theorem processreport_payload (cfg : config) (out : outside) (w : world) :
  (forall x rest rest',
      requestData_of (JS.Arr (x :: rest)) = x
      /\ processreport cfg out (JS.Arr (x :: rest)) w
         = processreport cfg out (JS.Arr (x :: rest')) w)
  /\ (forall x rest,
        JS.isArray x = false ->
        processreport cfg out (JS.Arr (x :: rest)) w = processreport cfg out x w)
  /\ (forall rd,
        let direct := JS.get_opt (JS.get_opt rd "latest_message") "id" in
        let nested :=
          JS.get_opt (JS.get_opt (JS.get_opt rd "body") "latest_message") "id" in
        (JS.truthy direct = true -> messageId_of rd = direct)
        /\ (JS.truthy direct = false -> JS.truthy nested = true ->
            messageId_of rd = nested)
        /\ (JS.truthy direct = false -> JS.truthy nested = false ->
            JS.truthy (messageId_of rd) = false))
  /\ (forall rd,
        let direct := JS.get_opt (JS.get_opt rd "conversation") "id" in
        let nested :=
          JS.get_opt (JS.get_opt (JS.get_opt rd "body") "conversation") "id" in
        (JS.truthy direct = true -> conversationId_of rd = direct)
        /\ (JS.truthy direct = false -> JS.truthy nested = true ->
            conversationId_of rd = nested))
  /\ (forall body,
        JS.truthy (requestData_of body) = true ->
        JS.truthy (messageId_of (requestData_of body)) = false ->
        processreport cfg out body w
        = log_event (Respond 400 (json_error "Missing message ID"
                                             "Could not find message ID in request")) w)
  /\ (forall body,
        JS.truthy (requestData_of body) = false ->
        processreport cfg out body w
        = log_event (Respond 400 (json_error "Invalid request format"
                                             "Request body is empty or invalid")) w).
Proof.
  split; [|split; [|split; [|split; [|split]]]].
  - intros x rest rest'. split; reflexivity.
  - intros x rest Hx. unfold processreport. simpl requestData_of.
    destruct x; try reflexivity. discriminate.
  - intros rd direct nested. unfold messageId_of. fold direct. fold nested.
    repeat split.
    + intros ->. reflexivity.
    + intros -> ->. reflexivity.
    + intros -> ->. reflexivity.
  - intros rd direct nested. unfold conversationId_of. fold direct. fold nested.
    split.
    + intros ->. reflexivity.
    + intros -> ->. reflexivity.
  - intros body Hrd Hid. unfold processreport. rewrite Hrd, Hid. reflexivity.
  - intros body Hrd. unfold processreport. rewrite Hrd. reflexivity.
Qed.

Lemma processreport_payload_witness :
  processreport example_config refusing_webhook
    (JS.Arr [JS.Obj [("conversation", JS.Obj [("id", JS.String "c1")])]; example_request])
    empty_world
  = log_event (Respond 400 (json_error "Missing message ID"
                                       "Could not find message ID in request"))
              empty_world.
Proof.
  destruct (processreport_payload example_config refusing_webhook empty_world)
    as (_ & _ & _ & _ & H & _).
  exact (H (JS.Arr [JS.Obj [("conversation", JS.Obj [("id", JS.String "c1")])];
                    example_request]) eq_refl eq_refl).
Defined.

(** C5, where the code departs from the claim: with [MAX_RETRIES = 3] and
    a webhook that refuses every post, four posts are made and the error
    thrown says [after 3 attempts]. *)
Theorem relay_error_names_MAX_RETRIES :
  relay_attempts
    (trace (snd (snd (pipeline example_config refusing_webhook example_request
                               (JS.String "m1") JS.Undefined (no_locals, empty_world)))))
  = 4
  /\ fst (pipeline example_config refusing_webhook example_request
                   (JS.String "m1") JS.Undefined (no_locals, empty_world))
     = Throw (Error "Failed to send to webhook after 3 attempts: Request failed with status code 503").
Proof. vm_compute. split; reflexivity. Qed.

(** ** Runs that differ by [webhookUrl] *)












Section Agree.

Context (cfg : config) (out : outside).







End Agree.



Import Interleaving.

(** C8, where the code departs from the claim: two callers that both
    enter [initBrowser] before either launch resolves each launch an
    engine and get different ones; the first is no longer referenced.
    Callers that run one after the other share a single engine. *)
Theorem initBrowser_concurrent_calls :
  (let r := run_schedule friendly_outside [0; 1; 0; 1] [Calling; Calling] empty_world in
   fst r = [Returned (Some 0); Returned (Some 1)]
   /\ engines (snd r) = 2
   /\ globalBrowser (snd r) = Some 1)
  /\ (let r := run_schedule friendly_outside [0; 0; 1] [Calling; Calling] empty_world in
      fst r = [Returned (Some 0); Returned (Some 0)]
      /\ engines (snd r) = 1).
Proof. vm_compute. repeat split; reflexivity. Qed.

(** Whatever the outside and the world, if no engine exists and launches
    succeed, the first of the two schedules launches two engines. *)
Lemma initBrowser_race (out : outside) (w : world) :
  launch_error out = None -> globalBrowser w = None ->
  let r := run_schedule out [0; 1; 0; 1] [Calling; Calling] w in
  fst r = [Returned (Some (engines w)); Returned (Some (S (engines w)))]
  /\ engines (snd r) = 2 + engines w.
Proof.
  intros Hl Hg. unfold run_schedule. simpl.
  unfold step, initBrowser_enter, initBrowser_leave, chromium_launch, bind, get_world,
    emit, modify_world, fail_if, ret. simpl.
  repeat (rewrite ?Hg, ?Hl; simpl). split; reflexivity.
Qed.

(** ** The working area *)

Section Area.

Context (out : outside) (dir : string) (m : gmap string (list (string * string))).

Hypothesis unlink_ok : forall p, unlink_error out p = None.





End Area.

(** ** Handles *)



Lemma bind_assoc {S A B C} (m : M S A) (k : A -> M S B) (k' : B -> M S C) s :
  bind (bind m k) k' s = bind m (fun a => bind (k a) k') s.
Proof. unfold bind. destruct (m s) as [[a|e] s1]; reflexivity. Qed.

Lemma ignore_errors_ok {S} (m : M S unit) s : fst (ignore_errors m s) = Ok tt.
Proof.
  unfold ignore_errors, try_catch. destruct (m s) as [[[]|e] s1]; reflexivity.
Qed.

Section Release.

Context (out : outside) (dir : string) (m : gmap string (list (string * string))).

Hypothesis fresh_dir : m !! dir = None.

Lemma fs_unlink_handles p : steady io_world KeepingHandles (fs_unlink out p).
Proof. unfold fs_unlink. steady_auto. Qed.

Lemma fs_readdir_handles d : steady io_world KeepingHandles (fs_readdir d).
Proof. unfold fs_readdir. steady_auto. Qed.

Lemma fs_rmdir_handles d : steady io_world KeepingHandles (fs_rmdir d).
Proof. unfold fs_rmdir. steady_auto. Qed.



Lemma release_with_halves l w :
  release_with out l w = bind (release_files out l) (fun _ => release_handles out l) w.
Proof. symmetry. apply (bind_assoc _ (fun _ => _) (fun _ => release_handles out l)). Qed.

Lemma release_files_ok l w : fst (release_files out l w) = Ok tt.
Proof.
  unfold release_files, bind.
  destruct (downloadPath l) as [p|].
  - pose proof (ignore_errors_ok (fs_unlink out p) w) as H.
    destruct (ignore_errors (fs_unlink out p) w) as [[[]|e] w1]; [|discriminate].
    destruct (tempDir l); [apply ignore_errors_ok|reflexivity].
  - simpl. destruct (tempDir l); [apply ignore_errors_ok|reflexivity].
Qed.

Lemma release_files_handles l : steady io_world KeepingHandles (release_files out l).
Proof.
  unfold release_files.
  pose proof fs_unlink_handles. pose proof fs_readdir_handles.
  pose proof fs_rmdir_handles. steady_auto.
Qed.









End Release.

(** ** Triples *)

Lemma hoare_bind {S A B} (P : S -> Prop) (m : M S A) (k : A -> M S B)
      (Q' : A -> S -> Prop) (Q : B -> S -> Prop) (E : S -> Prop) :
  hoare P m Q' E -> (forall a, hoare (Q' a) (k a) Q E) -> hoare P (bind m k) Q E.
Proof.
  intros Hm Hk s HP. unfold bind. specialize (Hm s HP).
  destruct (m s) as [[a|e] s1]; [apply Hk; exact Hm|exact Hm].
Qed.

Lemma hoare_ret {S A} (P : S -> Prop) (a : A) (Q : A -> S -> Prop) (E : S -> Prop) :
  (forall s, P s -> Q a s) -> hoare P (ret a) Q E.
Proof. intros H s HP. apply H. exact HP. Qed.

Lemma hoare_throw {S A} (P : S -> Prop) e (Q : A -> S -> Prop) (E : S -> Prop) :
  (forall s, P s -> E s) -> hoare P (throw e) Q E.
Proof. intros H s HP. apply H. exact HP. Qed.

Lemma hoare_lift {S A} (P : S -> Prop) (r : result A) (E : S -> Prop) :
  (forall s, P s -> E s) -> hoare P (lift r) (fun _ => P) E.
Proof. intros H s HP. unfold lift. destruct r; [exact HP|apply H; exact HP]. Qed.

Lemma hoare_post {S A} (P : S -> Prop) (m : M S A) (Q Q' : A -> S -> Prop)
      (E E' : S -> Prop) :
  hoare P m Q E -> (forall a s, Q a s -> Q' a s) -> (forall s, E s -> E' s) ->
  hoare P m Q' E'.
Proof.
  intros Hm HQ HE s HP. specialize (Hm s HP).
  destruct (m s) as [[a|e] s1]; auto.
Qed.



Section Stages.

Context (cfg : config) (out : outside) (w0 : world) (dir : string).

Hypothesis fresh_dir : fs w0 !! dir = None.
Hypothesis handles : handles_ok w0.













Lemma hoare_set_downloadPath entries cw pw name E :
  hoare (stage w0 dir (Made entries) cw pw cw pw None)
        (modify_locals (set_downloadPath (dir, name)))
        (fun _ => stage w0 dir (Made entries) cw pw cw pw (Some name)) E.
Proof. intros [l w] Hs. unfold stage in *. simpl in *. tauto. Qed.

End Stages.

(** ** Calls that keep files and handles *)

Section Keeps.

Context (cfg : config) (out : outside).


Lemma initBrowser_keeps : steady io_world Keeping (initBrowser out).
Proof.
  unfold initBrowser, initBrowser_enter, initBrowser_leave, chromium_launch.
  steady_auto.
Qed.




End Keeps.

(** ** The stages of a run *)

Section Run.

Context (cfg : config) (out : outside) (w0 : world).

Abbreviation dir := (path_join (PERSISTENT_DIR cfg) (dir_name out)).

Hypothesis fresh_dir : fs w0 !! dir = None.
Hypothesis handles : handles_ok w0.








End Run.

(** ** Release *)








Section Released.

Context (cfg : config) (out : outside).

Lemma processDownloadAsync_release rd mid cid w :
  processDownloadAsync cfg out rd mid cid w
  = release_with out (fst (snd (pipeline cfg out rd mid cid (no_locals, w))))
                 (snd (snd (pipeline cfg out rd mid cid (no_locals, w)))).
Proof.
  unfold processDownloadAsync, try_finally, ignore_errors, try_catch, release, bind,
    get_locals, on_world, ret.
  destruct (pipeline cfg out rd mid cid (no_locals, w)) as [[[]|e] [l1 w1]]; simpl;
    destruct (release_with out l1 w1) as [[[]|e'] w2]; reflexivity.
Qed.


End Released.




Lemma stays_on_world {A} (R : world -> world -> Prop) (m : IO A) :
  stays io_world R m -> stays run_world R (on_world m).
Proof.
  intros H [l w]. unfold on_world, run_world. simpl.
  specialize (H w). unfold io_world in H. destruct (m w). exact H.
Qed.

Lemma stays_emit (R : world -> world -> Prop) e :
  (forall w, R w (log_event e w)) -> stays io_world R (emit e).
Proof. intros H w. apply H. Qed.

Lemma stays_modify_world (R : world -> world -> Prop) f :
  (forall w, R w (f w)) -> stays io_world R (modify_world f).
Proof. intros H w. apply H. Qed.

Section Stays.

Context {S : Type} (at_world : S -> world) (R : world -> world -> Prop).

Hypothesis R_order : preorder R.

Lemma stays_ret {A} (a : A) : stays at_world R (ret a).
Proof. intros s. apply R_order. Qed.

Lemma stays_throw {A} e : stays at_world R (@throw S A e).
Proof. intros s. apply R_order. Qed.

Lemma stays_lift {A} (r : result A) : stays at_world R (lift r).
Proof. intros s. apply R_order. Qed.

Lemma stays_fail_if o : stays at_world R (fail_if o).
Proof. destruct o; [apply stays_throw|apply stays_ret]. Qed.

Lemma stays_bind {A B} (m : M S A) (k : A -> M S B) :
  stays at_world R m -> (forall a, stays at_world R (k a)) -> stays at_world R (bind m k).
Proof.
  intros Hm Hk s. unfold bind. specialize (Hm s).
  destruct (m s) as [[a|e] s1]; [|exact Hm].
  destruct R_order as [_ Htrans]. eapply Htrans; [exact Hm|apply Hk].
Qed.

Lemma stays_try_catch {A} (m : M S A) (h : exn -> M S A) :
  stays at_world R m -> (forall e, stays at_world R (h e)) ->
  stays at_world R (try_catch m h).
Proof.
  intros Hm Hh s. unfold try_catch. specialize (Hm s).
  destruct (m s) as [[a|e] s1]; [exact Hm|].
  destruct R_order as [_ Htrans]. eapply Htrans; [exact Hm|apply Hh].
Qed.

Lemma stays_ignore_errors (m : M S unit) :
  stays at_world R m -> stays at_world R (ignore_errors m).
Proof. intros Hm. apply stays_try_catch; [exact Hm|intros e; apply stays_ret]. Qed.

Lemma stays_try_finally {A} (m : M S A) (f : M S unit) :
  stays at_world R m -> stays at_world R f -> stays at_world R (try_finally m f).
Proof.
  intros Hm Hf s. unfold try_finally. specialize (Hm s).
  destruct (m s) as [r s1]. specialize (Hf s1).
  destruct R_order as [_ Htrans].
  destruct (f s1) as [[u|e] s2]; eapply Htrans; eauto.
Qed.

Lemma stays_when c (m : M S unit) : stays at_world R m -> stays at_world R (when c m).
Proof. intros Hm. destruct c; [exact Hm|apply stays_ret]. Qed.

Lemma stays_for_each {A} (xs : list A) (f : A -> M S unit) :
  (forall x, stays at_world R (f x)) -> stays at_world R (for_each xs f).
Proof.
  intros Hf. induction xs as [|x xs IH]; simpl; [apply stays_ret|].
  apply stays_bind; [apply Hf|intros _; exact IH].
Qed.

End Stays.

Section StaysCalls.

Context (cfg : config) (out : outside) (R : world -> world -> Prop).

Hypothesis R_order : preorder R.

Lemma stays_get_world : stays io_world R get_world.
Proof. intros w. apply R_order. Qed.

Lemma stays_get_locals : stays run_world R get_locals.
Proof. intros s. apply R_order. Qed.

Lemma stays_modify_locals f : stays run_world R (modify_locals f).
Proof. intros s. apply R_order. Qed.

(** The retries of a download stay within [R] when one attempt and the
    pause before the next do. *)
Lemma downloadWithRetry_stays pg url dir :
  (forall n, stays io_world R (download_attempt out pg url dir n)) ->
  (forall n, stays io_world R (before_retry out pg n)) ->
  forall retries, stays io_world R (downloadWithRetry cfg out pg url dir retries).
Proof.
  intros Hattempt Hpause retries w. destruct R_order as [_ Htrans].
  remember (budget (MAX_RETRIES cfg) retries) as k eqn:Hk.
  revert retries w Hk.
  induction (lt_wf k) as [k _ IH]. intros retries w ->.
  rewrite downloadWithRetry_step.
  pose proof (Hattempt retries w) as H1.
  destruct (download_attempt out pg url dir retries w) as [[d|error] w1]; [exact H1|].
  destruct (num_lt _ _) eqn:Hlt; [|exact H1].
  pose proof (Hpause retries w1) as H2.
  destruct (before_retry out pg retries w1) as [[u|e] w2];
    [|eapply Htrans; eauto].
  eapply Htrans; [exact H1|]. eapply Htrans; [exact H2|].
  eapply IH; [|reflexivity]. rewrite (budget_step _ _ Hlt). lia.
Qed.

(** The relay loop stays within [R] when a post and a pause do. *)
Lemma webhook_loop_stays r :
  (forall e w, is_post e = true \/ is_sleep e = true -> R w (log_event e w)) ->
  forall n, stays run_world R (webhook_loop cfg out r n).
Proof.
  intros Hlog n s. destruct R_order as [Hrefl Htrans].
  remember (budget (num_succ (MAX_RETRIES cfg)) n) as k eqn:Hk.
  revert n s Hk. induction (lt_wf k) as [k _ IH]. intros n [l w] ->.
  rewrite webhook_loop_step.
  destruct (num_le _ _) eqn:Hle; [|apply Hrefl].
  rewrite axios_post_run.
  destruct (post_result out n (webhookUrl_var l) (formData r)) as [status|err];
    [apply Hlog; auto|].
  destruct (num_lt _ _) eqn:Hlast; [apply Hlog; auto|].
  rewrite sleep_run.
  eapply Htrans; [|eapply IH; [|reflexivity]].
  - unfold run_world. simpl. eapply Htrans; apply Hlog; auto.
  - rewrite (loop_budget_step _ _ Hle). lia.
Qed.

End StaysCalls.

(** One step of a proof that a computation stays within a relation:
    [order] proves that the relation is a preorder, [side] that an
    update of the world is within it. *)
Ltac stays_step order side :=
  first
    [ apply stays_ret; exact order
    | apply stays_throw; exact order
    | apply stays_lift; exact order
    | apply stays_fail_if; exact order
    | apply stays_get_world; exact order
    | apply stays_get_locals; exact order
    | apply stays_modify_locals; exact order
    | progress cbv zeta
    | apply stays_bind; [exact order| |intros ?]
    | apply stays_ignore_errors; [exact order|]
    | apply stays_try_catch; [exact order| |intros ?]
    | apply stays_when; [exact order|]
    | apply stays_for_each; [exact order|intros ?]
    | apply stays_on_world
    | apply stays_emit; side
    | apply stays_modify_world; side
    | match goal with
      | |- stays _ _ (match ?x with _ => _ end) => destruct x
      | |- stays _ _ (if ?x then _ else _) => destruct x
      end ].

(** ** One browser for the runs that follow one another *)

Lemma shares_browser_order : preorder shares_browser.
Proof.
  split.
  - intros w. unfold shares_browser. destruct (globalBrowser w); [|auto].
    repeat split; auto. apply grows_refl.
  - intros w1 w2 w3. unfold shares_browser.
    destruct (globalBrowser w1) as [b|].
    + intros (Hb & He & Hg). rewrite Hb. intros (Hb' & He' & Hg').
      repeat split; [congruence|congruence|eapply grows_trans; eauto].
    + intros [[Hb He]|[Hb He]]; rewrite Hb.
      * intros [[Hb' He']|[Hb' He']]; [left|right]; split; congruence.
      * intros (Hb' & He' & _). right. split; congruence.
Qed.

(** An update of the world that leaves the browser alone and logs no
    launch. *)
Ltac browser_side :=
  let w := fresh "w" in
  intros w; unfold shares_browser, store;
  repeat match goal with
         | |- context [match fs ?x !! ?d with _ => _ end] => destruct (fs x !! d)
         end;
  (simpl; destruct (globalBrowser w);
   [ repeat split; auto;
     first [ apply grows_refl
           | apply grows_log; reflexivity
           | apply grows_same_trace; reflexivity ]
   | left; split; reflexivity ]).

Ltac browser_auto := repeat stays_step shares_browser_order browser_side.

Section Sharing.

Context (cfg : config) (out : outside).

Lemma initBrowser_shares : stays io_world shares_browser (initBrowser out).
Proof.
  intros w. unfold io_world, shares_browser, initBrowser, initBrowser_enter,
    initBrowser_leave, chromium_launch, bind, get_world, emit, modify_world, fail_if,
    ret, throw. simpl.
  destruct (globalBrowser w) as [b|] eqn:Hb; simpl.
  - rewrite Hb. repeat split. apply grows_refl.
  - destruct (launch_error out); simpl; [left|right]; auto.
Qed.

Lemma fetchMissiveMessage_shares id :
  stays io_world shares_browser (fetchMissiveMessage cfg out id).
Proof. unfold fetchMissiveMessage. browser_auto. Qed.

Lemma downloadWithRetry_shares pg url dir retries :
  stays io_world shares_browser (downloadWithRetry cfg out pg url dir retries).
Proof.
  apply downloadWithRetry_stays; [apply shares_browser_order| |]; intros n.
  - unfold download_attempt. browser_auto.
  - unfold before_retry, sleep, page_reload. browser_auto.
Qed.

Lemma webhook_loop_shares r n :
  stays run_world shares_browser (webhook_loop cfg out r n).
Proof.
  apply webhook_loop_stays; [apply shares_browser_order|].
  intros e w He. unfold shares_browser. simpl. destruct (globalBrowser w); [|auto].
  repeat split. apply grows_log. destruct e, He; simpl in *; congruence.
Qed.

Lemma release_with_shares l : stays io_world shares_browser (release_with out l).
Proof.
  unfold release_with, fs_unlink, fs_readdir, fs_rmdir, page_close, context_close.
  browser_auto.
Qed.

Lemma pipeline_shares rd mid cid :
  stays run_world shares_browser (pipeline cfg out rd mid cid).
Proof.
  pose proof initBrowser_shares. pose proof fetchMissiveMessage_shares.
  pose proof downloadWithRetry_shares. pose proof webhook_loop_shares.
  unfold pipeline, resolve_and_download, route_and_relay, fs_mkdir, browser_newContext,
    context_newPage, fs_readFile.
  repeat first [solve [auto] | stays_step shares_browser_order browser_side].
Qed.

Lemma processDownloadAsync_shares rd mid cid :
  stays io_world shares_browser (processDownloadAsync cfg out rd mid cid).
Proof.
  intros w. unfold io_world. rewrite processDownloadAsync_release.
  pose proof (pipeline_shares rd mid cid (no_locals, w)) as H1.
  unfold run_world in H1. simpl in H1.
  eapply (proj2 shares_browser_order); [exact H1|]. apply release_with_shares.
Qed.

Lemma processreport_shares body w :
  shares_browser w (processreport cfg out body w).
Proof.
  assert (forall status json, shares_browser w (log_event (Respond status json) w))
    as Hlog.
  { intros status json. unfold shares_browser. simpl.
    destruct (globalBrowser w); [|auto].
    repeat split. apply grows_log. reflexivity. }
  unfold processreport. cbv zeta.
  destruct (negb (JS.truthy (requestData_of body))); [apply Hlog|].
  destruct (negb (JS.truthy (messageId_of (requestData_of body)))); [apply Hlog|].
  eapply (proj2 shares_browser_order); [apply Hlog|].
  apply processDownloadAsync_shares.
Qed.

End Sharing.

Lemma serve_shares cfg requests : forall w, shares_browser w (serve cfg requests w).
Proof.
  induction requests as [|[out body] rest IH]; intros w; simpl.
  - apply shares_browser_order.
  - eapply (proj2 shares_browser_order); [apply processreport_shares|apply IH].
Qed.

(** X1. Requests that are handled one after the other share one browser: at
    most one engine is launched for all of them, and with an engine in
    [globalBrowser] at the start none is launched and that engine stays
    there. *)
Theorem sequential_runs_share_browser (cfg : config)
        (requests : list (outside * JS.value)) (w : world) :
  let w' := serve cfg requests w in
  engines w' <= S (engines w)
  /\ (engines w' = S (engines w) ->
      globalBrowser w = None /\ globalBrowser w' = Some (engines w))
  /\ (forall b, globalBrowser w = Some b ->
        globalBrowser w' = Some b /\ engines w' = engines w
        /\ ~ In Launch (added w w')).
Proof.
  intros w'. pose proof (serve_shares cfg requests w) as H. fold w' in H.
  unfold shares_browser in H. destruct (globalBrowser w) as [b|].
  - destruct H as (Hb & He & Hg). split; [lia|]. split; [lia|].
    intros b' [= <-]. repeat split; auto.
    apply grows_added in Hg. rewrite List.Forall_forall in Hg.
    intros Hin. specialize (Hg _ Hin). discriminate.
  - destruct H as [[Hb He]|[Hb He]].
    + split; [lia|]. split; [lia|discriminate].
    + split; [lia|]. split; [auto|discriminate].
Qed.

(** ** A run keeps to its working area *)





Section Isolation.

Context (cfg : config) (out : outside) (d : string).

Abbreviation dir := (path_join (PERSISTENT_DIR cfg) (dir_name out)).

Hypothesis other : dir <> d.









End Isolation.



(** ** Runs that end early *)


(** X3. Without a key for the Missive API a run does nothing at all: it ends
    normally and the world is as before, so a request that is accepted is
    acknowledged with 200 and then dropped. *)
Theorem run_without_api_key (cfg : config) (out : outside)
        (requestData messageId conversationId body : JS.value) (w : world) :
  env_falsy (MISSIVE_API_KEY cfg) = true ->
  processDownloadAsync cfg out requestData messageId conversationId w = (Ok tt, w)
  /\ (JS.truthy (messageId_of (requestData_of body)) = true ->
      processreport cfg out body w
      = log_event (Respond 200 (acknowledgement out (messageId_of (requestData_of body))
                                  (conversationId_of (requestData_of body)))) w).
Proof.
  intros Hkey.
  assert (forall rd mid cid w0, processDownloadAsync cfg out rd mid cid w0 = (Ok tt, w0))
    as Hrun.
  { intros rd mid cid w0. rewrite processDownloadAsync_release.
    unfold pipeline, resolve_and_download, bind at 1 2 3 4, lift, when, modify_locals,
      on_world, fetchMissiveMessage, throw, ret.
    rewrite Hkey.
    destruct rd; simpl; try reflexivity;
      destruct (JS.truthy _); reflexivity. }
  split; [apply Hrun|].
  intros Hid. rewrite processreport_accepted by exact Hid. rewrite Hrun. reflexivity.
Qed.

Lemma run_without_api_key_witness :
  processreport keyless_config friendly_outside example_request empty_world
  = log_event (Respond 200 (acknowledgement friendly_outside (JS.String "m1") JS.Undefined))
              empty_world.
Proof.
  apply (proj2 (run_without_api_key keyless_config friendly_outside JS.Null JS.Null JS.Null
                  example_request empty_world eq_refl)).
  reflexivity.
Defined.


Lemma bind_throw {S A B} (m : M S A) (k : A -> M S B) s e s' :
  m s = (Throw e, s') -> bind m k s = (Throw e, s').
Proof. intros H. unfold bind. rewrite H. reflexivity. Qed.





(** ** Every request is answered once *)

Lemma responses_app a b : responses (a ++ b) = responses a ++ responses b.
Proof. apply List.filter_app. Qed.

Lemma responses_none evs : Forall (fun e => is_respond e = false) evs -> responses evs = [].
Proof.
  induction 1 as [|e evs He _ IH]; [reflexivity|]. unfold responses in *. simpl.
  rewrite He. exact IH.
Qed.

Lemma added_log e w : added w (log_event e w) = [e].
Proof. apply added_app. reflexivity. Qed.

(** X5. Whatever the body of the request and whatever happens to the run, the
    handler sends one response and one only: 200 when the body names a
    message, 400 when it does not; there is no other status. *)
Theorem processreport_responds_once (cfg : config) (out : outside)
        (body : JS.value) (w : world) :
  exists status json,
    responses (added w (processreport cfg out body w)) = [Respond status json]
    /\ (JS.truthy (messageId_of (requestData_of body)) = true -> status = 200%Z)
    /\ (JS.truthy (messageId_of (requestData_of body)) = false -> status = 400%Z).
Proof.
  destruct (JS.truthy (messageId_of (requestData_of body))) eqn:Hid.
  - rewrite processreport_accepted by exact Hid.
    set (ack := Respond 200 _).
    pose proof (processDownloadAsync_routed cfg out (requestData_of body)
                  (messageId_of (requestData_of body))
                  (conversationId_of (requestData_of body)) (log_event ack w))
      as (evs & Htrace & Hevs).
    exists 200%Z, (acknowledgement out (messageId_of (requestData_of body))
                     (conversationId_of (requestData_of body))).
    split; [|split; [reflexivity|discriminate]].
    rewrite (added_app w _ (ack :: evs))
      by (rewrite Htrace; simpl; rewrite <- app_assoc; reflexivity).
    change (ack :: evs) with ([ack] ++ evs). rewrite responses_app, (responses_none evs).
    + reflexivity.
    + eapply Forall_impl; [exact Hevs|]. intros e He. destruct e; simpl in *; tauto.
  - unfold processreport. cbv zeta. rewrite Hid.
    destruct (negb (JS.truthy (requestData_of body))); simpl negb; cbv iota;
      rewrite added_log; eexists _, _; (split; [reflexivity|split; [discriminate|reflexivity]]).
Qed.

Lemma processreport_responds_once_witness :
  exists json,
    responses (added empty_world
                 (processreport example_config refusing_webhook example_request
                                empty_world))
    = [Respond 200 json].
Proof.
  destruct (processreport_responds_once example_config refusing_webhook example_request
              empty_world) as (status & json & Hr & Hok & _).
  exists json. rewrite Hr, (Hok eq_refl). reflexivity.
Defined.

(** ** The first attempt that goes through *)

Lemma allowed_retry limit i k :
  i + S k <= retries_allowed limit -> num_lt (Fin (Z.of_nat i)) limit = true.
Proof.
  unfold retries_allowed. destruct limit as [m|]; simpl; [|lia].
  intros H. apply Z.ltb_lt. lia.
Qed.

Lemma downloadWithRetry_until cfg out pg url dir d k :
  forall i w,
    (forall j, i <= j < i + k -> exists e, download_result out j = Throw e) ->
    download_result out (i + k) = Ok d ->
    k = 0 \/ i + k <= retries_allowed (MAX_RETRIES cfg) ->
    fst (downloadWithRetry cfg out pg url dir i w)
    = Ok {| result_downloadPath := (dir, stored_as d);
            result_fileName := suggestedFilename d |}
    /\ trace (snd (downloadWithRetry cfg out pg url dir i w))
       = trace w ++ attempts_until pg url i k.
Proof.
  induction k as [|k IH]; intros i w Hfail Hok Hallowed; rewrite downloadWithRetry_step.
  - rewrite Nat.add_0_r in Hok.
    unfold download_attempt, bind, emit, modify_world, ret.
    rewrite Hok. simpl. rewrite trace_store. simpl.
    unfold attempts_until. simpl. rewrite Nat.add_0_r. auto.
  - destruct Hallowed as [|Hallowed]; [discriminate|].
    destruct (Hfail i ltac:(lia)) as [e He].
    pose proof (download_attempt_run out pg url dir i w) as [Htrace Hres].
    rewrite He in Hres.
    destruct (download_attempt out pg url dir i w) as [[r|e'] w1]; cbn [fst snd] in *;
      [discriminate|].
    rewrite (allowed_retry _ _ _ Hallowed).
    pose proof (before_retry_run out pg i w1) as [Hrun Htrace2].
    rewrite Hrun.
    destruct (IH (S i) (snd (before_retry out pg i w1))) as [Hfst Hsnd].
    + intros j Hj. apply Hfail. lia.
    + rewrite <- Hok. f_equal. lia.
    + right. lia.
    + split; [exact Hfst|]. rewrite Hsnd, Htrace2, Htrace.
      unfold attempts_until. simpl. rewrite <- !app_assoc. simpl.
      repeat f_equal. lia.
Qed.

(** X6. When the first [k] attempts fail and the next one goes through, within
    the retries allowed, [downloadWithRetry] returns the file of that
    attempt under its place in the working area and stops there: it made
    [k + 1] attempts, with the pause and a reload of the page after each
    failure, whether the reloads fail or not. *)
Theorem downloadWithRetry_first_success (cfg : config) (out : outside) (pg : nat)
        (url dir : string) (k : nat) (d : download) (w : world) :
  (forall j, j < k -> exists e, download_result out j = Throw e) ->
  download_result out k = Ok d ->
  k <= retries_allowed (MAX_RETRIES cfg) ->
  let r := downloadWithRetry cfg out pg url dir 0 w in
  fst r = Ok {| result_downloadPath := (dir, stored_as d);
                result_fileName := suggestedFilename d |}
  /\ added w (snd r) = attempts_until pg url 0 k.
Proof.
  intros Hfail Hok Hallowed r.
  destruct (downloadWithRetry_until cfg out pg url dir d k 0 w) as [Hfst Hsnd]; auto.
  - intros j Hj. apply Hfail. lia.
  - split; [exact Hfst|]. apply added_app. exact Hsnd.
Qed.

Lemma downloadWithRetry_first_success_witness :
  added empty_world
        (snd (downloadWithRetry example_config slow_site 7 "https://x/y" "/data/d" 0
                                empty_world))
  = [Goto 7 "https://x/y" 0; Sleep 2000; Reload 7;
     Goto 7 "https://x/y" 1; Sleep 2000; Reload 7;
     Goto 7 "https://x/y" 2].
Proof.
  refine (proj2 (downloadWithRetry_first_success example_config slow_site 7 "https://x/y"
                   "/data/d" 2 _ empty_world _ eq_refl _)).
  - intros j Hj. destruct j as [|[|j]]; [eexists; reflexivity..|lia].
  - simpl. lia.
Defined.




(** ** What is relayed *)

Lemma hoare_pure {S A} (F : Prop) (m : M S A) (Q : A -> S -> Prop) (E : S -> Prop) :
  (F -> hoare (fun _ => True) m Q E) -> hoare (fun _ => F) m Q E.
Proof. intros H s HF. apply (H HF). exact I. Qed.

Lemma hoare_true {S A} (P : S -> Prop) (m : M S A) :
  hoare P m (fun _ _ => True) (fun _ => True).
Proof. intros s _. destruct (m s) as [[a|e] s1]; exact I. Qed.

Section Carried.

Context (cfg : config) (out : outside).

Lemma downloadWithRetry_stored pg url dir retries w res :
  fst (downloadWithRetry cfg out pg url dir retries w) = Ok res ->
  exists n d, download_result out n = Ok d
              /\ res = {| result_downloadPath := (dir, stored_as d);
                          result_fileName := suggestedFilename d |}
              /\ holds_file dir (stored_as d) (content d)
                   (snd (downloadWithRetry cfg out pg url dir retries w)).
Proof.
  remember (budget (MAX_RETRIES cfg) retries) as k eqn:Hk.
  revert retries w Hk. induction (lt_wf k) as [k _ IH]. intros retries w ->.
  rewrite downloadWithRetry_step.
  destruct (download_attempt out pg url dir retries w) as [[d|error] w1] eqn:Hrun.
  - simpl. intros [= <-].
    unfold download_attempt, bind, emit, modify_world, ret, throw in Hrun.
    destruct (download_result out retries) as [d'|e] eqn:Hd; simpl in Hrun;
      [|discriminate].
    injection Hrun as <- <-. exists retries, d'. repeat split; auto.
    intros entries. unfold store. cbn [fs log_event snd].
    destruct (fs w !! dir) as [old|] eqn:Hold; cbn [fs set_fs log_event].
    + rewrite lookup_insert_eq. intros [= <-]. simpl.
      rewrite String.eqb_refl. reflexivity.
    + rewrite Hold. discriminate.
  - destruct (num_lt _ _) eqn:Hlt; [|discriminate].
    destruct (before_retry out pg retries w1) as [[u|e] w2]; [|discriminate].
    eapply IH; [|reflexivity]. rewrite (budget_step _ _ Hlt). lia.
Qed.

Lemma fs_readFile_holds dir name bytes w buffer :
  holds_file dir name bytes w ->
  fst (fs_readFile out (dir, name) w) = Ok buffer -> buffer = bytes.
Proof.
  intros Hfile. unfold fs_readFile, bind, emit, modify_world, fail_if, get_world, ret,
    throw. simpl.
  destruct (readFile_error out); simpl; [discriminate|].
  destruct (fs w !! dir) as [entries|] eqn:Hdir; simpl; [|discriminate].
  rewrite (Hfile entries Hdir). simpl. congruence.
Qed.

Lemma quiet_carried mid cid e : quiet e -> carried out mid cid e.
Proof. intros [_ Hpost]. destruct e; simpl in *; auto; discriminate. Qed.

(** What the first part of the [try] block hands over to the second. *)
Lemma resolve_and_download_hands_over rd mid cid :
  hoare (fun _ => True) (resolve_and_download cfg out rd mid cid)
        (fun got s =>
           snd got = conversation_of out mid cid
           /\ exists n d,
               download_result out n = Ok d
               /\ fst got = {| result_downloadPath :=
                                 (path_join (PERSISTENT_DIR cfg) (dir_name out),
                                  stored_as d);
                               result_fileName := suggestedFilename d |}
               /\ holds_file (path_join (PERSISTENT_DIR cfg) (dir_name out))
                             (stored_as d) (content d) (snd s))
        (fun _ => True).
Proof.
  unfold resolve_and_download.
  eapply hoare_bind; [apply hoare_true|intros ?; cbv beta].
  eapply hoare_bind; [apply hoare_true|intros ?; cbv beta].
  eapply hoare_bind with (Q' := fun data _ => missive_reply out mid = Ok data);
    [|intros data].
  { intros [l w] _. unfold on_world, fetchMissiveMessage. simpl.
    destruct (env_falsy _); [exact I|].
    unfold bind, emit, modify_world, ret, throw.
    destruct (missive_reply out mid) as [data|e]; [|exact I].
    destruct (log_reply_shape data); [reflexivity|exact I]. }
  apply hoare_pure. intros Hreply. cbv zeta.
  eapply hoare_post with (Q := fun got s =>
    snd got = (if JS.truthy (JS.get_opt (JS.get_opt (JS.get_opt data "messages")
                                                    "conversation") "id")
               then JS.get_opt (JS.get_opt (JS.get_opt data "messages")
                                           "conversation") "id"
               else cid)
    /\ _) (E := fun _ => True); [|intros got s [Hcid Hrest]|auto].
  2: { split; [|exact Hrest]. rewrite Hcid. unfold conversation_of. rewrite Hreply.
       reflexivity. }
  eapply hoare_bind; [apply hoare_true|intros url; cbv beta].
  eapply hoare_bind; [apply hoare_true|intros browser; cbv beta].
  eapply hoare_bind; [apply hoare_true|intros ?; cbv beta].
  eapply hoare_bind; [apply hoare_true|intros ?; cbv beta].
  eapply hoare_bind; [apply hoare_true|intros ctx; cbv beta].
  eapply hoare_bind; [apply hoare_true|intros ?; cbv beta].
  eapply hoare_bind; [apply hoare_true|intros pg; cbv beta].
  eapply hoare_bind; [apply hoare_true|intros ?; cbv beta].
  eapply hoare_bind with
    (Q' := fun res s =>
             exists n d,
               download_result out n = Ok d
               /\ res = {| result_downloadPath :=
                             (path_join (PERSISTENT_DIR cfg) (dir_name out), stored_as d);
                           result_fileName := suggestedFilename d |}
               /\ holds_file (path_join (PERSISTENT_DIR cfg) (dir_name out))
                             (stored_as d) (content d) (snd s));
    [|intros res].
  { intros [l w] _. unfold on_world. simpl.
    pose proof (downloadWithRetry_stored pg url
                  (path_join (PERSISTENT_DIR cfg) (dir_name out)) 0 w) as Hres.
    destruct (downloadWithRetry cfg out pg url _ 0 w) as [[res|e] w1]; simpl in *;
      [|exact I].
    exact (Hres res eq_refl). }
  intros [l w] Hres. unfold bind, modify_locals, ret. simpl. split; [reflexivity|].
  exact Hres.
Qed.

Lemma route_and_relay_carried res mid cid d s :
  res = {| result_downloadPath :=
             (path_join (PERSISTENT_DIR cfg) (dir_name out), stored_as d);
           result_fileName := suggestedFilename d |} ->
  (exists n, download_result out n = Ok d) ->
  holds_file (path_join (PERSISTENT_DIR cfg) (dir_name out)) (stored_as d) (content d)
             (snd s) ->
  grows (carried out mid cid) (snd s)
        (snd (snd (route_and_relay cfg out res mid (conversation_of out mid cid) s))).
Proof.
  intros -> [n Hn] Hfile. destruct s as [l w].
  unfold route_and_relay, bind, lift. cbn [fst snd result_fileName result_downloadPath].
  destruct (determineWebhookConfig cfg (suggestedFilename d)) as [c|e];
    [|apply grows_refl].
  unfold modify_locals. cbn [fst snd].
  pose proof (fs_readFile_quiet out
                (path_join (PERSISTENT_DIR cfg) (dir_name out), stored_as d) w) as Hread.
  pose proof (fs_readFile_holds (path_join (PERSISTENT_DIR cfg) (dir_name out))
                (stored_as d) (content d) w) as Hbytes.
  unfold on_world at 1. cbn [fst snd] in *.
  destruct (fs_readFile out _ w) as [[buffer|e] w1]; cbn [fst snd] in *;
    [|eapply grows_mono; [apply quiet_carried|exact Hread]].
  rewrite (Hbytes buffer Hfile eq_refl).
  eapply grows_trans; [eapply grows_mono; [apply quiet_carried|exact Hread]|].
  match goal with
  | |- context [webhook_loop cfg out ?r 0 (?l1, w1)] =>
      destruct (webhook_loop_from cfg out r _ 0 l1 w1 (Nat.le_refl _))
        as (_ & evs & Htr & Hev & _);
      destruct (webhook_loop cfg out r 0 (l1, w1)) as [[[status|]|e] [l2 w2]]
  end; cbn [fst snd] in *;
    (exists evs; split; [exact Htr|];
     eapply Forall_impl; [exact Hev|];
     intros ev [->| ->]; simpl; [exact I|eauto 10]).
Qed.

Lemma pipeline_carried rd mid cid :
  adds run_world (carried out mid cid) (pipeline cfg out rd mid cid).
Proof.
  intros s. unfold pipeline, bind, run_world.
  pose proof (resolve_and_download_quiet cfg out rd mid cid s) as Hquiet.
  pose proof (resolve_and_download_hands_over rd mid cid s I) as Hres.
  unfold run_world in Hquiet.
  destruct (resolve_and_download cfg out rd mid cid s) as [[[res cid']|e] s1];
    cbn [fst snd] in *.
  - destruct Hres as (-> & n & d & Hn & Hd & Hfile).
    eapply grows_trans; [eapply grows_mono; [apply quiet_carried|exact Hquiet]|].
    eapply route_and_relay_carried; eauto.
  - eapply grows_mono; [apply quiet_carried|exact Hquiet].
Qed.

Lemma processDownloadAsync_carried rd mid cid w :
  grows (carried out mid cid) w (snd (processDownloadAsync cfg out rd mid cid w)).
Proof.
  unfold processDownloadAsync.
  assert (adds run_world (carried out mid cid)
            (try_finally (ignore_errors (pipeline cfg out rd mid cid)) (release out)))
    as H.
  { apply steady_try_finally; [apply steady_ignore_errors, pipeline_carried|].
    eapply adds_mono; [apply quiet_carried|apply release_quiet]. }
  specialize (H (no_locals, w)). unfold run_world in H.
  destruct (try_finally _ _ _) as [r s]. exact H.
Qed.

End Carried.

(** X8. What a run relays is what it downloaded: every post to the webhook
    carries the bytes of a download that completed in this run, under the
    name the site suggested for it and as a PDF, the message identifier
    of the run, and as the conversation the one the Missive API gives for
    the message when it gives one, else the one of the request, else the
    empty string. *)
Theorem relay_carries_the_download (cfg : config) (out : outside)
        (requestData messageId conversationId : JS.value) (w : world)
        (url : JS.value) (f : form) :
  In (HttpPost url f)
     (added w (snd (processDownloadAsync cfg out requestData messageId conversationId w))) ->
  (exists n d, download_result out n = Ok d
               /\ form_file f = content d
               /\ form_filename f = suggestedFilename d)
  /\ form_contentType f = "application/pdf"
  /\ form_messageId f = messageId
  /\ form_conversationId f
     = JS.or (conversation_of out messageId conversationId) (JS.String EmptyString).
Proof.
  intros Hin.
  pose proof (grows_added _ _ _
                (processDownloadAsync_carried cfg out requestData messageId
                   conversationId w)) as Hall.
  rewrite List.Forall_forall in Hall. exact (Hall _ Hin).
Qed.

Lemma relay_carries_the_download_witness :
  In (HttpPost (JS.String "https://hooks.example/efs")
        {| form_file := "%PDF-1.7";
           form_filename := "Invoice_2024.pdf";
           form_contentType := "application/pdf";
           form_type := "EFSReport";
           form_conversationId := JS.String "c-api";
           form_messageId := JS.String "m1" |})
     (added empty_world
        (snd (processDownloadAsync example_config known_conversation example_request
                                   (JS.String "m1") (JS.String "c-request") empty_world)))
  /\ JS.String "c-api"
     = JS.or (conversation_of known_conversation (JS.String "m1") (JS.String "c-request"))
             (JS.String EmptyString).
Proof.
  assert (In (HttpPost (JS.String "https://hooks.example/efs")
                {| form_file := "%PDF-1.7";
                   form_filename := "Invoice_2024.pdf";
                   form_contentType := "application/pdf";
                   form_type := "EFSReport";
                   form_conversationId := JS.String "c-api";
                   form_messageId := JS.String "m1" |})
             (added empty_world
                (snd (processDownloadAsync example_config known_conversation
                        example_request (JS.String "m1") (JS.String "c-request")
                        empty_world)))) as Hin.
  { vm_compute. tauto. }
  split; [exact Hin|].
  exact (proj2 (proj2 (proj2 (relay_carries_the_download _ _ _ _ _ _ _ _ Hin)))).
Defined.

(** ** A relay loop that never runs *)

Lemma webhook_loop_skipped cfg out r st :
  num_le (Fin 0) (MAX_RETRIES cfg) = false -> webhook_loop cfg out r 0 st = (Ok None, st).
Proof.
  intros Hbad. rewrite webhook_loop_step. change (Z.of_nat 0) with 0%Z.
  rewrite Hbad. reflexivity.
Qed.

Lemma route_and_relay_skipped cfg out res mid cid :
  num_le (Fin 0) (MAX_RETRIES cfg) = false ->
  adds run_world quiet (route_and_relay cfg out res mid cid).
Proof.
  intros Hbad. unfold route_and_relay.
  pose proof (fs_readFile_quiet out).
  assert (forall r, adds run_world quiet (webhook_loop cfg out r 0)) as Hloop.
  { intros r s. rewrite webhook_loop_skipped by exact Hbad. apply grows_refl. }
  steady_auto.
Qed.

(** X9. When [0 <= MAX_RETRIES] is false, that is when [MAX_RETRIES] is
    negative or is not a number, the relay loop is left at once with
    nothing sent: no run posts anything to a webhook, whatever it
    downloaded, and the [try] block of a run that came that far ends on the
    [TypeError] of reading the status of a response that is not there. *)
Theorem no_relay_without_retry_budget (cfg : config) (out : outside)
        (requestData messageId conversationId : JS.value) (w : world) :
  num_le (Fin 0) (MAX_RETRIES cfg) = false ->
  relay_attempts
    (added w (snd (processDownloadAsync cfg out requestData messageId conversationId w)))
  = 0
  /\ (forall res s,
        (exists c, determineWebhookConfig cfg (result_fileName res) = Ok c) ->
        (exists buffer, fst (fs_readFile out (result_downloadPath res) (snd s)) = Ok buffer) ->
        fst (route_and_relay cfg out res messageId conversationId s) = Throw NO_STATUS).
Proof.
  intros Hbad. split.
  - assert (adds run_world quiet
              (try_finally (ignore_errors (pipeline cfg out requestData messageId
                                                    conversationId))
                           (release out))) as H.
    { apply steady_try_finally; [apply steady_ignore_errors|apply release_quiet].
      unfold pipeline. apply steady_bind; [apply resolve_and_download_quiet|].
      intros got. apply route_and_relay_skipped. exact Hbad. }
    specialize (H (no_locals, w)). unfold run_world, processDownloadAsync in *.
    destruct (try_finally _ _ _) as [r s]. cbn [fst snd] in *.
    apply grows_added in H. unfold relay_attempts.
    induction H as [|e evs [_ He] _ IH]; [reflexivity|]. simpl. rewrite He. exact IH.
  - intros res [l w0] [c Hc] [buffer Hread].
    unfold route_and_relay, bind, lift. rewrite Hc.
    unfold modify_locals, on_world at 1. cbn [fst snd] in *.
    destruct (fs_readFile out (result_downloadPath res) w0) as [[b|e] w1];
      cbn [fst snd] in *; [|discriminate].
    rewrite webhook_loop_skipped by exact Hbad. reflexivity.
Qed.

Lemma no_relay_without_retry_budget_witness :
  relay_attempts
    (added empty_world
       (snd (processDownloadAsync unparsed_retries_config friendly_outside example_request
                                  (JS.String "m1") JS.Undefined empty_world)))
  = 0.
Proof.
  apply (proj1 (no_relay_without_retry_budget unparsed_retries_config friendly_outside
                  example_request (JS.String "m1") JS.Undefined empty_world eq_refl)).
Defined.

Lemma sequential_runs_share_browser_witness :
  globalBrowser empty_world = None
  /\ globalBrowser
       (serve example_config
              [(friendly_outside, example_request); (bodiless_message, JS.Null);
               (refusing_webhook, JS.Arr [example_request_plain])]
              empty_world)
     = Some (engines empty_world).
Proof.
  apply (proj1 (proj2 (sequential_runs_share_browser example_config
                         [(friendly_outside, example_request); (bodiless_message, JS.Null);
                          (refusing_webhook, JS.Arr [example_request_plain])]
                         empty_world))).
  vm_compute. reflexivity.
Defined.

(** ** The link is a piece of the body *)

Lemma lit_step_inv {R} ci c (k : list ascii -> option R) s res :
  lit_step ci c k s = Some res ->
  exists x s', s = x :: s' /\ same ci c x = true /\ k s' = Some res.
Proof.
  unfold lit_step. destruct s as [|x s']; [discriminate|].
  destruct (same ci c x) eqn:Hsame; [|discriminate]. eauto.
Qed.

(** What a match takes from the input: a prefix of it, as long as the
    pattern asks for at least, without a character that the pattern
    avoids. *)
Lemma match_here_takes ci bad r :
  avoids ci bad r = true ->
  forall g s rest g',
    match_here ci r g s = Some (rest, g') ->
    exists pre, s = pre ++ rest /\ ~ In bad pre /\ least_length r <= length pre.
Proof.
  induction r as [|a r IH]; intros Hav g s rest g' Hm.
  - injection Hm as <- _. exists []. simpl. auto with arith.
  - simpl in Hav. apply andb_prop in Hav as [Ha Hr]. specialize (IH Hr).
    destruct a as [c|c|cls least| |]; simpl in Hm.
    + apply lit_step_inv in Hm as (x & s' & -> & Hsame & Hm).
      destruct (IH _ _ _ _ Hm) as (pre & -> & Hbad & Hlen).
      exists (x :: pre). split; [reflexivity|]. split; [|simpl; unfold least_length in *; simpl; lia].
      intros [<-|Hin]; [|auto]. rewrite Hsame in Ha. discriminate.
    + destruct (lit_step ci c (match_here ci r g) s) as [res|] eqn:Hstep.
      * injection Hm as ->.
        apply lit_step_inv in Hstep as (x & s' & -> & Hsame & Hm).
        destruct (IH _ _ _ _ Hm) as (pre & -> & Hbad & Hlen).
        exists (x :: pre). split; [reflexivity|].
        split; [|simpl; unfold least_length in *; simpl; lia].
        intros [<-|Hin]; [|auto]. rewrite Hsame in Ha. discriminate.
      * destruct (IH _ _ _ _ Hm) as (pre & -> & Hbad & Hlen).
        exists pre. auto.
    + apply many_inv in Hm as (u & s1 & -> & Hcls & Hleast & Hm).
      destruct (IH _ _ _ _ Hm) as (pre & -> & Hbad & Hlen).
      exists (u ++ pre). rewrite <- app_assoc. split; [reflexivity|]. split.
      * rewrite in_app_iff. intros [Hin|Hin]; [|auto].
        rewrite forallb_forall in Hcls. rewrite (Hcls _ Hin) in Ha. discriminate.
      * rewrite length_app. unfold least_length in *. simpl. lia.
    + destruct (IH _ _ _ _ Hm) as (pre & -> & Hbad & Hlen). exists pre. auto.
    + destruct (IH _ _ _ _ Hm) as (pre & -> & Hbad & Hlen). exists pre. auto.
Qed.

(** A pattern whose first part has no group: the match of the whole
    ends with a match of the second part. *)
Lemma match_here_app_inv ci r1 r2 :
  group_free r1 = true ->
  forall g s res,
    match_here ci (r1 ++ r2) g s = Some res ->
    exists pre mid, s = pre ++ mid /\ match_here ci r2 g mid = Some res.
Proof.
  induction r1 as [|a r1 IH]; intros Hfree g s res Hm.
  - exists [], s. auto.
  - simpl in Hfree. apply andb_prop in Hfree as [Ha Hr]. specialize (IH Hr).
    destruct a as [c|c|cls least| |]; simpl in Hm; try discriminate.
    + apply lit_step_inv in Hm as (x & s' & -> & _ & Hm).
      destruct (IH _ _ _ Hm) as (pre & mid & -> & Hmid). exists (x :: pre), mid. auto.
    + destruct (lit_step ci c (match_here ci (r1 ++ r2) g) s) as [res'|] eqn:Hstep.
      * injection Hm as ->.
        apply lit_step_inv in Hstep as (x & s' & -> & _ & Hm).
        destruct (IH _ _ _ Hm) as (pre & mid & -> & Hmid). exists (x :: pre), mid. auto.
      * exact (IH _ _ _ Hm).
    + apply many_inv in Hm as (u & s1 & -> & _ & _ & Hm).
      destruct (IH _ _ _ Hm) as (pre & mid & -> & Hmid).
      exists (u ++ pre), mid. rewrite <- app_assoc. auto.
Qed.

Lemma same_dquote ci x : same ci Str.dquote x = true -> x = Str.dquote.
Proof.
  unfold same. destruct ci; [|intros H%Ascii.eqb_eq; auto].
  intros H%Ascii.eqb_eq. revert H.
  destruct x as [[] [] [] [] [] [] [] []]; vm_compute; congruence.
Qed.

(** A match of the quoted value: the text between two double quotes,
    not empty and without a double quote, which group 1 captures. *)
Lemma quoted_value_inv ci g s rest g' :
  match_here ci quoted_value g s = Some (rest, g') ->
  exists u, s = Str.dquote :: u ++ Str.dquote :: rest
            /\ u <> [] /\ ~ In Str.dquote u /\ g_cap g' = Some u.
Proof.
  unfold quoted_value. simpl. intros Hm.
  apply lit_step_inv in Hm as (x & s1 & -> & Hx%same_dquote & Hm). subst x.
  apply many_inv in Hm as (u & s2 & -> & Hcls & Hleast & Hm). simpl in Hm.
  apply lit_step_inv in Hm as (y & s3 & -> & Hy%same_dquote & Hm). subst y.
  injection Hm as <- <-. simpl. rewrite taken_app.
  exists u. repeat split.
  - destruct u; [simpl in Hleast; lia|discriminate].
  - intros Hin. rewrite forallb_forall in Hcls. specialize (Hcls _ Hin).
    unfold not_char in Hcls. rewrite Ascii.eqb_refl in Hcls. discriminate.
Qed.

(** The matches of a plain pattern that ends with the quoted value. *)
Lemma quoted_match p r1 body m :
  flag_g p = false -> re p = r1 ++ quoted_value -> group_free r1 = true ->
  str_match p body = Some m ->
  exists whole u a b,
    m = [Some whole; Some u] /\ body = a ++ u ++ b /\ u <> [] /\ ~ In Str.dquote u.
Proof.
  intros Hg Hre Hfree. unfold str_match. rewrite Hg, Hre.
  destruct (exec (flag_i p) (r1 ++ quoted_value) body) as [f|] eqn:Hexec; [|discriminate].
  intros [= <-].
  apply exec_inv in Hexec as (pre & s' & rest & g & -> & Hm & ->).
  apply match_here_app_inv in Hm as (pre' & mid & -> & Hm); [|exact Hfree].
  apply quoted_value_inv in Hm as (u & -> & Hne & Hq & Hcap). simpl. rewrite Hcap.
  exists (taken (pre' ++ Str.dquote :: u ++ Str.dquote :: rest) rest), u,
    (pre ++ pre' ++ [Str.dquote]), (Str.dquote :: rest).
  repeat split; auto. rewrite <- !app_assoc. reflexivity.
Qed.

(** Every match of a global pattern is what the pattern takes somewhere
    in the input. *)
Lemma exec_all_inv ci r m :
  forall s skip,
    In m (exec_all ci r skip s) ->
    exists a s' rest g,
      s = a ++ s' /\ match_here ci r no_groups s' = Some (rest, g) /\ m = taken s' rest.
Proof.
  assert (forall c s skip,
             (In m (exec_all ci r skip s) ->
              exists a s' rest g,
                s = a ++ s' /\ match_here ci r no_groups s' = Some (rest, g)
                /\ m = taken s' rest) ->
             In m (exec_all ci r skip s) ->
             exists a s' rest g,
               c :: s = a ++ s' /\ match_here ci r no_groups s' = Some (rest, g)
               /\ m = taken s' rest) as Hshift.
  { intros c s skip IH Hin. destruct (IH Hin) as (a & s' & rest & g & -> & Hm & ->).
    exists (c :: a), s', rest, g. auto. }
  induction s as [|c s IH]; intros skip Hin.
  - destruct skip; simpl in Hin; [|contradiction].
    destruct (match_here ci r no_groups []) as [[rest g]|] eqn:Hm; [|contradiction].
    destruct Hin as [<-|[]]. exists [], [], rest, g. auto.
  - destruct skip as [|n]; simpl in Hin.
    + destruct (match_here ci r no_groups (c :: s)) as [[rest g]|] eqn:Hm.
      * destruct Hin as [<-|Hin]; [exists [], (c :: s), rest, g; auto|].
        eapply Hshift; [apply IH|exact Hin].
      * eapply Hshift; [apply IH|exact Hin].
    + eapply Hshift; [apply IH|exact Hin].
Qed.

(** The matches of a global pattern that avoids the double quote and
    takes a character at least. *)
Lemma global_match p body m :
  flag_g p = true -> avoids (flag_i p) Str.dquote (re p) = true ->
  1 <= least_length (re p) ->
  str_match p body = Some m ->
  forall i u, at_index m i = Some u ->
              exists a b, body = a ++ u ++ b /\ u <> [] /\ ~ In Str.dquote u.
Proof.
  intros Hg Hav Hlen. unfold str_match. rewrite Hg.
  destruct (exec_all (flag_i p) (re p) 0 body) as [|m0 ms] eqn:Hall; [discriminate|].
  intros [= <-] i u Hat. unfold at_index in Hat.
  change (Some m0 :: map Some ms) with (map Some (m0 :: ms)) in Hat.
  destruct (nth_error (map Some (m0 :: ms)) i) as [[x|]|] eqn:Hnth; try discriminate.
  injection Hat as ->.
  apply nth_error_In, in_map_iff in Hnth as (u' & [= ->] & Hin).
  rewrite <- Hall in Hin.
  apply exec_all_inv in Hin as (a & s' & rest & g & -> & Hm & ->).
  destruct (match_here_takes _ _ _ Hav _ _ _ _ Hm) as (pre & -> & Hbad & Hpre).
  rewrite taken_app. exists a, rest. repeat split; auto.
  destruct pre; [simpl in Hpre; lia|discriminate].
Qed.

Lemma found_by_piece p body u :
  In p priority -> found_by p body = Some u ->
  exists a b, body = a ++ u ++ b /\ u <> [] /\ ~ In Str.dquote u.
Proof.
  unfold found_by, first_or_whole.
  intros Hp. destruct (str_match p body) as [m|] eqn:Hm; [|discriminate].
  assert (forall r1, flag_g p = false -> re p = r1 ++ quoted_value ->
                     group_free r1 = true ->
                     (if str_truthy (at_index m 1) then at_index m 1 else at_index m 0)
                     = Some u ->
                     exists a b, body = a ++ u ++ b /\ u <> [] /\ ~ In Str.dquote u)
    as Hquoted.
  { intros r1 Hg Hre Hfree.
    destruct (quoted_match p r1 body m Hg Hre Hfree Hm)
      as (whole & u0 & a & b & -> & -> & Hne & Hq).
    simpl. destruct u0; [congruence|]. intros [= <-]. eauto. }
  assert (flag_g p = true -> avoids (flag_i p) Str.dquote (re p) = true ->
          1 <= least_length (re p) ->
          (if str_truthy (at_index m 1) then at_index m 1 else at_index m 0) = Some u ->
          exists a b, body = a ++ u ++ b /\ u <> [] /\ ~ In Str.dquote u) as Hglobal.
  { intros Hg Hav Hlen Hu.
    destruct (str_truthy (at_index m 1));
      eapply (global_match p body m Hg Hav Hlen Hm); exact Hu. }
  destruct Hp as [<-|[<-|[<-|[<-|[]]]]].
  - apply (Hquoted (lits "href=")); reflexivity.
  - apply (Hquoted (lits "Download at:" ++ [Many is_space 0] ++ lits "<a"
                    ++ [Many (not_char ">"%char) 0] ++ lits "href=")); reflexivity.
  - apply Hglobal; [reflexivity|reflexivity|vm_compute; lia].
  - apply Hglobal; [reflexivity|reflexivity|vm_compute; lia].
Qed.

Lemma first_match_found ps body u :
  first_match ps body = Some u -> exists p, In p ps /\ found_by p body = Some u.
Proof.
  induction ps as [|p ps IH]; simpl; [discriminate|].
  destruct (found_by p body) as [u'|] eqn:Hp.
  - intros [= <-]. eauto.
  - intros H. destruct (IH H) as (p' & Hin & Hf). eauto.
Qed.

Lemma replace_all_keeps (P : ascii -> Prop) ci r by_ :
  Forall P by_ ->
  forall s skip, Forall P s -> Forall P (replace_all ci r by_ skip s).
Proof.
  intros Hby. induction s as [|c s IH]; intros skip Hs.
  - destruct skip; constructor.
  - inversion Hs as [|? ? Hc Hs']; subst.
    destruct skip as [|n]; simpl; [|apply IH; exact Hs'].
    destruct (match_here ci r no_groups (c :: s)) as [[rest g]|].
    + destruct (_ - _).
      * constructor; auto.
      * apply Forall_app. split; [exact Hby|]. apply IH. exact Hs'.
    + constructor; auto.
Qed.

Lemma replace_all_nonempty ci r b by_ c s :
  replace_all ci r (b :: by_) 0 (c :: s) <> [].
Proof.
  cbn [replace_all].
  destruct (match_here ci r no_groups (c :: s)) as [[rest g]|]; [|discriminate].
  destruct (_ - _); discriminate.
Qed.

Lemma decode_amp_nonempty u : u <> [] -> decode_amp u <> [].
Proof.
  unfold decode_amp. destruct u as [|c u]; [congruence|]. intros _.
  apply replace_all_nonempty.
Qed.

Lemma decode_amp_keeps (P : ascii -> Prop) u :
  P "&"%char -> Forall P u -> Forall P (decode_amp u).
Proof. intros Hamp. apply replace_all_keeps. constructor; [exact Hamp|constructor]. Qed.

Lemma chars_of_chars l : Str.chars (Str.of_chars l) = l.
Proof. apply list_ascii_of_string_of_list_ascii. Qed.

(** X10. A link that [extractDownloadUrl] returns is a piece of the body with
    its [&amp;] decoded: the body, a string, reads [a ++ u ++ b] where
    [u] is not empty and holds no double quote, and the link is [u]
    decoded; the link itself is not empty and holds no double quote. *)
Theorem extractDownloadUrl_link (messageData : JS.value) (url : string) :
  extractDownloadUrl messageData = Ok url ->
  exists s a u b,
    locate_body messageData = Ok (JS.String s)
    /\ Str.chars s = a ++ u ++ b
    /\ u <> [] /\ ~ In Str.dquote u
    /\ url = Str.of_chars (decode_amp u)
    /\ url <> EmptyString /\ ~ In Str.dquote (Str.chars url).
Proof.
  unfold extractDownloadUrl, rbind.
  destruct (locate_body messageData) as [body|e]; [|discriminate].
  destruct (negb (JS.truthy body)); [discriminate|].
  destruct body as [| | | |s| |]; try discriminate.
  rewrite extract_from_body_spec. unfold extract_spec.
  destruct (first_match priority (Str.chars s)) as [u|] eqn:Hfirst; [|discriminate].
  intros [= <-].
  apply first_match_found in Hfirst as (p & Hp & Hfound).
  destruct (found_by_piece p _ u Hp Hfound) as (a & b & Hbody & Hne & Hq).
  exists s, a, u, b. repeat split; auto.
  - intros Hempty. apply (decode_amp_nonempty u Hne).
    rewrite <- (chars_of_chars (decode_amp u)), Hempty. reflexivity.
  - rewrite chars_of_chars.
    assert (Forall (fun c => c <> Str.dquote) (decode_amp u)) as Hall.
    { apply decode_amp_keeps; [discriminate|].
      rewrite List.Forall_forall. intros c Hin ->. auto. }
    rewrite List.Forall_forall in Hall. intros Hin. exact (Hall _ Hin eq_refl).
Qed.

Lemma extractDownloadUrl_link_witness :
  exists s a u b,
    locate_body example_reply = Ok (JS.String s)
    /\ Str.chars s = a ++ u ++ b
    /\ u <> [] /\ ~ In Str.dquote u
    /\ "https://x/y?a=1&b=2" = Str.of_chars (decode_amp u)
    /\ "https://x/y?a=1&b=2" <> EmptyString
    /\ ~ In Str.dquote (Str.chars "https://x/y?a=1&b=2").
Proof.
  apply (extractDownloadUrl_link example_reply "https://x/y?a=1&b=2").
  vm_compute. reflexivity.
Defined.

(** ** Decoding the link *)

Lemma amp_match s :
  (exists rest, s = Str.chars "&amp;" ++ rest
                /\ match_here false (lits "&amp;") no_groups s = Some (rest, no_groups))
  \/ (match_here false (lits "&amp;") no_groups s = None
      /\ forall rest, s <> Str.chars "&amp;" ++ rest).
Proof.
  unfold lits. rewrite <- (app_nil_r (map Lit (Str.chars "&amp;"))).
  destruct (match_here false (map Lit (Str.chars "&amp;") ++ []) no_groups s)
    as [x|] eqn:Hm.
  - left. destruct (match_lits_inv _ _ _ _ _ Hm) as [rest ->].
    rewrite match_lits_app in Hm. simpl in Hm. injection Hm as <-. eauto.
  - right. split; [reflexivity|]. intros rest ->.
    rewrite match_lits_app in Hm. discriminate.
Qed.

Lemma replace_all_match ci r by_ c s rest g n :
  match_here ci r no_groups (c :: s) = Some (rest, g) ->
  length (c :: s) - length rest = S n ->
  replace_all ci r by_ 0 (c :: s) = by_ ++ replace_all ci r by_ n s.
Proof. intros Hm Hlen. cbn [replace_all]. rewrite Hm, Hlen. reflexivity. Qed.

Lemma replace_all_no_match ci r by_ c s :
  match_here ci r no_groups (c :: s) = None ->
  replace_all ci r by_ 0 (c :: s) = c :: replace_all ci r by_ 0 s.
Proof. intros Hm. cbn [replace_all]. rewrite Hm. reflexivity. Qed.

(** An occurrence of [&amp;] does not begin in front of another one and
    end inside it. *)
Lemma no_straddle a b rest :
  a <> [] -> a ++ Str.chars "&amp;" ++ b = Str.chars "&amp;" ++ rest ->
  exists a', a = Str.chars "&amp;" ++ a'.
Proof.
  intros Ha H. destruct a as [|c1 [|c2 [|c3 [|c4 [|c5 a5]]]]]; [congruence|..];
    simpl in H; injection H; intros; subst; try discriminate.
  exists a5. reflexivity.
Qed.

Lemma decode_amp_across b :
  forall a skip,
    skip <= length a ->
    replace_all false (lits "&amp;") ["&"%char] skip (a ++ Str.chars "&amp;" ++ b)
    = replace_all false (lits "&amp;") ["&"%char] skip a
      ++ "&"%char :: replace_all false (lits "&amp;") ["&"%char] 0 b.
Proof.
  intros a. remember (length a) as n eqn:Hn. revert a Hn.
  induction (lt_wf n) as [n _ IH]. intros a -> skip Hskip.
  destruct a as [|c a].
  - assert (skip = 0) as -> by (simpl in Hskip; lia).
    destruct (amp_match (Str.chars "&amp;" ++ b)) as [(rest & Heq & Hm)|[_ Hno]];
      [|exfalso; eapply Hno; reflexivity].
    apply app_inv_head in Heq. subst rest.
    change ([] ++ Str.chars "&amp;" ++ b)
      with ("&"%char :: Str.chars "amp;" ++ b) in *.
    rewrite (replace_all_match _ _ _ _ _ _ _ 4 Hm) by (simpl; lia).
    reflexivity.
  - destruct skip as [|k].
    + change ((c :: a) ++ Str.chars "&amp;" ++ b)
        with (c :: a ++ Str.chars "&amp;" ++ b).
      destruct (amp_match (c :: a ++ Str.chars "&amp;" ++ b))
        as [(rest & Heq & Hm)|[Hm Hno]].
      * destruct (no_straddle (c :: a) b rest ltac:(discriminate) Heq) as [a' Ha].
        destruct (amp_match (c :: a)) as [(rest' & Heq' & Hm')|[_ Hno']];
          [|exfalso; eapply Hno'; exact Ha].
        rewrite (replace_all_match _ _ _ _ _ _ _ 4 Hm).
        2: { rewrite Heq. rewrite length_app. simpl. lia. }
        rewrite (replace_all_match _ _ _ _ _ _ _ 4 Hm').
        2: { rewrite Heq'. rewrite length_app. simpl. lia. }
        simpl. f_equal. apply (IH (length a)); [simpl; lia|reflexivity|].
        injection Ha as _ Ha. rewrite Ha. simpl. lia.
      * destruct (amp_match (c :: a)) as [(rest' & Heq' & _)|[Hm' _]].
        { exfalso. apply (Hno (rest' ++ Str.chars "&amp;" ++ b)).
          rewrite (app_assoc (Str.chars "&amp;") rest'), <- Heq'. reflexivity. }
        rewrite (replace_all_no_match _ _ _ _ _ Hm),
          (replace_all_no_match _ _ _ _ _ Hm').
        simpl. f_equal. apply (IH (length a)); [simpl; lia|reflexivity|lia].
    + simpl. apply (IH (length a)); [simpl; lia|reflexivity|simpl in Hskip; lia].
Qed.

Lemma decode_amp_plain s :
  Str.includes s (Str.chars "&amp;") = false -> decode_amp s = s.
Proof.
  unfold decode_amp. induction s as [|c s IH]; intros Hno; [reflexivity|].
  simpl in Hno. apply orb_false_elim in Hno as [Hhead Htail].
  destruct (amp_match (c :: s)) as [(rest & Heq & _)|[Hm _]].
  - exfalso. assert (Str.starts_with (Str.chars "&amp;") (c :: s) = true) as Hs
      by (apply starts_with_spec; eauto).
    simpl in Hs. congruence.
  - rewrite (replace_all_no_match _ _ _ _ _ Hm). f_equal. apply IH. exact Htail.
Qed.

(** X11. Decoding replaces every [&amp;] of the link by [&], from the left and
    once (what a replacement gives is not decoded again), and changes
    nothing else: the link decodes piece by piece around an occurrence,
    and a link without occurrence is left as it is. *)
Theorem decode_amp_every_occurrence :
  (forall a b,
      decode_amp (a ++ Str.chars "&amp;" ++ b) = decode_amp a ++ "&"%char :: decode_amp b)
  /\ (forall s, Str.includes s (Str.chars "&amp;") = false -> decode_amp s = s).
Proof.
  split; [|apply decode_amp_plain].
  intros a b. apply decode_amp_across. lia.
Qed.

Lemma decode_amp_every_occurrence_witness :
  decode_amp (Str.chars "https://x/y?a=1&amp;amp;b=2") = Str.chars "https://x/y?a=1&amp;b=2".
Proof.
  change (Str.chars "https://x/y?a=1&amp;amp;b=2")
    with (Str.chars "https://x/y?a=1" ++ Str.chars "&amp;" ++ Str.chars "amp;b=2").
  rewrite (proj1 decode_amp_every_occurrence (Str.chars "https://x/y?a=1")
             (Str.chars "amp;b=2")).
  rewrite !(proj2 decode_amp_every_occurrence) by reflexivity.
  reflexivity.
Defined.

(** ** More than one link in plain text *)

(** X12. When the body has no [href] attribute in double quotes and a global
    fallback pattern, the first of the two that matches at all, matches
    more than once, the link is the second of its matches, decoded. *)
Theorem fallback_takes_second_match (messageData : JS.value) (s : string) (p : pattern)
        (m0 m1 : list ascii) (ms : list (list ascii)) :
  locate_body messageData = Ok (JS.String s) -> s <> EmptyString ->
  str_match href_pattern (Str.chars s) = None ->
  str_match download_at_pattern (Str.chars s) = None ->
  p = getJobFile_pattern
  \/ (p = pdf_pattern /\ str_match getJobFile_pattern (Str.chars s) = None) ->
  exec_all true (re p) 0 (Str.chars s) = m0 :: m1 :: ms ->
  extractDownloadUrl messageData = Ok (Str.of_chars (decode_amp m1)).
Proof.
  intros Hbody Hs Hhref Hat Hp Hall.
  unfold extractDownloadUrl, rbind. rewrite Hbody.
  assert (JS.truthy (JS.String s) = true) as ->.
  { simpl. destruct s; [congruence|reflexivity]. }
  simpl negb. cbv iota. unfold extract_from_body. rewrite Hhref.
  assert (str_match p (Str.chars s) = Some (map Some (m0 :: m1 :: ms))) as Hm.
  { unfold str_match. destruct Hp as [->|[-> _]]; simpl flag_g; cbv iota;
      simpl flag_i; rewrite Hall; reflexivity. }
  assert (m1 <> []) as Hm1.
  { assert (exists a b, Str.chars s = a ++ m1 ++ b /\ m1 <> [] /\ ~ In Str.dquote m1)
      as (_ & _ & _ & Hne & _); [|exact Hne].
    destruct Hp as [->|[-> _]].
    - apply (global_match getJobFile_pattern (Str.chars s) _ eq_refl eq_refl
               ltac:(vm_compute; lia) Hm 1 m1 eq_refl).
    - apply (global_match pdf_pattern (Str.chars s) _ eq_refl eq_refl
               ltac:(vm_compute; lia) Hm 1 m1 eq_refl). }
  assert (first_or_whole (map Some (m0 :: m1 :: ms)) = Some m1) as Hpick.
  { unfold first_or_whole. simpl. destruct m1; [congruence|reflexivity]. }
  unfold patterns. cbn [try_patterns]. rewrite Hat.
  destruct Hp as [->|[-> Hjob]].
  - rewrite Hm, Hpick. reflexivity.
  - rewrite Hjob, Hm, Hpick. reflexivity.
Qed.

Lemma fallback_takes_second_match_witness :
  extractDownloadUrl (JS.Obj [("body", JS.String two_links_body)])
  = Ok "https://x/second.pdf".
Proof.
  refine (eq_trans
            (fallback_takes_second_match (JS.Obj [("body", JS.String two_links_body)])
               two_links_body pdf_pattern (Str.chars "https://x/first.pdf")
               (Str.chars "https://x/second.pdf") [] _ _ _ _ _ _) _);
    try (vm_compute; reflexivity).
  - discriminate.
  - right. split; vm_compute; reflexivity.
Defined.

(** ** The health report and the configuration *)

(** X13. The report of [GET /health] tells what the runs will meet: the flag
    for the Missive API is off exactly when every run is dropped for want
    of the key, the flag of a webhook is on exactly when the routing of
    the files that go to it succeeds; the browser is reported as running
    exactly when [globalBrowser] holds an engine; and the status is
    [healthy] in any case. *)
Theorem health_tells_the_configuration (d : deployment) (h : host) (out : outside)
        (w : world) :
  let r := health d h w in
  let cfg := settings d in
  (Health.missiveApiConfigured (Health.config r) = false <->
   forall mid w', fetchMissiveMessage cfg out mid w'
                  = (Throw (Error "MISSIVE_API_KEY is not configured"), w'))
  /\ (Health.fuelReportWebhookConfigured (Health.config r) = true <->
      forall name, contains_ci (Str.chars name) (Str.chars marker) ->
                   exists c, determineWebhookConfig cfg name = Ok c)
  /\ (Health.efsReportWebhookConfigured (Health.config r) = true <->
      forall name, ~ contains_ci (Str.chars name) (Str.chars marker) ->
                   exists c, determineWebhookConfig cfg name = Ok c)
  /\ (Health.browser r = "running" <-> exists b, globalBrowser w = Some b)
  /\ Health.status r = "healthy".
Proof.
  intros r cfg. subst r. simpl.
  assert (forall name,
             contains_ci (Str.chars name) (Str.chars marker)
             <-> Str.includes (Str.toLowerCase (Str.chars name)) (Str.chars marker) = true)
    as Hmark.
  { intros name. symmetry. apply includes_lower_contains_ci, marker_lower. }
  split; [|split; [|split; [|split; [|reflexivity]]]].
  - split.
    + intros Hoff mid w'. unfold fetchMissiveMessage.
      apply negb_false_iff in Hoff. fold cfg in Hoff. rewrite Hoff. reflexivity.
    + intros Hdrop. specialize (Hdrop JS.Null w). unfold fetchMissiveMessage in Hdrop.
      fold cfg. destruct (env_falsy (MISSIVE_API_KEY cfg)); [reflexivity|].
      unfold bind, emit, modify_world in Hdrop.
      destruct (missive_reply out JS.Null) as [data|e];
        [destruct (log_reply_shape data)|]; discriminate.
  - split.
    + intros Hon name Hname%Hmark. rewrite (determineWebhookConfig_fuel _ _ Hname).
      apply negb_true_iff in Hon. fold cfg in Hon. rewrite Hon. eauto.
    + intros Hroute. destruct (Hroute marker) as [c Hc].
      { apply Hmark. reflexivity. }
      rewrite determineWebhookConfig_fuel in Hc by reflexivity. fold cfg.
      destruct (env_falsy (FUELREPORTWEBHOOK cfg)); [discriminate|reflexivity].
  - split.
    + intros Hon name Hname.
      assert (Str.includes (Str.toLowerCase (Str.chars name)) (Str.chars marker) = false)
        as Hno.
      { destruct (Str.includes _ _) eqn:Hin; [|reflexivity].
        exfalso. apply Hname, Hmark. exact Hin. }
      rewrite (determineWebhookConfig_efs _ _ Hno).
      apply negb_true_iff in Hon. fold cfg in Hon. rewrite Hon. eauto.
    + intros Hroute. destruct (Hroute EmptyString) as [c Hc].
      { intros Hin%Hmark. discriminate. }
      rewrite determineWebhookConfig_efs in Hc by reflexivity. fold cfg.
      destruct (env_falsy (EFSREPORTWEBHOOK cfg)); [discriminate|reflexivity].
  - destruct (globalBrowser w) as [b|]; split.
    + eauto.
    + reflexivity.
    + discriminate.
    + intros [b Hb]. discriminate.
Qed.

Lemma health_tells_the_configuration_witness :
  Health.fuelReportWebhookConfigured
    (Health.config (health example_deployment example_host empty_world)) = false
  /\ ~ (forall name, contains_ci (Str.chars name) (Str.chars marker) ->
                     exists c, determineWebhookConfig empty_endpoint_config name = Ok c).
Proof.
  split; [reflexivity|].
  intros Hroute.
  apply (proj2 (proj1 (proj2 (health_tells_the_configuration example_deployment
                                example_host friendly_outside empty_world))))
    in Hroute.
  discriminate.
Defined.

(** ** The persistent directory and the start of the server *)

Lemma fs_mkdir_run out dir w :
  fs_mkdir out dir w
  = match mkdir_error out with
    | Some e => (Throw e, log_event (Mkdir dir) w)
    | None =>
        (Ok tt, match fs w !! dir with
                | Some _ => log_event (Mkdir dir) w
                | None => set_fs (<[dir := []]> (fs w)) (log_event (Mkdir dir) w)
                end)
    end.
Proof.
  unfold fs_mkdir, bind, emit, modify_world, fail_if, ret, throw. simpl.
  destruct (mkdir_error out); reflexivity.
Qed.

Lemma ensurePersistentDir_made cfg h w :
  fst (ensurePersistentDir cfg h w) = Ok tt ->
  is_Some (fs (snd (ensurePersistentDir cfg h w)) !! PERSISTENT_DIR cfg).
Proof.
  unfold ensurePersistentDir, try_catch, fs_access, bind, get_world, fail_if, ret, throw.
  destruct (fs w !! PERSISTENT_DIR cfg) as [entries|] eqn:Hdir.
  - destruct (access_error h) as [e|]; [|simpl; rewrite Hdir; eauto].
    rewrite fs_mkdir_run.
    destruct (mkdir_error (run_outside h)); simpl; [discriminate|].
    rewrite Hdir. simpl. rewrite Hdir. eauto.
  - rewrite fs_mkdir_run.
    destruct (mkdir_error (run_outside h)); simpl; [discriminate|].
    rewrite Hdir. simpl. rewrite lookup_insert_eq. eauto.
Qed.



Lemma initBrowser_returns out w b :
  fst (initBrowser out w) = Ok b ->
  is_Some b /\ globalBrowser (snd (initBrowser out w)) = b.
Proof.
  unfold initBrowser, initBrowser_enter, initBrowser_leave, chromium_launch, bind,
    get_world, emit, modify_world, fail_if, ret, throw. simpl.
  destruct (globalBrowser w) as [b0|] eqn:Hb; simpl.
  - rewrite Hb. intros [= <-]. eauto.
  - destruct (launch_error out); simpl; [discriminate|]. intros [= <-]. eauto.
Qed.

Lemma ensurePersistentDir_shares cfg h :
  stays io_world shares_browser (ensurePersistentDir cfg h).
Proof. unfold ensurePersistentDir, fs_access, fs_mkdir. browser_auto. Qed.

(** X15. After a start that went through, the persistent directory exists and
    [globalBrowser] holds an engine, which serves all the requests that
    are then handled one after the other: none of them launches an
    engine. *)
Theorem startup_then_requests (cfg : config) (h : host) (w : world)
        (requests : list (outside * JS.value)) :
  fst (startup cfg h w) = Ok tt ->
  let w1 := snd (startup cfg h w) in
  let w2 := serve cfg requests w1 in
  is_Some (fs w1 !! PERSISTENT_DIR cfg)
  /\ exists b,
      globalBrowser w1 = Some b
      /\ globalBrowser w2 = Some b
      /\ engines w2 = engines w1
      /\ ~ In Launch (added w1 w2).
Proof.
  unfold startup, bind, ret.
  pose proof (ensurePersistentDir_made cfg h w) as Hmade.
  destruct (ensurePersistentDir cfg h w) as [[[]|e] w0] eqn:Hensure; [|discriminate].
  pose proof (initBrowser_returns (run_outside h) w0) as Hinit.
  assert (fs (snd (initBrowser (run_outside h) w0)) = fs w0) as Hfs
    by apply (initBrowser_keeps (run_outside h) w0).
  destruct (initBrowser (run_outside h) w0) as [[b|e] w1]; [|discriminate].
  intros _. cbn [fst snd] in *. destruct (Hinit b eq_refl) as [[b1 ->] Hb].
  split; [rewrite Hfs; apply Hmade; reflexivity|].
  exists b1. split; [exact Hb|].
  pose proof (serve_shares cfg requests w1) as Hshare. unfold shares_browser in Hshare.
  rewrite Hb in Hshare. destruct Hshare as (Hb2 & He & Hg).
  repeat split; auto.
  apply grows_added in Hg. rewrite List.Forall_forall in Hg.
  intros Hin. specialize (Hg _ Hin). discriminate.
Qed.

Lemma startup_then_requests_witness :
  exists b,
    globalBrowser (snd (startup example_config example_host empty_world)) = Some b
    /\ globalBrowser
         (serve example_config [(friendly_outside, example_request)]
                (snd (startup example_config example_host empty_world)))
       = Some b.
Proof.
  destruct (startup_then_requests example_config example_host empty_world
              [(friendly_outside, example_request)] eq_refl)
    as (_ & b & Hb & Hb' & _).
  exists b. split; assumption.
Defined.

(** ** Restarting the browser *)

(** What [POST /restart-browser] does, case by case. *)
Lemma restart_browser_run h s :
  restart_browser h s
  = (Ok tt,
     let w := world_now s in
     let out := run_outside h in
     let failed e w1 := log_event (Respond 500 (restart_failed e (now out))) w1 in
     let launch closed_now w1 :=
       match launch_error out with
       | Some e => {| world_now := failed e (log_event Launch w1); closed := closed_now |}
       | None =>
           {| world_now :=
                log_event (Respond 200 (restarted (now out)))
                  (set_browser (Some (engines w1)) (S (engines w1)) (log_event Launch w1));
              closed := closed_now |}
       end in
     match globalBrowser w with
     | Some b =>
         match closeBrowser_error h with
         | Some e => {| world_now := failed e w; closed := closed s |}
         | None => launch (b :: closed s) (set_browser None (engines w) w)
         end
     | None => launch (closed s) w
     end).
Proof.
  destruct s as [w cl].
  unfold restart_browser, in_world, browser_close, initBrowser, initBrowser_enter,
    initBrowser_leave, chromium_launch, emit, try_catch, bind, get_world, modify_world,
    fail_if, ret, throw.
  cbn [world_now closed fst snd].
  destruct (globalBrowser w) as [b|] eqn:Hb.
  - destruct (closeBrowser_error h) as [e|]; cbn; [reflexivity|].
    destruct (launch_error (run_outside h)) as [e|]; reflexivity.
  - cbn. rewrite ?Hb. destruct (launch_error (run_outside h)) as [e|]; cbn;
      rewrite ?Hb; reflexivity.
Qed.

(** X16. [POST /restart-browser] never throws and sends one response. With
    nothing failing it is 200: the engine that [globalBrowser] held, if
    any, is closed and [globalBrowser] holds a new one. When the engine
    cannot be closed the response is 500 with the message of the error,
    [globalBrowser] still holds that engine and none is launched: a
    browser that does not close cannot be replaced. When the launch fails
    the response is 500 with its message and [globalBrowser] is
    [null]. *)
Theorem restart_browser_outcomes (h : host) (s : server) :
  let r := restart_browser h s in
  let w := world_now s in
  let w' := world_now (snd r) in
  let out := run_outside h in
  fst r = Ok tt
  /\ (exists status json,
        responses (added w w') = [Respond status json]
        /\ (status = 200 \/ status = 500)%Z)
  /\ ((globalBrowser w = None \/ closeBrowser_error h = None) ->
      launch_error out = None ->
      responses (added w w') = [Respond 200 (restarted (now out))]
      /\ globalBrowser w' = Some (engines w)
      /\ engines w' = S (engines w)
      /\ closed (snd r) = option_list (globalBrowser w) ++ closed s)
  /\ (forall b e,
        globalBrowser w = Some b -> closeBrowser_error h = Some e ->
        snd r = {| world_now := log_event (Respond 500 (restart_failed e (now out))) w;
                   closed := closed s |})
  /\ (forall e,
        (globalBrowser w = None \/ closeBrowser_error h = None) ->
        launch_error out = Some e ->
        responses (added w w') = [Respond 500 (restart_failed e (now out))]
        /\ globalBrowser w' = None
        /\ engines w' = engines w).
Proof.
  intros r w w' out. subst r w'. rewrite restart_browser_run. cbn [fst snd].
  fold w out. cbv zeta.
  assert (forall evs w1, trace w1 = trace w ++ evs -> added w w1 = evs) as Hadded
    by (intros evs w1; apply added_app).
  split; [reflexivity|].
  destruct (globalBrowser w) as [b|] eqn:Hb;
    [destruct (closeBrowser_error h) as [ec|] eqn:Hc|];
    destruct (launch_error out) as [el|] eqn:Hl; cbn [world_now closed];
    (split; [eexists _, _; split;
             [erewrite Hadded by (cbn; rewrite <- ?app_assoc; reflexivity);
              reflexivity|auto]|]);
    (split; [intros Hclose Hlaunch; try discriminate;
             try (destruct Hclose; discriminate);
             erewrite Hadded by (cbn; rewrite <- ?app_assoc; reflexivity);
             repeat split|]);
    (split; [intros b' e' Hb' Hc'; try discriminate; try congruence|]);
    intros e' Hclose Hlaunch; try discriminate; try (destruct Hclose; discriminate);
    injection Hlaunch as <-;
    erewrite Hadded by (cbn; rewrite <- ?app_assoc; reflexivity);
    repeat split; cbn; assumption.
Qed.

Lemma restart_browser_outcomes_witness :
  snd (restart_browser stuck_browser_host
         {| world_now := set_browser (Some 0) 1 empty_world; closed := [] |})
  = {| world_now :=
         log_event (Respond 500 (restart_failed (External "Target closed")
                                                "2024-01-01T00:00:00.000Z"))
                   (set_browser (Some 0) 1 empty_world);
       closed := [] |}.
Proof.
  apply (proj1 (proj2 (proj2 (proj2
           (restart_browser_outcomes stuck_browser_host
              {| world_now := set_browser (Some 0) 1 empty_world; closed := [] |}))))
           0 (External "Target closed")); reflexivity.
Defined.

(** ** The engine in [globalBrowser] is alive *)

Lemma handle_alive cfg c s : browser_alive s -> browser_alive (handle cfg c s).
Proof.
  intros [Hlive Hclosed]. destruct c as [out body|h]; unfold handle.
  - pose proof (processreport_shares cfg out body (world_now s)) as Hshare.
    unfold shares_browser in Hshare. unfold browser_alive. cbn [world_now closed].
    destruct (globalBrowser (world_now s)) as [b|] eqn:Hb.
    + destruct Hshare as (Hb' & He & _). rewrite Hb', He.
      split; [|exact Hclosed]. intros b' [= <-]. apply Hlive. reflexivity.
    + destruct Hshare as [[Hb' He]|[Hb' He]]; rewrite Hb', He.
      * split; [discriminate|exact Hclosed].
      * split.
        -- intros b' [= <-]. split; [|lia]. intros Hin.
           rewrite List.Forall_forall in Hclosed. specialize (Hclosed _ Hin). lia.
        -- eapply Forall_impl; [exact Hclosed|]. simpl. intros; lia.
  - rewrite restart_browser_run. cbn [snd]. cbv zeta. unfold browser_alive.
    assert (forall n, engines (world_now s) <= n ->
                      Forall (fun c => c < n) (closed s)) as Hbelow.
    { intros n Hn. eapply Forall_impl; [exact Hclosed|]. simpl. intros; lia. }
    assert (forall n, engines (world_now s) <= n -> ~ In n (closed s)) as Hfresh.
    { intros n Hn Hin. rewrite List.Forall_forall in Hclosed.
      specialize (Hclosed _ Hin). lia. }
    destruct (globalBrowser (world_now s)) as [b|] eqn:Hb.
    + destruct (Hlive b eq_refl) as [Hnot Hlt].
      destruct (closeBrowser_error h).
      * cbn. rewrite Hb. split; [|exact Hclosed]. intros b' [= <-]. auto.
      * destruct (launch_error (run_outside h)); cbn.
        -- split; [discriminate|]. constructor; [exact Hlt|exact Hclosed].
        -- split.
           ++ intros b' [= <-]. split; [|lia]. intros [->|Hin]; [lia|].
              exact (Hfresh _ (Nat.le_refl _) Hin).
           ++ constructor; [lia|]. apply Hbelow. lia.
    + destruct (launch_error (run_outside h)); cbn.
      * rewrite Hb. split; [discriminate|exact Hclosed].
      * split.
        -- intros b' [= <-]. split; [|lia]. apply Hfresh. lia.
        -- apply Hbelow. lia.
Qed.

(** X17. Whatever requests and restarts the server handles one after the
    other, [globalBrowser] never holds an engine that was closed. *)
Theorem browser_stays_alive (cfg : config) (calls : list call) (s : server) :
  browser_alive s ->
  browser_alive (handle_all cfg calls s)
  /\ forall b, globalBrowser (world_now (handle_all cfg calls s)) = Some b ->
               ~ In b (closed (handle_all cfg calls s)).
Proof.
  intros Hs.
  assert (browser_alive (handle_all cfg calls s)) as H.
  { unfold handle_all. revert s Hs. induction calls as [|c calls IH]; intros s Hs; simpl.
    - exact Hs.
    - apply IH, handle_alive, Hs. }
  split; [exact H|]. intros b Hb. apply H. exact Hb.
Qed.

Lemma browser_stays_alive_witness :
  browser_alive
    (handle_all example_config
       [Report friendly_outside example_request; Restart example_host;
        Restart stuck_browser_host; Report refusing_webhook example_request]
       new_server).
Proof.
  apply browser_stays_alive.
  split; [discriminate|constructor].
Defined.

(** ** The errors of [fetchMissiveMessage] *)



(** ** A page that does not close *)

Lemma release_files_no_close out l :
  adds io_world (fun e => is_close_context e = false) (release_files out l).
Proof.
  unfold release_files, fs_unlink, fs_readdir, fs_rmdir. steady_auto.
Qed.

(** X19. When [page.close()] throws in the [finally] block, the block ends
    there: [context.close()] is not called, the page and the context of
    the run stay open, and the error leaves the block, so that the run
    ends with it. *)
Theorem release_stops_at_page_close (out : outside) (l : locals) (w : world)
        (pg : nat) (e : exn) :
  page l = Some pg -> In pg (pages w) -> closePage_error out = Some e ->
  let r := release_with out l w in
  fst r = Throw e
  /\ contexts (snd r) = contexts w
  /\ pages (snd r) = pages w
  /\ (forall c, ~ In (CloseContext c) (added w (snd r)))
  /\ (forall cfg rd mid cid w0,
        snd (pipeline cfg out rd mid cid (no_locals, w0)) = (l, w) ->
        fst (processDownloadAsync cfg out rd mid cid w0) = Throw e).
Proof.
  intros Hpage Hin Hclose r.
  assert (fst r = Throw e
          /\ contexts (snd r) = contexts w /\ pages (snd r) = pages w
          /\ forall c, ~ In (CloseContext c) (added w (snd r))) as H.
  { subst r. rewrite release_with_halves. unfold bind.
    pose proof (release_files_ok out l w) as Hok.
    pose proof (release_files_handles out l w) as (Hc & Hp & _).
    pose proof (release_files_no_close out l w) as Hgrow.
    unfold io_world in *.
    destruct (release_files out l w) as [[[]|e'] w1]; cbn [fst snd] in *; [|discriminate].
    unfold release_handles, bind. rewrite Hpage.
    unfold page_close, bind, emit, get_world, modify_world, fail_if, throw.
    cbn [fst snd pages log_event].
    assert (has_id pg (pages w1) = true) as ->.
    { rewrite Hp. unfold has_id. apply existsb_exists. exists pg.
      split; [exact Hin|apply Nat.eqb_refl]. }
    rewrite Hclose. cbn [fst snd]. repeat split; auto.
    intros c Hc'.
    assert (grows (fun e => is_close_context e = false) w
                  (log_event (ClosePage pg) w1)) as Hall.
    { eapply grows_trans; [exact Hgrow|]. apply grows_log. reflexivity. }
    apply grows_added in Hall. rewrite List.Forall_forall in Hall.
    specialize (Hall _ Hc'). discriminate. }
  destruct H as (Hr & Hc & Hp & Hno). repeat split; auto.
  intros cfg rd mid cid w0 Hend. rewrite processDownloadAsync_release, Hend. exact Hr.
Qed.

Lemma release_stops_at_page_close_witness :
  fst (processDownloadAsync example_config stuck_page example_request (JS.String "m1")
                            JS.Undefined empty_world)
  = Throw (External "Target page, context or browser has been closed").
Proof.
  refine (proj2 (proj2 (proj2 (proj2
            (release_stops_at_page_close stuck_page
               (fst (snd (pipeline example_config stuck_page example_request
                                   (JS.String "m1") JS.Undefined (no_locals, empty_world))))
               (snd (snd (pipeline example_config stuck_page example_request
                                   (JS.String "m1") JS.Undefined (no_locals, empty_world))))
               1 _ _ _ _))))
            example_config example_request (JS.String "m1") JS.Undefined empty_world _).
  - vm_compute. reflexivity.
  - vm_compute. auto.
  - reflexivity.
  - destruct (pipeline _ _ _ _ _ _) as [r [l w]]. reflexivity.
Defined.

(** ** A run in which nothing fails *)











(** ** A run closes what it opened *)

Lemma keeps_open_order : preorder keeps_open.
Proof.
  split.
  - intros w. repeat split; auto using incl_refl, Nat.le_refl.
  - intros w1 w2 w3 (Hc & Hp & Hn) (Hc' & Hp' & Hn').
    repeat split; [eapply incl_tran; eauto..|lia].
Qed.

(** An update of the world that leaves the handles alone. *)
Ltac handles_side :=
  let w := fresh "w" in
  solve [ intros w; unfold keeps_open, store;
          repeat match goal with
                 | |- context [match fs ?x !! ?d with _ => _ end] => destruct (fs x !! d)
                 end;
          cbn [contexts pages fresh set_fs set_browser log_event];
          repeat split; auto using incl_refl, Nat.le_refl ].

Ltac handles_auto := repeat stays_step keeps_open_order handles_side.

Section Handles.

Context (cfg : config) (out : outside).

Lemma browser_newContext_keeps_open dir :
  stays io_world keeps_open (browser_newContext out dir).
Proof.
  intros w. unfold io_world, keeps_open, browser_newContext, bind, emit, get_world,
    modify_world, fail_if, ret, throw. cbn [fst snd].
  destruct (newContext_error out); cbn;
    repeat split; auto using incl_refl, incl_appl, Nat.le_refl.
Qed.

Lemma context_newPage_keeps_open c :
  stays io_world keeps_open (context_newPage out c).
Proof.
  intros w. unfold io_world, keeps_open, context_newPage, bind, emit, get_world,
    modify_world, fail_if, ret, throw. cbn [fst snd].
  destruct (newPage_error out); cbn;
    repeat split; auto using incl_refl, incl_appl, Nat.le_refl.
Qed.

Lemma browser_newContext_fresh dir w c :
  fst (browser_newContext out dir w) = Ok c -> c = fresh w.
Proof.
  unfold browser_newContext, bind, emit, get_world, modify_world, fail_if, ret, throw.
  cbn [fst snd]. destruct (newContext_error out); cbn; congruence.
Qed.

Lemma context_newPage_fresh c w p :
  fst (context_newPage out c w) = Ok p -> p = fresh w.
Proof.
  unfold context_newPage, bind, emit, get_world, modify_world, fail_if, ret, throw.
  cbn [fst snd]. destruct (newPage_error out); cbn; congruence.
Qed.

Lemma downloadWithRetry_keeps_open pg url dir retries :
  stays io_world keeps_open (downloadWithRetry cfg out pg url dir retries).
Proof.
  apply downloadWithRetry_stays; [apply keeps_open_order| |]; intros n.
  - unfold download_attempt. handles_auto.
  - unfold before_retry, sleep, page_reload. handles_auto.
Qed.

Lemma webhook_loop_keeps_open r n :
  stays run_world keeps_open (webhook_loop cfg out r n).
Proof.
  apply webhook_loop_stays; [apply keeps_open_order|].
  intros e w _. repeat split; auto using incl_refl, Nat.le_refl.
Qed.

Lemma early_calls_keep_open mid dir :
  stays io_world keeps_open (fetchMissiveMessage cfg out mid)
  /\ stays io_world keeps_open (initBrowser out)
  /\ stays io_world keeps_open (fs_mkdir out dir)
  /\ (forall p, stays io_world keeps_open (fs_readFile out p)).
Proof.
  split; [|split; [|split; [|intros p]]];
    unfold fetchMissiveMessage, initBrowser, initBrowser_enter, initBrowser_leave,
      chromium_launch, fs_mkdir, fs_readFile; handles_auto.
Qed.

End Handles.

Lemma hoare_on_world_stays {A} (R : world -> world -> Prop) (P : locals -> Prop)
      (w0 : world) (m : IO A) :
  preorder R -> stays io_world R m ->
  hoare (fun s => R w0 (snd s) /\ P (fst s)) (on_world m)
        (fun _ s => R w0 (snd s) /\ P (fst s)) (fun s => R w0 (snd s) /\ P (fst s)).
Proof.
  intros [_ Htrans] Hm [l w] [Hw Hl]. unfold on_world. cbn [fst snd].
  specialize (Hm w). unfold io_world in Hm.
  destruct (m w) as [[a|e] w1]; cbn [fst snd] in *; split; eauto.
Qed.

Section OwnHandles.

Context (cfg : config) (out : outside) (w0 : world).

Abbreviation run_state :=
  (fun s : locals * world => keeps_open w0 (snd s) /\ own_handles w0 (fst s)).

Lemma hoare_run_state_locals f :
  (forall l, own_handles w0 l -> own_handles w0 (f l)) ->
  hoare run_state (modify_locals f) (fun _ => run_state) run_state.
Proof. intros Hf [l w] [Hw Hl]. cbn. auto. Qed.

Lemma hoare_run_state_world {A} (m : IO A) :
  stays io_world keeps_open m ->
  hoare run_state (on_world m) (fun _ => run_state) run_state.
Proof. apply hoare_on_world_stays, keeps_open_order. Qed.

Lemma hoare_run_state_lift {A} (r : result A) :
  hoare run_state (lift r) (fun _ => run_state) run_state.
Proof. apply (hoare_lift run_state). auto. Qed.

(** A handle that a call makes is a new one. *)
Lemma hoare_run_state_handle (m : IO nat) :
  stays io_world keeps_open m ->
  (forall w id, fst (m w) = Ok id -> id = fresh w) ->
  hoare run_state (on_world m) (fun id s => run_state s /\ fresh w0 <= id) run_state.
Proof.
  intros Hm Hid [l w] [Hw Hl]. unfold on_world. cbn [fst snd].
  pose proof (Hm w) as Hstep. pose proof (Hid w) as Hnew. unfold io_world in Hstep.
  assert (keeps_open w0 (snd (m w))) as Hw1
    by (eapply (proj2 keeps_open_order); eauto).
  destruct (m w) as [[id|e] w1]; cbn [fst snd] in *; [|auto].
  split; [auto|]. rewrite (Hnew id eq_refl). apply Hw.
Qed.

Lemma pipeline_run_state rd mid cid :
  hoare run_state (pipeline cfg out rd mid cid) (fun _ => run_state) run_state.
Proof.
  destruct (early_calls_keep_open cfg out mid
              (path_join (PERSISTENT_DIR cfg) (dir_name out)))
    as (Hfetch & Hinit & Hmkdir & Hread).
  assert (forall f, (forall l, context (f l) = context l /\ page (f l) = page l) ->
                    hoare run_state (modify_locals f) (fun _ => run_state) run_state)
    as Hsame.
  { intros f Hf. apply hoare_run_state_locals. intros l [Hc Hp].
    destruct (Hf l) as [Hfc Hfp]. split; intros x Hx; [apply Hc|apply Hp]; congruence. }
  unfold pipeline, resolve_and_download, route_and_relay.
  eapply hoare_bind with (Q' := fun _ => run_state); [|intros got].
  - eapply hoare_bind; [apply hoare_run_state_lift|intros ?].
    eapply hoare_bind with (Q' := fun _ => run_state); [|intros ?].
    { unfold when. destruct (JS.truthy _); [|apply hoare_ret; auto].
      apply Hsame. intros l. split; reflexivity. }
    eapply hoare_bind; [apply hoare_run_state_world, Hfetch|intros messageData].
    cbv zeta.
    eapply hoare_bind; [apply hoare_run_state_lift|intros downloadUrl].
    eapply hoare_bind; [apply hoare_run_state_world, Hinit|intros browser].
    eapply hoare_bind; [apply Hsame; intros l; split; reflexivity|intros ?].
    eapply hoare_bind; [apply hoare_run_state_world, Hmkdir|intros ?].
    eapply hoare_bind with (Q' := fun id s => run_state s /\ fresh w0 <= id);
      [|intros ctx].
    { destruct browser; [|apply hoare_throw; auto].
      apply hoare_run_state_handle;
        [apply browser_newContext_keeps_open|apply browser_newContext_fresh]. }
    eapply hoare_bind with (Q' := fun _ => run_state); [|intros ?].
    { intros [l w] [[Hw [Hc Hp]] Hctx]. cbn. split; [exact Hw|].
      split; [intros c [= <-]; exact Hctx|exact Hp]. }
    eapply hoare_bind with (Q' := fun id s => run_state s /\ fresh w0 <= id);
      [|intros pg].
    { apply hoare_run_state_handle;
        [apply context_newPage_keeps_open|apply context_newPage_fresh]. }
    eapply hoare_bind with (Q' := fun _ => run_state); [|intros ?].
    { intros [l w] [[Hw [Hc Hp]] Hpg]. cbn. split; [exact Hw|].
      split; [exact Hc|intros p [= <-]; exact Hpg]. }
    eapply hoare_bind;
      [apply hoare_run_state_world, downloadWithRetry_keeps_open|intros res].
    eapply hoare_bind; [apply Hsame; intros l; split; reflexivity|intros ?].
    apply hoare_ret. auto.
  - eapply hoare_bind; [apply hoare_run_state_lift|intros webhookConfig].
    eapply hoare_bind; [apply Hsame; intros l; split; reflexivity|intros ?].
    eapply hoare_bind; [apply hoare_run_state_world, Hread|intros buffer].
    eapply hoare_bind with (Q' := fun _ => run_state); [|intros response].
    + intros [l w] [Hw Hl].
      match goal with
      | |- context [webhook_loop cfg out ?r 0 (l, w)] =>
          pose proof (webhook_loop_keeps_open cfg out r 0 (l, w)) as Hloop;
          destruct (webhook_loop_from cfg out r _ 0 l w (Nat.le_refl _)) as (Hsamel & _);
          destruct (webhook_loop cfg out r 0 (l, w)) as [[x|e] [l1 w1]]
      end; unfold run_world in Hloop; cbn [fst snd] in *; subst l1;
        (split; [eapply (proj2 keeps_open_order); eauto|exact Hl]).
    + destruct response; [apply hoare_ret; auto|apply hoare_throw; auto].
Qed.

Hypothesis handles : handles_ok w0.

Lemma remove_id_keeps id l c : c <> id -> In c l -> In c (remove_id id l).
Proof.
  intros Hne Hin. unfold remove_id. apply filter_In. split; [exact Hin|].
  apply negb_true_iff, Nat.eqb_neq. exact Hne.
Qed.

Lemma release_with_keeps_old l w :
  own_handles w0 l ->
  incl (contexts w0) (contexts w) -> incl (pages w0) (pages w) ->
  incl (contexts w0) (contexts (snd (release_with out l w)))
  /\ incl (pages w0) (pages (snd (release_with out l w))).
Proof.
  intros [Hown_c Hown_p] Hc Hp. destruct handles as [Hold_c Hold_p].
  rewrite List.Forall_forall in Hold_c, Hold_p.
  rewrite release_with_halves. unfold bind.
  pose proof (release_files_handles out l w) as (Hc1 & Hp1 & _).
  unfold io_world in *.
  destruct (release_files out l w) as [[[]|e] w1]; cbn [fst snd] in *;
    [|split; [rewrite Hc1|rewrite Hp1]; assumption].
  assert (incl (contexts w0) (contexts w1)) as Hc' by (rewrite Hc1; exact Hc).
  assert (incl (pages w0) (pages w1)) as Hp' by (rewrite Hp1; exact Hp).
  clear Hc Hp Hc1 Hp1.
  unfold release_handles, page_close, context_close, bind, emit, get_world,
    modify_world, fail_if, ret, throw.
  destruct (page l) as [pg|] eqn:Hpage, (context l) as [c|] eqn:Hctx;
    cbn [fst snd contexts pages log_event set_handles];
    repeat match goal with
           | |- context [has_id ?i ?ids] => destruct (has_id i ids)
           | |- context [closePage_error out] => destruct (closePage_error out)
           | |- context [closeContext_error out] => destruct (closeContext_error out)
           | _ => progress cbn [fst snd contexts pages log_event set_handles]
           end;
    split; try assumption;
    intros id Hid; apply remove_id_keeps; auto;
    first [ specialize (Hold_c _ Hid); specialize (Hown_c _ eq_refl); lia
          | specialize (Hold_p _ Hid); specialize (Hown_p _ eq_refl); lia ].
Qed.

End OwnHandles.

(** X21. A run closes no context and no page but its own: from a world whose
    handles are numbered below the next one, every context and every page
    that was open before the run is open after it, whatever happened in
    between; so it is after a request, whatever its body. *)
Theorem run_leaves_other_handles_open (cfg : config) (out : outside)
        (requestData messageId conversationId body : JS.value) (w : world) :
  handles_ok w ->
  let w' := snd (processDownloadAsync cfg out requestData messageId conversationId w) in
  let w'' := processreport cfg out body w in
  incl (contexts w) (contexts w') /\ incl (pages w) (pages w')
  /\ incl (contexts w) (contexts w'') /\ incl (pages w) (pages w'').
Proof.
  intros Hok.
  assert (forall rd mid cid w1,
             contexts w1 = contexts w -> pages w1 = pages w -> fresh w1 = fresh w ->
             incl (contexts w) (contexts (snd (processDownloadAsync cfg out rd mid cid w1)))
             /\ incl (pages w) (pages (snd (processDownloadAsync cfg out rd mid cid w1))))
    as Hrun.
  { intros rd mid cid w1 Hc Hp Hn. rewrite processDownloadAsync_release.
    pose proof (pipeline_run_state cfg out w1 rd mid cid (no_locals, w1)) as Hstate.
    assert (keeps_open w1 (snd (snd (pipeline cfg out rd mid cid (no_locals, w1))))
            /\ own_handles w1 (fst (snd (pipeline cfg out rd mid cid (no_locals, w1)))))
      as [(Hc1 & Hp1 & _) Hown].
    { destruct (pipeline cfg out rd mid cid (no_locals, w1)) as [[u|e] s];
        apply Hstate; (split; [apply keeps_open_order|split; discriminate]). }
    rewrite <- Hc, <- Hp.
    apply release_with_keeps_old; auto.
    unfold handles_ok. rewrite Hc, Hp, Hn. exact Hok. }
  split; [apply (Hrun _ _ _ w); reflexivity|].
  split; [apply (Hrun _ _ _ w); reflexivity|].
  unfold processreport. cbv zeta.
  destruct (negb (JS.truthy (requestData_of body)));
    [split; apply incl_refl|].
  destruct (negb (JS.truthy (messageId_of (requestData_of body))));
    [split; apply incl_refl|].
  apply Hrun; reflexivity.
Qed.

Lemma run_leaves_other_handles_open_witness :
  In 4 (contexts (processreport example_config stuck_page example_request shared_world))
  /\ In 5 (pages (processreport example_config stuck_page example_request shared_world)).
Proof.
  assert (handles_ok shared_world) as Hok.
  { split; repeat constructor. }
  destruct (run_leaves_other_handles_open example_config stuck_page JS.Null JS.Null JS.Null
              example_request shared_world Hok) as (_ & _ & Hc & Hp).
  split; [apply Hc|apply Hp]; left; reflexivity.
Defined.

(** ** The first version: one response, after the delivery *)

Lemma first_version_loop_step out u n st :
  V2.webhook_loop out u n st
  = if (n <=? 3)%nat then
      match V2.axios_post out u n st with
      | (Ok status, st') => (Ok (status, n), st')
      | (Throw webhookError, st') =>
          if (3 <? S n)%nat then (Throw (V2.relay_failed webhookError), st')
          else
            match V2.on_run (on_world (sleep RETRY_DELAY)) st' with
            | (Ok _, st'') => V2.webhook_loop out u (S n) st''
            | (Throw e, st'') => (Throw e, st'')
            end
      end
    else (Throw NO_STATUS, st).
Proof.
  rewrite V2.webhook_loop_equation_1.
  generalize (inspect (n <=? 3)%nat).
  intros [[] e]; simp webhook_loop; [|rewrite e; reflexivity].
  destruct (V2.axios_post out u n st) as [[status|err] st']; simp webhook_loop;
    [rewrite e; reflexivity|].
  generalize (inspect (3 <? S n)%nat).
  intros [[] e']; simp webhook_loop; [rewrite e, e'; reflexivity|].
  destruct (V2.on_run (on_world (sleep RETRY_DELAY)) st') as [[x|e''] st''] eqn:Hs;
    simp webhook_loop; rewrite e, e'; reflexivity.
Qed.

(** From pass [n] on, the loop posts the same form until a post goes
    through or the fourth one fails, and only pauses in between. *)
Lemma first_version_loop out u :
  forall k n s, k = 4 - n -> n <= 3 ->
    match V2.webhook_loop out u n s with
    | (Ok (status, j), s') =>
        n <= j <= 3 /\ V2.upload_result out j u = Ok status /\ refused out u n j
        /\ snd s' = snd s ++ repeat u (S j - n)
        /\ grows quiet (V2.request_world s) (V2.request_world s')
    | (Throw e, s') =>
        (exists e0, V2.upload_result out 3 u = Throw e0 /\ e = V2.relay_failed e0)
        /\ refused out u n 4
        /\ snd s' = snd s ++ repeat u (4 - n)
        /\ grows quiet (V2.request_world s) (V2.request_world s')
    end.
Proof.
  induction k as [k IH] using lt_wf_ind. intros n [[l w] ups] -> Hn.
  rewrite first_version_loop_step.
  destruct (n <=? 3)%nat eqn:Hle; [|apply Nat.leb_gt in Hle; lia].
  unfold V2.axios_post. cbn [fst snd].
  destruct (V2.upload_result out n u) as [status|err] eqn:Hpost.
  - split; [lia|]. split; [exact Hpost|]. split; [intros j Hj; lia|].
    split; [|apply grows_refl].
    replace (S n - n) with 1 by lia. reflexivity.
  - destruct (3 <? S n)%nat eqn:Hlast.
    + apply Nat.ltb_lt in Hlast. assert (n = 3) as -> by lia.
      split; [eauto|]. split; [|split; [reflexivity|apply grows_refl]].
      intros j Hj. assert (j = 3) as -> by lia. eauto.
    + apply Nat.ltb_ge in Hlast.
      change (V2.on_run (on_world (sleep RETRY_DELAY)) (l, w, ups ++ [u]))
        with (@Ok unit tt, ((l, log_event (Sleep RETRY_DELAY) w), ups ++ [u])).
      cbv iota.
      specialize (IH (4 - S n) ltac:(lia) (S n)
                     ((l, log_event (Sleep RETRY_DELAY) w), ups ++ [u]) eq_refl ltac:(lia)).
      destruct (V2.webhook_loop out u (S n) _) as [[[status j]|e] s'];
        cbn [fst snd V2.request_world] in *.
      * destruct IH as (Hj & Hok & Hfail & Hups & Hgrows).
        split; [lia|]. split; [exact Hok|]. split; [|split].
        -- intros i Hi. destruct (Nat.eq_dec i n) as [->|Hne]; [eauto|].
           apply Hfail. lia.
        -- rewrite Hups, <- app_assoc. f_equal.
           replace (S j - n) with (S (S j - S n)) by lia. reflexivity.
        -- eapply grows_trans; [|exact Hgrows].
           apply grows_log. split; reflexivity.
      * destruct IH as (Hlast' & Hfail & Hups & Hgrows).
        split; [exact Hlast'|]. split; [|split].
        -- intros i Hi. destruct (Nat.eq_dec i n) as [->|Hne]; [eauto|].
           apply Hfail. lia.
        -- rewrite Hups, <- app_assoc. f_equal.
           replace (4 - n) with (S (4 - S n)) by lia. reflexivity.
        -- eapply grows_trans; [|exact Hgrows].
           apply grows_log. split; reflexivity.
Qed.

Lemma outcome_bind {S A B} (P : S -> Prop) (m : M S A) (k : A -> M S B)
      (Q' : A -> S -> Prop) (Q : B -> S -> Prop) (E : exn -> S -> Prop) :
  outcome P m Q' E -> (forall a, outcome (Q' a) (k a) Q E) -> outcome P (bind m k) Q E.
Proof.
  intros Hm Hk s HP. unfold bind. specialize (Hm s HP).
  destruct (m s) as [[a|e] s1]; [apply Hk; exact Hm|exact Hm].
Qed.

Lemma outcome_throw {S A} (P : S -> Prop) e (Q : A -> S -> Prop) (E : exn -> S -> Prop) :
  (forall s, P s -> E e s) -> outcome P (throw e) Q E.
Proof. intros H s HP. apply H. exact HP. Qed.

(** A step on the variables and the world leaves the posts as they are. *)
Lemma outcome_on_run {A} (m : Comp A) (U : list V2.upload -> Prop)
      (E : exn -> (locals * world) * list V2.upload -> Prop) :
  (forall e s, U (snd s) -> E e s) ->
  outcome (fun s => U (snd s)) (V2.on_run m) (fun _ s => U (snd s)) E.
Proof.
  intros HE [lw ups] HU. unfold V2.on_run. cbn [fst snd] in *.
  destruct (m lw) as [[a|e] lw']; [exact HU|apply HE; exact HU].
Qed.

(** What the [try] block of the first version comes to: the file of a
    download sent until a post went through, or an error before any post,
    or the error of the relay after four posts. *)
Lemma first_version_deliver out url hook :
  outcome (fun s => snd s = [])
    (V2.deliver out url hook)
    (fun got s =>
       exists n d k status,
         download_result (V2.outside_of out) n = Ok d
         /\ got = (suggestedFilename d, content d, status, k)
         /\ k <= 3
         /\ V2.upload_result out k (delivery hook d) = Ok status
         /\ refused out (delivery hook d) 0 k
         /\ snd s = repeat (delivery hook d) (S k))
    (fun e s =>
       snd s = []
       \/ exists n d e0,
           download_result (V2.outside_of out) n = Ok d
           /\ V2.upload_result out 3 (delivery hook d) = Throw e0
           /\ refused out (delivery hook d) 0 4
           /\ e = V2.relay_failed e0
           /\ snd s = repeat (delivery hook d) 4).
Proof.
  unfold V2.deliver.
  eapply outcome_bind with (Q' := fun _ s => snd s = []);
    [apply (outcome_on_run _ (fun ups => ups = [])); auto|intros browser].
  eapply outcome_bind with (Q' := fun _ s => snd s = []);
    [apply (outcome_on_run _ (fun ups => ups = [])); auto|intros dir].
  eapply outcome_bind with (Q' := fun _ s => snd s = []);
    [apply (outcome_on_run _ (fun ups => ups = [])); auto|intros _].
  eapply outcome_bind with (Q' := fun _ s => snd s = []).
  { destruct browser; [apply (outcome_on_run _ (fun ups => ups = [])); auto|].
    apply outcome_throw. auto. }
  intros ctx.
  eapply outcome_bind with (Q' := fun _ s => snd s = []);
    [apply (outcome_on_run _ (fun ups => ups = [])); auto|intros _].
  eapply outcome_bind with (Q' := fun _ s => snd s = []);
    [apply (outcome_on_run _ (fun ups => ups = [])); auto|intros pg].
  eapply outcome_bind with (Q' := fun _ s => snd s = []);
    [apply (outcome_on_run _ (fun ups => ups = [])); auto|intros _].
  intros [[l w] ups] Hups. cbn [snd] in Hups. subst ups.
  unfold bind, V2.on_run, on_world, modify_locals. cbn [fst snd].
  pose proof (downloadWithRetry_stored V2.constants (V2.outside_of out) pg url dir 0 w)
    as Hstored.
  destruct (downloadWithRetry V2.constants (V2.outside_of out) pg url dir 0 w)
    as [[res|e] w1].
  2: { left. reflexivity. }
  destruct (Hstored res eq_refl) as (n & d & Hd & -> & Hfile).
  cbn [fst snd result_downloadPath result_fileName] in *.
  pose proof (fs_readFile_holds (V2.outside_of out) dir (stored_as d) (content d) w1)
    as Hread.
  destruct (fs_readFile (V2.outside_of out) (dir, stored_as d) w1) as [[buffer|e] w2].
  2: { left. reflexivity. }
  rewrite (Hread buffer Hfile eq_refl).
  pose proof (first_version_loop out (V2.formData hook (content d) (suggestedFilename d))
                4 0 (set_downloadPath (dir, stored_as d) l, w2, []) eq_refl ltac:(lia))
    as Hloop.
  destruct (V2.webhook_loop out _ 0 _) as [[[status k]|e] s'].
  - destruct Hloop as (Hk & Hok & Hfail & Hups & _).
    exists n, d, k, status. unfold ret. cbn [fst snd].
    rewrite Hups, Nat.sub_0_r. repeat split; auto; lia.
  - destruct Hloop as ((e0 & Hlast & ->) & Hfail & Hups & _).
    right. exists n, d, e0. repeat split; auto.
Qed.

Lemma steady_on_run {A} (F : frame) (m : Comp A) :
  steady run_world F m -> steady V2.request_world F (V2.on_run m).
Proof.
  intros Hm [lw ups]. unfold V2.on_run, V2.request_world. cbn [fst snd].
  specialize (Hm lw). unfold run_world in Hm. destruct (m lw) as [r lw']. exact Hm.
Qed.

Lemma first_version_loop_quiet out u :
  adds V2.request_world quiet (V2.webhook_loop out u 0).
Proof.
  intros s. pose proof (first_version_loop out u 4 0 s eq_refl ltac:(lia)) as H.
  destruct (V2.webhook_loop out u 0 s) as [[[status k]|e] s']; cbn [snd]; apply H.
Qed.

Lemma fs_mkdtemp_quiet out prefix : adds io_world quiet (V2.fs_mkdtemp out prefix).
Proof. unfold V2.fs_mkdtemp. steady_auto. Qed.

Lemma first_version_deliver_quiet out url hook :
  adds V2.request_world quiet (V2.deliver out url hook).
Proof.
  unfold V2.deliver.
  pose proof (initBrowser_quiet (V2.outside_of out)).
  pose proof (fs_mkdtemp_quiet out).
  pose proof (browser_newContext_quiet (V2.outside_of out)).
  pose proof (context_newPage_quiet (V2.outside_of out)).
  pose proof (downloadWithRetry_quiet V2.constants (V2.outside_of out)).
  pose proof (fs_readFile_quiet (V2.outside_of out)).
  pose proof (first_version_loop_quiet out).
  repeat first [ apply steady_on_run | steady_step ].
Qed.

Lemma first_version_release_quiet out :
  adds V2.request_world quiet (V2.on_run (release (V2.outside_of out))).
Proof. apply steady_on_run, release_quiet. Qed.

(** With both headers, a request adds the calls of its [try] block, then
    its response, then the calls of its [finally] block; the response
    tells how the [try] block ended. *)
Lemma first_version_request out url hook w :
  url <> "" -> hook <> "" ->
  let s0 := ((no_locals, w), []) in
  let s := snd (V2.processreport out (Some url) (Some hook) s0) in
  exists evs1 evs2,
    trace (V2.request_world s)
    = trace w ++ evs1
      ++ [match fst (V2.deliver out url hook s0) with
          | Ok (name, bytes, status, k) => Respond 200 (V2.delivered name bytes status k)
          | Throw e => Respond 500 (V2.failed e)
          end] ++ evs2
    /\ Forall quiet evs1 /\ Forall quiet evs2
    /\ snd s = snd (snd (V2.deliver out url hook s0)).
Proof.
  intros Hurl Hhook s0 s. subst s. unfold V2.processreport, env_falsy.
  apply String.eqb_neq in Hurl, Hhook. rewrite Hurl, Hhook. cbn [orb].
  unfold try_finally, try_catch, bind.
  pose proof (first_version_deliver_quiet out url hook s0) as (evs1 & Htrace1 & Hq1).
  destruct (V2.deliver out url hook s0) as [[[[[name bytes] status] k]|e] [[l1 w1] ups1]];
    cbn [fst snd V2.request_world] in *.
  - pose proof (first_version_release_quiet out
                  (l1, log_event (Respond 200 (V2.delivered name bytes status k)) w1, ups1))
      as Hrel.
    unfold V2.respond, V2.on_run, V2.request_world, on_world, emit, modify_world in *.
    cbn [fst snd] in *.
    destruct (release (V2.outside_of out) _) as [[u|e] [l2 w2]];
      cbn [fst snd] in *; destruct Hrel as (evs2 & Htrace2 & Hq2);
      exists evs1, evs2;
      (split; [rewrite Htrace2; cbn [trace log_event]; rewrite Htrace1, <- !app_assoc;
               reflexivity|auto]).
  - pose proof (first_version_release_quiet out
                  (l1, log_event (Respond 500 (V2.failed e)) w1, ups1))
      as Hrel.
    unfold V2.respond, V2.on_run, V2.request_world, on_world, emit, modify_world in *.
    cbn [fst snd] in *.
    destruct (release (V2.outside_of out) _) as [[u|e'] [l2 w2]];
      cbn [fst snd] in *; destruct Hrel as (evs2 & Htrace2 & Hq2);
      exists evs1, evs2;
      (split; [rewrite Htrace2; cbn [trace log_event]; rewrite Htrace1, <- !app_assoc;
               reflexivity|auto]).
Qed.

Lemma responses_quiet evs : Forall quiet evs -> responses evs = [].
Proof.
  intros H. apply responses_none. eapply Forall_impl; [exact H|].
  intros e [He _]. exact He.
Qed.

Lemma responses_around evs1 evs2 status body :
  Forall quiet evs1 -> Forall quiet evs2 ->
  responses (evs1 ++ [Respond status body] ++ evs2) = [Respond status body].
Proof.
  intros H1 H2. rewrite !responses_app, (responses_quiet evs1 H1), (responses_quiet evs2 H2).
  reflexivity.
Qed.

Lemma response_around evs1 evs2 resp status body :
  Forall quiet evs1 -> Forall quiet evs2 ->
  In (Respond status body) (evs1 ++ [resp] ++ evs2) -> resp = Respond status body.
Proof.
  intros H1 H2 Hin. apply in_app_or in Hin as [Hin|Hin].
  - rewrite List.Forall_forall in H1. destruct (H1 _ Hin) as [Hr _]. discriminate.
  - destruct Hin as [Hin|Hin]; [exact Hin|].
    rewrite List.Forall_forall in H2. destruct (H2 _ Hin) as [Hr _]. discriminate.
Qed.

Lemma first_version_missing out inputUrl outputWebhook s :
  env_falsy inputUrl || env_falsy outputWebhook = true ->
  V2.processreport out inputUrl outputWebhook s
  = V2.respond 400 V2.missing_headers s.
Proof.
  intros H. unfold V2.processreport.
  destruct inputUrl as [url|], outputWebhook as [hook|]; try reflexivity.
  rewrite H. reflexivity.
Qed.

(** X22. The first version answers every request once: with 400 and nothing
    else done when the header [inputurl] or the header [output] is missing
    or empty, else with 200 or 500, whatever happens to the download, to
    the relay and to the release of the working area. *)
Theorem first_version_responds_once (out : V2.conditions)
        (inputUrl outputWebhook : option string) (w : world) :
  let s := snd (V2.processreport out inputUrl outputWebhook ((no_locals, w), [])) in
  exists status body,
    responses (added w (V2.request_world s)) = [Respond status body]
    /\ (env_falsy inputUrl || env_falsy outputWebhook = true ->
        status = 400%Z
        /\ V2.request_world s = log_event (Respond 400 V2.missing_headers) w
        /\ snd s = [])
    /\ (env_falsy inputUrl || env_falsy outputWebhook = false ->
        status = 200%Z \/ status = 500%Z).
Proof.
  intros s. subst s.
  destruct (env_falsy inputUrl || env_falsy outputWebhook) eqn:Hmissing.
  - rewrite first_version_missing by exact Hmissing.
    exists 400%Z, V2.missing_headers. cbn [V2.respond V2.on_run on_world emit
      modify_world fst snd V2.request_world]. rewrite added_log.
    split; [reflexivity|]. split; [auto|discriminate].
  - destruct inputUrl as [url|]; [|discriminate].
    destruct outputWebhook as [hook|]; [|rewrite orb_true_r in Hmissing; discriminate].
    apply orb_false_elim in Hmissing as [Hurl Hhook]. simpl in Hurl, Hhook.
    apply String.eqb_neq in Hurl, Hhook.
    destruct (first_version_request out url hook w Hurl Hhook)
      as (evs1 & evs2 & Htrace & Hq1 & Hq2 & _).
    rewrite (added_app _ _ _ Htrace).
    destruct (fst (V2.deliver out url hook _)) as [[[[name bytes] status] k]|e];
      rewrite responses_around by assumption; eexists _, _;
      (split; [reflexivity|split; [discriminate|auto]]).
Qed.

(** X23. When the first version answers 200, the body of the response tells
    what was done: a download of the site was sent to the address of the
    header [output], as the file alone and under the name the site
    suggests, until a post went through, the fourth at the latest. The
    body gives the name, the size in KB with two decimals, and the status
    of that post; it gives one less than the posts that failed for
    [webhookRetries], and 0 for [downloadRetries] however many attempts
    the download took. *)
Theorem first_version_report (out : V2.conditions) (url hook : string) (w : world)
        (body : JS.value) :
  let s := snd (V2.processreport out (Some url) (Some hook) ((no_locals, w), [])) in
  In (Respond 200 body) (added w (V2.request_world s)) ->
  exists n d k status,
    download_result (V2.outside_of out) n = Ok d
    /\ k <= 3
    /\ refused out (delivery hook d) 0 k
    /\ V2.upload_result out k (delivery hook d) = Ok status
    /\ snd s = repeat (delivery hook d) (S k)
    /\ body = JS.Obj [("success", JS.Bool true);
                      ("message", JS.String "File downloaded and sent successfully");
                      ("fileName", JS.String (suggestedFilename d));
                      ("fileSize", JS.String (V2.fileSize (content d)));
                      ("webhookResponse", JS.Num status);
                      ("downloadRetries", JS.Num 0);
                      ("webhookRetries", JS.Num (Z.of_nat (k - 1)))].
Proof.
  intros s Hin. subst s.
  destruct (env_falsy (Some url) || env_falsy (Some hook)) eqn:Hmissing.
  { rewrite first_version_missing in Hin by exact Hmissing.
    cbn [V2.respond V2.on_run on_world emit modify_world fst snd V2.request_world] in Hin.
    rewrite added_log in Hin. destruct Hin as [[=]|[]]. }
  apply orb_false_elim in Hmissing as [Hurl Hhook]. simpl in Hurl, Hhook.
  apply String.eqb_neq in Hurl, Hhook.
  destruct (first_version_request out url hook w Hurl Hhook)
    as (evs1 & evs2 & Htrace & Hq1 & Hq2 & Hups).
  rewrite (added_app _ _ _ Htrace) in Hin.
  apply (response_around _ _ _ _ _ Hq1 Hq2) in Hin.
  rewrite Hups.
  pose proof (first_version_deliver out url hook ((no_locals, w), []) eq_refl) as Hrun.
  destruct (V2.deliver out url hook _) as [[got|e] s1]; cbn [fst snd] in *.
  - destruct Hrun as (n & d & k & status & Hd & -> & Hk & Hok & Hfail & Hposts).
    injection Hin as <-. exists n, d, k, status.
    repeat split; auto. unfold V2.delivered. do 9 f_equal.
    destruct k; reflexivity.
  - discriminate.
Qed.

Lemma first_version_report_witness :
  exists n d k status,
    download_result slow_site n = Ok d
    /\ k <= 3
    /\ refused busy_destination (delivery "https://hooks.example/in" d) 0 k
    /\ V2.upload_result busy_destination k (delivery "https://hooks.example/in" d)
       = Ok status
    /\ snd (snd (V2.processreport busy_destination (Some "https://site.example/r?id=7")
                   (Some "https://hooks.example/in") ((no_locals, empty_world), [])))
       = repeat (delivery "https://hooks.example/in" d) (S k)
    /\ JS.Obj [("success", JS.Bool true);
               ("message", JS.String "File downloaded and sent successfully");
               ("fileName", JS.String "GrandTotalReport_2024.pdf");
               ("fileSize", JS.String "0.01 KB");
               ("webhookResponse", JS.Num 200);
               ("downloadRetries", JS.Num 0);
               ("webhookRetries", JS.Num 1)]
       = JS.Obj [("success", JS.Bool true);
                 ("message", JS.String "File downloaded and sent successfully");
                 ("fileName", JS.String (suggestedFilename d));
                 ("fileSize", JS.String (V2.fileSize (content d)));
                 ("webhookResponse", JS.Num status);
                 ("downloadRetries", JS.Num 0);
                 ("webhookRetries", JS.Num (Z.of_nat (k - 1)))].
Proof.
  apply (first_version_report busy_destination "https://site.example/r?id=7"
           "https://hooks.example/in" empty_world).
  vm_compute. tauto.
Defined.

(** X24. With both headers, the first version posts the file of one download,
    each time the same, to the address of the header [output], four times
    at the most. When the fourth post fails as the three before it, the
    response is 500 and its details say that the relay failed after 3
    attempts, with the message of the last failure. *)
Theorem first_version_relay_bound (out : V2.conditions) (url hook : string) (w : world) :
  url <> "" -> hook <> "" ->
  let s := snd (V2.processreport out (Some url) (Some hook) ((no_locals, w), [])) in
  (snd s = []
   \/ exists n d k,
       download_result (V2.outside_of out) n = Ok d
       /\ 1 <= k <= 4
       /\ snd s = repeat {| V2.to := hook; V2.file := content d;
                            V2.filename := suggestedFilename d;
                            V2.contentType := "application/pdf" |} k)
  /\ forall d e,
      snd s = repeat (delivery hook d) 4 ->
      V2.upload_result out 3 (delivery hook d) = Throw e ->
      responses (added w (V2.request_world s))
      = [Respond 500
           (JS.Obj [("error", JS.String "Failed to process download");
                    ("details",
                     JS.String ("Failed to send to webhook after 3 attempts: "
                                ++ exn_message e))])].
Proof.
  intros Hurl Hhook s. subst s.
  destruct (first_version_request out url hook w Hurl Hhook)
    as (evs1 & evs2 & Htrace & Hq1 & Hq2 & Hups).
  rewrite (added_app _ _ _ Htrace), Hups.
  pose proof (first_version_deliver out url hook ((no_locals, w), []) eq_refl) as Hrun.
  destruct (V2.deliver out url hook _) as [[got|e] s1]; cbn [fst snd] in *.
  - destruct Hrun as (n & d & k & status & Hd & -> & Hk & Hok & Hfail & Hposts).
    split.
    + right. exists n, d, (S k). split; [exact Hd|]. split; [lia|exact Hposts].
    + intros d' e Hfour Hlast. rewrite Hposts in Hfour.
      assert (k = 3) as ->.
      { apply (f_equal (@length _)) in Hfour. rewrite !repeat_length in Hfour. lia. }
      assert (delivery hook d = delivery hook d') as Hsame
          by (cbn [repeat] in Hfour; congruence).
      rewrite Hsame in Hok. congruence.
  - destruct Hrun as [Hnone|(n & d & e0 & Hd & Hlast & Hfail & -> & Hposts)].
    + split; [left; exact Hnone|].
      intros d' e' Hfour. rewrite Hnone in Hfour. discriminate.
    + split.
      * right. exists n, d, 4. split; [exact Hd|]. split; [lia|exact Hposts].
      * intros d' e Hfour Hlast'. rewrite Hposts in Hfour.
        assert (delivery hook d = delivery hook d') as Hsame
            by (cbn [repeat] in Hfour; congruence).
        rewrite Hsame in Hlast.
        assert (e0 = e) as -> by congruence.
        rewrite responses_around by assumption. reflexivity.
Qed.

Lemma first_version_relay_bound_witness :
  responses (added empty_world
               (V2.request_world
                  (snd (V2.processreport deaf_destination
                          (Some "https://site.example/r?id=7")
                          (Some "https://hooks.example/in")
                          ((no_locals, empty_world), [])))))
  = [Respond 500
       (JS.Obj [("error", JS.String "Failed to process download");
                ("details",
                 JS.String "Failed to send to webhook after 3 attempts: connect ECONNREFUSED")])].
Proof.
  refine (proj2 (first_version_relay_bound deaf_destination "https://site.example/r?id=7"
                   "https://hooks.example/in" empty_world _ _)
                {| stored_as := "3f2a"; suggestedFilename := "GrandTotalReport_2024.pdf";
                   content := "%PDF-1.7" |} (External "connect ECONNREFUSED") _ _).
  - discriminate.
  - discriminate.
  - vm_compute. reflexivity.
  - reflexivity.
Defined.
